(** * Markdown and Ansible YAML lint scripts: model and verification

    Shallow embedding of the five scripts under [scripts/]:
    [fix-ansible-yaml.py], [fix-jinja2-spacing.py], [fix-markdown.py],
    [fix-markdown-v2.py] and [check-markdown.py].

    A Python [str] is modelled as a list of 8-bit code points (the
    Latin-1 range of Python's text type); the character classes below are
    Python's classification of those code points.  Console output
    ([print]) and file access are left out: every function is modelled from
    the decoded file content to the content that would be written back. *)

From Stdlib Require Import Ascii String Lia.
From stdpp Require Import list strings sorting.

(** * The scripts *)

(** ** Strings *)

Abbreviation str := (list ascii).

(** A Python string literal. *)
Definition txt (s : string) : str := list_ascii_of_string s.

Definition nl : ascii := "010"%char.
Definition cr : ascii := "013"%char.
Definition sp : ascii := " "%char.

Definition code (c : ascii) : nat := nat_of_ascii c.

Definition between (lo hi : nat) (c : ascii) : bool :=
  (lo <=? code c) && (code c <=? hi).

(** [str.isspace] on one character, which is also the class [\s] of [re]. *)
Definition isspace (c : ascii) : bool :=
  between 9 13 c || between 28 32 c || (code c =? 133) || (code c =? 160).

(** The class [\d] of [re]. *)
Definition isdigit (c : ascii) : bool := between 48 57 c.

(** The class [\w] of [re]: alphanumeric characters and the underscore. *)
Definition isword (c : ascii) : bool :=
  isdigit c || between 65 90 c || (code c =? 95) || between 97 122 c
  || (code c =? 170) || between 178 179 c || (code c =? 181)
  || between 185 186 c || between 188 190 c || between 192 214 c
  || between 216 246 c || between 248 255 c.

Definition is_nl (c : ascii) : bool := Ascii.eqb c nl.

(** The class [.] of [re] (without DOTALL). *)
Definition isdot (c : ascii) : bool := negb (is_nl c).

(** [s.lstrip(chars)], [s.rstrip(chars)] with the stripped set as a
    predicate. *)
Fixpoint lstrip_with (p : ascii -> bool) (s : str) : str :=
  match s with
  | c :: t => if p c then lstrip_with p t else s
  | [] => []
  end.

Definition rstrip_with (p : ascii -> bool) (s : str) : str :=
  reverse (lstrip_with p (reverse s)).

Definition lstrip (s : str) : str := lstrip_with isspace s.
Definition rstrip (s : str) : str := rstrip_with isspace s.
Definition strip (s : str) : str := rstrip (lstrip s).

(** [s.rstrip('\n')] *)
Definition rstrip_nl (s : str) : str := rstrip_with is_nl s.

(** [s.startswith(pre)] *)
Fixpoint startswith (pre s : str) : bool :=
  match pre, s with
  | [], _ => true
  | p :: pre', c :: s' => Ascii.eqb p c && startswith pre' s'
  | _ :: _, [] => false
  end.

(** [s.endswith(suf)] *)
Definition endswith (suf s : str) : bool :=
  startswith (reverse suf) (reverse s).

(** [pat in s] *)
Fixpoint has_substr (pat s : str) : bool :=
  startswith pat s
  || match s with
     | [] => false
     | _ :: s' => has_substr pat s'
     end.

(** [c in s] for a one-character string [c]. *)
Definition contains (c : ascii) (s : str) : bool := existsb (Ascii.eqb c) s.

(** The character class of the characters of [cs]. *)
Definition in_set (cs : str) (c : ascii) : bool := contains c cs.

(** [s.split(sep)] for a one-character separator. *)
Fixpoint split_on (sep : ascii) (s : str) : list str :=
  match s with
  | [] => [[]]
  | c :: t =>
      if Ascii.eqb c sep then [] :: split_on sep t
      else match split_on sep t with
           | l :: ls => (c :: l) :: ls
           | [] => [[c]]
           end
  end.

(** [sep.join(ls)] for a one-character separator. *)
Fixpoint join_with (sep : ascii) (ls : list str) : str :=
  match ls with
  | [] => []
  | [l] => l
  | l :: ls' => l ++ sep :: join_with sep ls'
  end.

(** [content.split('\n')] and ['\n'.join(lines)]. *)
Definition split_lines (content : str) : list str := split_on nl content.
Definition join_lines (lines : list str) : str := join_with nl lines.

(** Truth value of a list: [bool(l)]. *)
Definition nonempty_list {A} (l : list A) : bool :=
  match l with [] => false | _ :: _ => true end.

(** [s != ''] *)
Definition nonempty (s : str) : bool :=
  match s with [] => false | _ :: _ => true end.

(** [s.strip() != ''] *)
Definition nonblank (s : str) : bool := nonempty (strip s).

(** ** The fragment of [re] the scripts use

    A backtracking matcher in continuation-passing style.  The cursor is the
    pair of the text consumed so far (reversed) and the text still ahead.
    Quantifiers are only ever applied to character classes in the scripts'
    patterns, and so they are here. *)

Module Re.

Inductive regex : Type :=
| Bos                                   (* ^ *)
| Eos                                   (* $ *)
| Chr (p : ascii -> bool)               (* one character of a class *)
| Lit (s : str)                         (* literal text *)
| Cat (r1 r2 : regex)                   (* r1 r2 *)
| Alt (r1 r2 : regex)                   (* r1|r2 *)
| Opt (r : regex)                       (* (?:r)? *)
| Star (p : ascii -> bool)              (* [p]* *)
| Plus (p : ascii -> bool)              (* [p]+ *)
| PlusLazy (p : ascii -> bool)          (* [p]+? *)
| Group (n : nat) (r : regex)           (* capturing group number n *)
| NotBehind (p : ascii -> bool)         (* (?<![p]) *)
| NotAhead (p : ascii -> bool)          (* (?![p]) *)
| WordB.                                (* \b *)

(** Captured groups, most recent first. *)
Definition caps := list (nat * str).

Definition cont (R : Type) := str -> str -> caps -> option R.

Definition orelse {R} (x y : option R) : option R :=
  match x with Some _ => x | None => y end.

Fixpoint lit {R} (s : str) (k : cont R) (b a : str) (g : caps) : option R :=
  match s with
  | [] => k b a g
  | c :: s' =>
      match a with
      | c' :: a' => if Ascii.eqb c c' then lit s' k (c' :: b) a' g else None
      | [] => None
      end
  end.

Fixpoint star {R} (p : ascii -> bool) (k : cont R) (b a : str) (g : caps)
  : option R :=
  match a with
  | c :: a' =>
      if p c then orelse (star p k (c :: b) a' g) (k b a g) else k b a g
  | [] => k b a g
  end.

Fixpoint star_lazy {R} (p : ascii -> bool) (k : cont R) (b a : str) (g : caps)
  : option R :=
  orelse (k b a g)
    match a with
    | c :: a' => if p c then star_lazy p k (c :: b) a' g else None
    | [] => None
    end.

Definition one {R} (p : ascii -> bool) (k : cont R) : cont R :=
  fun b a g =>
    match a with
    | c :: a' => if p c then k (c :: b) a' g else None
    | [] => None
    end.

Fixpoint run {R} (r : regex) (k : cont R) (b a : str) (g : caps) : option R :=
  match r with
  | Bos => match b with [] => k b a g | _ :: _ => None end
  | Eos =>
      match a with
      | [] => k b a g
      | [c] => if is_nl c then k b a g else None
      | _ => None
      end
  | Chr p => one p k b a g
  | Lit s => lit s k b a g
  | Cat r1 r2 => run r1 (run r2 k) b a g
  | Alt r1 r2 => orelse (run r1 k b a g) (run r2 k b a g)
  | Opt r1 => orelse (run r1 k b a g) (k b a g)
  | Star p => star p k b a g
  | Plus p => one p (star p k) b a g
  | PlusLazy p => one p (star_lazy p k) b a g
  | Group n r1 =>
      run r1 (fun b' a' g' => k b' a' ((n, take (length a - length a') a) :: g'))
        b a g
  | NotBehind p =>
      match b with
      | c :: _ => if p c then None else k b a g
      | [] => k b a g
      end
  | NotAhead p =>
      match a with
      | c :: _ => if p c then None else k b a g
      | [] => k b a g
      end
  | WordB =>
      let word_behind := match b with c :: _ => isword c | [] => false end in
      let word_ahead := match a with c :: _ => isword c | [] => false end in
      if xorb word_behind word_ahead then k b a g else None
  end.

(** A match object: the captured groups and the text after the match. *)
Record match_obj : Type := MatchObj { groups : caps; rest : str }.

Definition finish : cont match_obj := fun _ a g => Some (MatchObj g a).

(** A match attempt at the cursor [(b, a)]. *)
Definition match_at (r : regex) (b a : str) : option match_obj :=
  run r finish b a [].

(** [re.match(r, s)] *)
Definition re_match (r : regex) (s : str) : option match_obj :=
  match_at r [] s.

(** [m.group(n)] for a group that took part in the match; the empty string
    stands for [None]. *)
Fixpoint lookup_group (n : nat) (g : caps) : str :=
  match g with
  | (m, s) :: g' => if Nat.eqb n m then s else lookup_group n g'
  | [] => []
  end.

Definition group (n : nat) (m : match_obj) : str := lookup_group n (groups m).

(** [re.sub(r, repl, s)] and [re.findall(r, s)] for patterns that never match
    the empty string (true of every pattern of the scripts): scan from the
    left, and after a match go on behind it.  [skip] counts the characters of
    the last match that are still to be stepped over; [repl] receives the
    match object and the matched text ([m.group(0)]). *)
Fixpoint sub_from (r : regex) (repl : match_obj -> str -> str)
    (skip : nat) (b a : str) : str :=
  match skip with
  | S n =>
      match a with
      | c :: a' => sub_from r repl n (c :: b) a'
      | [] => []
      end
  | O =>
      match match_at r b a with
      | Some m =>
          let whole := take (length a - length (rest m)) a in
          repl m whole ++
          match a with
          | c :: a' => sub_from r repl (length whole - 1) (c :: b) a'
          | [] => []
          end
      | None =>
          match a with
          | c :: a' => c :: sub_from r repl 0 (c :: b) a'
          | [] => []
          end
      end
  end.

Definition sub (r : regex) (repl : match_obj -> str -> str) (s : str) : str :=
  sub_from r repl 0 [] s.

Fixpoint findall_from (r : regex) (skip : nat) (b a : str) : list match_obj :=
  match skip with
  | S n =>
      match a with
      | c :: a' => findall_from r n (c :: b) a'
      | [] => []
      end
  | O =>
      match match_at r b a with
      | Some m =>
          m ::
          match a with
          | c :: a' =>
              findall_from r (length a - length (rest m) - 1) (c :: b) a'
          | [] => []
          end
      | None =>
          match a with
          | c :: a' => findall_from r 0 (c :: b) a'
          | [] => []
          end
      end
  end.

(** [re.findall(r, s)] for a pattern with exactly one group. *)
Definition findall (r : regex) (s : str) : list str :=
  map (group 1) (findall_from r 0 [] s).

End Re.

Import Re.

(** ** scripts/fix-ansible-yaml.py *)

Module FixAnsibleYaml.

(** The dictionaries are iterated in insertion order. *)
Definition FQCN_MAPPINGS : list (str * str) :=
  [ (txt "apt", txt "ansible.builtin.apt");
    (txt "copy", txt "ansible.builtin.copy");
    (txt "fetch", txt "ansible.builtin.fetch");
    (txt "file", txt "ansible.builtin.file");
    (txt "get_url", txt "ansible.builtin.get_url");
    (txt "lineinfile", txt "ansible.builtin.lineinfile");
    (txt "replace", txt "ansible.builtin.replace");
    (txt "shell", txt "ansible.builtin.shell");
    (txt "systemd", txt "ansible.builtin.systemd");
    (txt "template", txt "ansible.builtin.template");
    (txt "wait_for", txt "ansible.builtin.wait_for");
    (txt "modprobe", txt "community.general.modprobe");
    (txt "sysctl", txt "ansible.posix.sysctl");
    (txt "timezone", txt "community.general.timezone");
    (txt "ufw", txt "community.general.ufw") ].

Definition TRUTHY_MAPPINGS : list (str * str) :=
  [ (txt "yes", txt "true");
    (txt "no", txt "false");
    (txt "Yes", txt "true");
    (txt "No", txt "false");
    (txt "YES", txt "true");
    (txt "NO", txt "false") ].

(** [r'^(\s+(?:-\s+)?)(' + re.escape(short_name) + r':)'] *)
Definition fqcn_pattern (short_name : str) : regex :=
  Cat Bos
    (Cat (Group 1 (Cat (Plus isspace) (Opt (Cat (Lit (txt "-")) (Plus isspace)))))
         (Group 2 (Cat (Lit short_name) (Lit (txt ":"))))).

(** The loop state: the list [lines], mutated in place, and [modified]. *)
Definition loop_state : Type := list str * bool.

(** One round of the inner loop over the dictionary, for line [i]. *)
Definition fqcn_entry (i : nat) (line : str) (st : loop_state)
    (entry : str * str) : loop_state :=
  match re_match (fqcn_pattern entry.1) line with
  | Some m => (<[i := group 1 m ++ entry.2 ++ txt ":"]> st.1, true)
  | None => st
  end.

(** One round of the outer loop: [line] is [lines[i]] as it is when the
    round starts. *)
Definition fqcn_line (st : loop_state) (i : nat) : loop_state :=
  match st.1 !! i with
  | Some line => foldl (fqcn_entry i line) st FQCN_MAPPINGS
  | None => st
  end.

Definition fix_fqcn (content : str) : str * bool :=
  let lines := split_lines content in
  let st := foldl fqcn_line (lines, false) (seq 0 (length lines)) in
  (join_lines st.1, st.2).

(** [r'^(\s+\w+:\s+)(' + re.escape(old_val) + r')(\s*C?$)'], where [C] is the
    non-capturing group of a [#] followed by [.*]. *)
Definition truthy_pattern (old_val : str) : regex :=
  Cat Bos
    (Cat (Group 1 (Cat (Plus isspace)
                    (Cat (Plus isword) (Cat (Lit (txt ":")) (Plus isspace)))))
    (Cat (Group 2 (Lit old_val))
         (Group 3 (Cat (Star isspace)
                    (Cat (Opt (Cat (Lit (txt "#")) (Star isdot))) Eos))))).

Definition truthy_entry (i : nat) (line : str) (st : loop_state)
    (entry : str * str) : loop_state :=
  match re_match (truthy_pattern entry.1) line with
  | Some m =>
      let before := group 1 m in
      let after := if nonempty (group 3 m) then group 3 m else [] in
      (<[i := before ++ entry.2 ++ after]> st.1, true)
  | None => st
  end.

Definition truthy_line (st : loop_state) (i : nat) : loop_state :=
  match st.1 !! i with
  | Some line => foldl (truthy_entry i line) st TRUTHY_MAPPINGS
  | None => st
  end.

Definition fix_truthy_values (content : str) : str * bool :=
  let lines := split_lines content in
  let st := foldl truthy_line (lines, false) (seq 0 (length lines)) in
  (join_lines st.1, st.2).

Definition not_rbrace (c : ascii) : bool := negb (Ascii.eqb c "}"%char).

(** [r'\{\{\s+([^}]+?)\s+\}\}'] *)
Definition brace_pattern : regex :=
  Cat (Lit (txt "{{"))
    (Cat (Plus isspace)
      (Cat (Group 1 (PlusLazy not_rbrace))
        (Cat (Plus isspace) (Lit (txt "}}"))))).

(** The replacement template [r'{{\1}}']. *)
Definition brace_repl (m : match_obj) (whole : str) : str :=
  txt "{{" ++ group 1 m ++ txt "}}".

Definition fix_brace_spacing (content : str) : str * bool :=
  let fixed := sub brace_pattern brace_repl content in
  (fixed, negb (bool_decide (fixed = content))).

Definition fix_trailing_spaces (content : str) : str * bool :=
  let lines := split_lines content in
  let fixed_lines := map rstrip lines in
  (join_lines fixed_lines, negb (bool_decide (lines = fixed_lines))).

(** [content.replace('\r\n', '\n')] *)
Fixpoint replace_crlf (s : str) : str :=
  match s with
  | c :: t =>
      match t with
      | d :: t' =>
          if Ascii.eqb c cr && Ascii.eqb d nl then nl :: replace_crlf t'
          else c :: replace_crlf t
      | [] => [c]
      end
  | [] => []
  end.

(** [content.replace('\r', '\n')] *)
Definition replace_cr (s : str) : str :=
  map (fun c => if Ascii.eqb c cr then nl else c) s.

Definition fix_line_endings (content : str) : str * bool :=
  let fixed := replace_cr (replace_crlf content) in
  (fixed, negb (bool_decide (fixed = content))).

(** The fixes of [process_file], in its order. *)
Definition apply_fixes (content : str) : str :=
  let content := (fix_line_endings content).1 in
  let content := (fix_fqcn content).1 in
  let content := (fix_truthy_values content).1 in
  let content := (fix_brace_spacing content).1 in
  (fix_trailing_spaces content).1.

(** [process_file] on a file holding [original]: the content of the file
    afterwards and the returned flag. *)
Definition process_file (original : str) : str * bool :=
  let content := apply_fixes original in
  if bool_decide (content = original) then (original, false)
  else (content, true).

End FixAnsibleYaml.

(** ** scripts/fix-jinja2-spacing.py *)

Module FixJinja2Spacing.

Definition not_rbrace (c : ascii) : bool := negb (Ascii.eqb c "}"%char).

(** [r'\{\{([^}]+)\}\}'] *)
Definition pattern : regex :=
  Cat (Lit (txt "{{")) (Cat (Group 1 (Plus not_rbrace)) (Lit (txt "}}"))).

(** The replacement function [add_spaces]; [whole] is [match.group(0)]. *)
Definition add_spaces (m : match_obj) (whole : str) : str :=
  let inner := group 1 m in
  if startswith (txt " ") inner && endswith (txt " ") inner then whole
  else txt "{{ " ++ strip inner ++ txt " }}".

Definition fix_jinja2_spacing (content : str) : str * bool :=
  let fixed := sub pattern add_spaces content in
  (fixed, negb (bool_decide (fixed = content))).

(** [process_file] on a file holding [original]: the content of the file
    afterwards and the returned flag. *)
Definition process_file (original : str) : str * bool :=
  let '(fixed_content, modified) := fix_jinja2_spacing original in
  if modified then (fixed_content, true) else (original, false).

End FixJinja2Spacing.

(** ** Loops over [enumerate(lines)] *)

Fixpoint enumerate_from {A} (start : nat) (l : list A) : list (nat * A) :=
  match l with
  | [] => []
  | x :: l' => (start, x) :: enumerate_from (S start) l'
  end.

(** [lines[i-1] if i > 0 else ''] *)
Definition prev_of (lines : list str) (i : nat) : str :=
  if 0 <? i then default [] (lines !! (i - 1)) else [].

(** [lines[i+1] if i < len(lines)-1 else ''] *)
Definition next_of (lines : list str) (i : nat) : str :=
  if i <? length lines - 1 then default [] (lines !! (i + 1)) else [].

(** [result and result[-1] != ''] *)
Definition last_nonempty (result : list str) : bool :=
  match last result with
  | Some l => nonempty l
  | None => false
  end.

Definition fence : str := txt "```".

(** ** scripts/fix-markdown.py *)

Module FixMarkdown.

(** [l.strip().startswith('#')] *)
Definition starts_hash (l : str) : bool := startswith (txt "#") (strip l).

Definition headings_step (lines : list str) (result : list str)
    (il : nat * str) : list str :=
  let '(i, line) := il in
  let is_heading := starts_hash line && contains sp line in
  let prev_line := prev_of lines i in
  let next_line := next_of lines i in
  let result :=
    if is_heading && (0 <? i) && nonblank prev_line
       && negb (starts_hash prev_line)
    then (if last_nonempty result then result ++ [[]] else result)
    else result in
  let result := result ++ [line] in
  if is_heading && (i <? length lines - 1) && nonblank next_line
     && negb (starts_hash next_line)
  then (if nonblank next_line && negb (startswith fence next_line)
        then result ++ [[]] else result)
  else result.

Definition fix_blank_lines_around_headings (content : str) : str :=
  let lines := split_lines content in
  join_lines (foldl (headings_step lines) [] (enumerate_from 0 lines)).

(** [l.strip().startswith('```')] *)
Definition is_fence (l : str) : bool := startswith fence (strip l).

(** The loop state of the fence pass: [result] and [in_fence]. *)
Definition fences_step (lines : list str) (st : list str * bool)
    (il : nat * str) : list str * bool :=
  let '(result, in_fence) := st in
  let '(i, line) := il in
  let prev_line := prev_of lines i in
  let next_line := next_of lines i in
  if is_fence line then
    if negb in_fence then
      let result :=
        if (0 <? i) && nonblank prev_line
        then (if last_nonempty result then result ++ [[]] else result)
        else result in
      (result ++ [line], true)
    else
      let result := result ++ [line] in
      let result :=
        if (i <? length lines - 1) && nonblank next_line
        then result ++ [[]] else result in
      (result, false)
  else (result ++ [line], in_fence).

Definition fix_blank_lines_around_fences (content : str) : str :=
  let lines := split_lines content in
  join_lines (foldl (fences_step lines) ([], false) (enumerate_from 0 lines)).1.

Definition dash_or_star (c : ascii) : bool :=
  Ascii.eqb c "-"%char || Ascii.eqb c "*"%char.

(** [r'^(G)[-*]|\d+\.\s'], where the group [G] is [\s*]. *)
Definition list_pattern : regex :=
  Alt (Cat Bos (Cat (Group 1 (Star isspace)) (Chr dash_or_star)))
      (Cat (Plus isdigit) (Cat (Lit (txt ".")) (Chr isspace))).

(** [bool(list_pattern.match(line))] *)
Definition is_list_line (line : str) : bool :=
  match re_match list_pattern line with Some _ => true | None => false end.

(** The loop state of the list pass: [result] and [in_list]. *)
Definition lists_step (lines : list str) (st : list str * bool)
    (il : nat * str) : list str * bool :=
  let '(result, in_list) := st in
  let '(i, line) := il in
  let is_list := is_list_line line in
  let prev_line := prev_of lines i in
  let '(result, in_list) :=
    if is_list && negb in_list then
      let result :=
        if (0 <? i) && nonblank prev_line && negb (is_list_line prev_line)
        then (if last_nonempty result then result ++ [[]] else result)
        else result in
      (result, true)
    else if negb is_list && in_list then
      let result :=
        if nonblank line
        then (if last_nonempty result then result ++ [[]] else result)
        else result in
      (result, false)
    else (result, in_list) in
  (result ++ [line], in_list).

Definition fix_blank_lines_around_lists (content : str) : str :=
  let lines := split_lines content in
  join_lines (foldl (lists_step lines) ([], false) (enumerate_from 0 lines)).1.

Definition fix_trailing_spaces (content : str) : str :=
  join_lines (map rstrip (split_lines content)).

(** One round of the loop of [add_language_to_fences]. *)
Definition language_step (result : list str) (line : str) : list str :=
  if bool_decide (strip line = fence) then result ++ [txt "```text"]
  else result ++ [line].

Definition add_language_to_fences (content : str) : str :=
  join_lines (foldl language_step [] (split_lines content)).

Definition fix_eof_newline (content : str) : str :=
  rstrip_nl content ++ [nl].

(** The pattern of [wrap_bare_urls]:
    [r'(?<!\(|\[|<)(https?://[^\s\)]+)(?!\)|]|>)'] *)
Definition bare_url_pattern : regex :=
  Cat (NotBehind (in_set (txt "([<")))
    (Cat (Group 1
           (Cat (Lit (txt "http"))
             (Cat (Opt (Lit (txt "s")))
               (Cat (Lit (txt "://"))
                 (Plus (fun c => negb (isspace c || in_set (txt ")") c)))))))
         (NotAhead (in_set (txt ")]>")))).

(** The replacement template [r'<\1>']. *)
Definition bare_url_repl (m : match_obj) (whole : str) : str :=
  txt "<" ++ group 1 m ++ txt ">".

Definition wrap_bare_urls (content : str) : str :=
  sub bare_url_pattern bare_url_repl content.

(** The fixes of [process_markdown_file], in its order (the two calls that
    are commented out in the script are not part of it). *)
Definition apply_fixes (content : str) : str :=
  let content := fix_trailing_spaces content in
  let content := fix_blank_lines_around_headings content in
  let content := fix_blank_lines_around_fences content in
  let content := fix_blank_lines_around_lists content in
  fix_eof_newline content.

(** [process_markdown_file] on a file holding [original]: the content of
    the file afterwards and the returned flag.  The file is rewritten only
    when the content changed. *)
Definition process_markdown_file (original : str) : str * bool :=
  let content := apply_fixes original in
  if bool_decide (content = original) then (original, false)
  else (content, true).

End FixMarkdown.

(** ** scripts/fix-markdown-v2.py *)

Module FixMarkdownV2.

Definition is_fence (l : str) : bool := startswith fence (strip l).

Definition fence_blanks_step (lines : list str) (st : list str * bool)
    (il : nat * str) : list str * bool :=
  let '(result, in_fence) := st in
  let '(i, line) := il in
  let prev_line := prev_of lines i in
  let next_line := next_of lines i in
  if is_fence line then
    if negb in_fence then
      let result :=
        if (0 <? i) && nonblank prev_line
        then (if last_nonempty result then result ++ [[]] else result)
        else result in
      let result :=
        if bool_decide (strip line = fence)
        then result ++ [txt "```text"] else result ++ [line] in
      (result, true)
    else
      let result := result ++ [line] in
      let result :=
        if (i <? length lines - 1) && nonblank next_line
        then result ++ [[]] else result in
      (result, false)
  else (result ++ [line], in_fence).

Definition fix_code_fence_blanks (content : str) : str :=
  let lines := split_lines content in
  join_lines
    (foldl (fence_blanks_step lines) ([], false) (enumerate_from 0 lines)).1.

(** The first fix of [process_file]: [content.rstrip() + '\n']. *)
Definition fix_eof (content : str) : str := rstrip content ++ [nl].

(** The second fix of [process_file]: trailing spaces of every line. *)
Definition strip_lines (content : str) : str :=
  join_lines (map rstrip (split_lines content)).

(** [r'(?<![(<\[])\b(https?://[^\s\)<>\]]+)(?![>\)\]])'] *)
Definition url_pattern : regex :=
  Cat (NotBehind (in_set (txt "(<[")))
    (Cat WordB
      (Cat (Group 1
             (Cat (Lit (txt "http"))
               (Cat (Opt (Lit (txt "s")))
                 (Cat (Lit (txt "://"))
                   (Plus (fun c => negb (isspace c || in_set (txt ")<>]") c)))))))
           (NotAhead (in_set (txt ">)]"))))).

(** The replacement template [r'<\1>']. *)
Definition url_repl (m : match_obj) (whole : str) : str :=
  txt "<" ++ group 1 m ++ txt ">".

(** The loop state of the URL pass: [result] and [in_code_block]. *)
Definition urls_step (st : list str * bool) (line : str) : list str * bool :=
  let '(result, in_code_block) := st in
  if is_fence line then (result ++ [line], negb in_code_block)
  else if in_code_block then (result ++ [line], in_code_block)
  else if contains "["%char line && has_substr (txt "](") line
  then (result ++ [line], in_code_block)
  else if startswith (txt "- ") (strip line) && has_substr (txt "http") line
  then (result ++ [line], in_code_block)
  else (result ++ [sub url_pattern url_repl line], in_code_block).

Definition wrap_bare_urls_careful (content : str) : str :=
  join_lines (foldl urls_step ([], false) (split_lines content)).1.

(** [line.split('. ')] *)
Fixpoint split_sentences (s : str) : list str :=
  match s with
  | [] => [[]]
  | c :: t =>
      match t with
      | d :: t' =>
          if Ascii.eqb c "."%char && Ascii.eqb d " "%char
          then [] :: split_sentences t'
          else match split_sentences t with
               | l :: ls => (c :: l) :: ls
               | [] => [[c]]
               end
      | [] => [[c]]
      end
  end.

(** One round of the inner loop of [fix_long_lines] over [parts[1:]]: the
    state is [result] and [current]. *)
Definition sentence_step (max_length : nat) (st : list str * str) (part : str)
  : list str * str :=
  let '(result, current) := st in
  if max_length <? length current + length part + 2
  then (result ++ [current], part)
  else (result, current ++ txt " " ++ part).

(** The loop state of [fix_long_lines]: [result] and [in_code_block]. *)
Definition long_lines_step (max_length : nat) (st : list str * bool) (line : str)
  : list str * bool :=
  let '(result, in_code_block) := st in
  if is_fence line then (result ++ [line], negb in_code_block)
  else if in_code_block then (result ++ [line], in_code_block)
  else if startswith (txt "http") (strip line)
          || startswith (txt "-") (strip line)
          || startswith (txt "*") (strip line)
  then (result ++ [line], in_code_block)
  else if (max_length <? length line) && has_substr (txt ". ") line then
    let parts := split_sentences line in
    let '(result, current) :=
      foldl (sentence_step max_length)
        (result, default [] (head parts) ++ txt ".") (tail parts) in
    (if nonempty current then result ++ [current] else result, in_code_block)
  else (result ++ [line], in_code_block).

(** [fix_long_lines(content, max_length)]; the script's default for
    [max_length] is 120. *)
Definition fix_long_lines (content : str) (max_length : nat) : str :=
  join_lines
    (foldl (long_lines_step max_length) ([], false) (split_lines content)).1.

(** The fixes of [process_file], in its order. *)
Definition apply_fixes (content : str) : str :=
  let content := fix_eof content in
  let content := strip_lines content in
  let content := fix_code_fence_blanks content in
  wrap_bare_urls_careful content.

(** [process_file] on a file holding [original]: the content of the file
    afterwards and the returned flag. *)
Definition process_file (original : str) : str * bool :=
  let content := apply_fixes original in
  if bool_decide (content = original) then (original, false)
  else (content, true).

End FixMarkdownV2.

(** ** scripts/check-markdown.py *)

Module CheckMarkdown.

(** An issue: the rule, the 1-based line number and what the message
    carries besides. *)
Inductive issue : Type :=
| MD040 (i : nat)                  (* Code fence without language *)
| MD031_before (i : nat)           (* Missing blank line before code fence *)
| MD031_after (i : nat)            (* Missing blank line after code fence *)
| MD022_before (i : nat)           (* Missing blank line before heading *)
| MD022_after (i : nat)            (* Missing blank line after heading *)
| MD009 (i : nat) (spaces : nat)   (* Trailing spaces *)
| MD013 (i : nat) (len : nat)      (* Line too long *)
| MD034 (i : nat) (url : str)      (* Bare URL, cut to 50 characters *)
| MD047_multiple                   (* Multiple trailing newlines *)
| MD047_missing.                   (* Missing trailing newline *)

(** [f.readlines()] on the content as text mode delivers it (every line end
    is a newline): the lines with their terminators. *)
Fixpoint readlines (s : str) : list str :=
  match s with
  | [] => []
  | c :: t =>
      if is_nl c then [c] :: readlines t
      else match readlines t with
           | l :: ls => (c :: l) :: ls
           | [] => [[c]]
           end
  end.

(** [issues.append(x)] under the condition [cond]. *)
Definition emit (cond : bool) (x : issue) (issues : list issue) : list issue :=
  if cond then issues ++ [x] else issues.

(** [r'(?<![(<])(https?://[^\s\)>]+)(?![>)])'] *)
Definition url_pattern : regex :=
  Cat (NotBehind (in_set (txt "(<")))
    (Cat (Group 1
           (Cat (Lit (txt "http"))
             (Cat (Opt (Lit (txt "s")))
               (Cat (Lit (txt "://"))
                 (Plus (fun c => negb (isspace c || in_set (txt ")>") c)))))))
         (NotAhead (in_set (txt ">)")))).

(** The loop state: [issues], [in_code_block] and [prev_line]. *)
Record scan : Type := Scan {
  issues : list issue;
  in_code_block : bool;
  prev_line : str
}.

(** [lines[i] if i < len(lines) else ''], the line after line number [i]. *)
Definition line_after (lines : list str) (i : nat) : str :=
  if i <? length lines then default [] (lines !! i) else [].

(** The five checks of the loop body, in their order.  The fence check
    toggles [in_code_block] before it looks at it. *)
Definition check_fence (lines : list str) (i : nat) (line_rstrip prev_line : str)
    (st : list issue * bool) : list issue * bool :=
  let '(issues, in_code_block) := st in
  if startswith fence line_rstrip then
    let in_code_block := negb in_code_block in
    let issues :=
      emit (negb in_code_block && bool_decide (line_rstrip = fence))
        (MD040 i) issues in
    let issues :=
      emit (negb in_code_block && nonblank prev_line
            && ((1 <? i) && negb (startswith (txt "#") prev_line)))
        (MD031_before i) issues in
    let issues :=
      emit (in_code_block && (i <? length lines)
            && nonblank (line_after lines i))
        (MD031_after i) issues in
    (issues, in_code_block)
  else (issues, in_code_block).

(** [line_rstrip.startswith('#') and ' ' in line_rstrip] *)
Definition is_heading (line_rstrip : str) : bool :=
  startswith (txt "#") line_rstrip && contains sp line_rstrip.

Definition check_heading (lines : list str) (i : nat)
    (line_rstrip prev_line : str) (issues : list issue) : list issue :=
  if is_heading line_rstrip then
    let issues :=
      emit ((1 <? i) && nonblank prev_line) (MD022_before i) issues in
    emit ((i <? length lines) && nonblank (line_after lines i)
          && negb (startswith (txt "#") (line_after lines i)))
      (MD022_after i) issues
  else issues.

Definition check_trailing (i : nat) (line_rstrip : str) (issues : list issue)
  : list issue :=
  if negb (bool_decide (line_rstrip = rstrip line_rstrip)) then
    let spaces := length line_rstrip - length (rstrip line_rstrip) in
    emit (negb (bool_decide (spaces ∈ [2]))) (MD009 i spaces) issues
  else issues.

Definition check_length (i : nat) (line_rstrip : str) (in_code_block : bool)
    (issues : list issue) : list issue :=
  emit ((120 <? length line_rstrip) && negb in_code_block
        && negb (startswith (txt "http") line_rstrip))
    (MD013 i (length line_rstrip)) issues.

Definition check_urls (i : nat) (line : str) (in_code_block : bool)
    (issues : list issue) : list issue :=
  if negb in_code_block
  then issues ++ map (fun url => MD034 i (take 50 url)) (findall url_pattern line)
  else issues.

Definition check_step (lines : list str) (st : scan) (il : nat * str) : scan :=
  let '(i, line) := il in
  let line_rstrip := rstrip_nl line in
  let '(issues, in_code_block) :=
    check_fence lines i line_rstrip (prev_line st)
      (issues st, in_code_block st) in
  let issues := check_heading lines i line_rstrip (prev_line st) issues in
  let issues := check_trailing i line_rstrip issues in
  let issues := check_length i line_rstrip in_code_block issues in
  let issues := check_urls i line in_code_block issues in
  Scan issues in_code_block line_rstrip.

(** The body of [check_file] on the lines read. *)
Definition check_lines (lines : list str) : list issue :=
  let st := foldl (check_step lines) (Scan [] false []) (enumerate_from 1 lines) in
  let last_line := default [] (last lines) in
  if nonempty_list lines && endswith [nl; nl] last_line
  then issues st ++ [MD047_multiple]
  else if nonempty_list lines && negb (endswith [nl] last_line)
  then issues st ++ [MD047_missing]
  else issues st.

(** [check_file] on a file holding [content]. *)
Definition check_file (content : str) : list issue :=
  check_lines (readlines content).

End CheckMarkdown.

(** * Notions of the statements and proofs *)

(** ** Patterns *)

(** A pattern without capturing groups. *)
Fixpoint nogroup (r : regex) : bool :=
  match r with
  | Cat r1 r2 | Alt r1 r2 => nogroup r1 && nogroup r2
  | Opt r1 => nogroup r1
  | Group _ _ => false
  | _ => true
  end.

(** A pattern that does not look at the text behind the cursor. *)
Fixpoint ctxfree (r : regex) : bool :=
  match r with
  | Bos | NotBehind _ | WordB => false
  | Cat r1 r2 | Alt r1 r2 => ctxfree r1 && ctxfree r2
  | Opt r1 | Group _ r1 => ctxfree r1
  | _ => true
  end.

(** Two continuations that do not look at the text behind the cursor and
    agree otherwise. *)
Definition agree {R} (k k' : cont R) : Prop :=
  forall b b' a g, k b a g = k' b' a g.

(** ** Lines and documents *)

(** Lines as [split] produces them: at least one, none with a newline. *)
Definition lines_ok (ls : list str) : Prop :=
  ls <> [] /\ Forall (fun l => nl ∉ l) ls.

(** A document given by its lines, each one terminated by a newline. *)
Definition document (ls : list string) : str :=
  concat (map (fun l => txt l ++ [nl]) ls).

Definition tab : ascii := "009"%char.

(** ** fix-ansible-yaml.py *)

(** What one round of the inner loop of [fix_fqcn] leaves in [lines[i]],
    and what the whole inner loop does. *)
Definition fqcn_rewrite_entry (line cur : str) (e : str * str) : str :=
  match re_match (FixAnsibleYaml.fqcn_pattern e.1) line with
  | Some m => group 1 m ++ e.2 ++ txt ":"
  | None => cur
  end.

Definition fqcn_rewrite (line : str) : str :=
  foldl (fqcn_rewrite_entry line) line FixAnsibleYaml.FQCN_MAPPINGS.

(** The same for [fix_truthy_values]. *)
Definition truthy_rewrite_entry (line cur : str) (e : str * str) : str :=
  match re_match (FixAnsibleYaml.truthy_pattern e.1) line with
  | Some m =>
      group 1 m ++ e.2 ++ (if nonempty (group 3 m) then group 3 m else [])
  | None => cur
  end.

Definition truthy_rewrite (line : str) : str :=
  foldl (truthy_rewrite_entry line) line FixAnsibleYaml.TRUTHY_MAPPINGS.

(** The line does not start with a whitespace character. *)
Definition no_leading_space (line : str) : Prop :=
  forall c, head line = Some c -> isspace c = false.

(** The short module names of the table. *)
Definition fqcn_keys : list str := map fst FixAnsibleYaml.FQCN_MAPPINGS.

(** The recognized spellings of yes and no. *)
Definition truthy_keys : list str := map fst FixAnsibleYaml.TRUTHY_MAPPINGS.

(** ** fix-markdown.py *)

(** A pass that walks the lines with a state and puts an empty line into
    the gap between two neighbours when its rule says so. *)
Section GapPass.
Context {S : Type}.
Variable rule : S -> str -> str -> bool.
Variable upd : S -> str -> S.

Fixpoint gap_pass (s : S) (prev : str) (ls : list str) : list str :=
  match ls with
  | [] => []
  | line :: rest =>
      (if rule s prev line then [[]] else [])
      ++ line :: gap_pass (upd s line) line rest
  end.

(** No gap of [ls] asks for an empty line. *)
Fixpoint gap_stable (s : S) (prev : str) (ls : list str) : bool :=
  match ls with
  | [] => true
  | line :: rest => negb (rule s prev line) && gap_stable (upd s line) line rest
  end.
End GapPass.

(** [ls'] is [ls] with empty lines inserted. *)
Inductive blank_inserted : list str -> list str -> Prop :=
| bi_nil : blank_inserted [] []
| bi_keep l ls ls' : blank_inserted ls ls' -> blank_inserted (l :: ls) (l :: ls')
| bi_blank ls ls' : blank_inserted ls ls' -> blank_inserted ls ([] :: ls').

(** [[''] if b else []] *)
Definition pending (b : bool) : list str := if b then [[]] else [].

(** The loop of [fix_blank_lines_around_headings]. *)
Definition heading_lines (lines : list str) : list str :=
  foldl (FixMarkdown.headings_step lines) [] (enumerate_from 0 lines).

(** [is_heading] of the heading pass. *)
Definition heading (l : str) : bool :=
  FixMarkdown.starts_hash l && contains sp l.

(** The empty line after the heading [a], when [b] follows it. *)
Definition heading_after (a b : str) : bool :=
  heading a && nonblank b && negb (FixMarkdown.starts_hash b)
  && negb (startswith fence b).

(** The heading pass puts an empty line between [a] and [b]. *)
Definition heading_rule (_ : unit) (a b : str) : bool :=
  (heading b && nonblank a && negb (FixMarkdown.starts_hash a))
  || heading_after a b.

Definition keep_state (s : unit) (_ : str) : unit := s.

(** The loop of [fix_blank_lines_around_fences]. *)
Definition fence_lines (lines : list str) : list str :=
  (foldl (FixMarkdown.fences_step lines) ([], false) (enumerate_from 0 lines)).1.

(** The empty line after the closing fence [a], when [b] follows it;
    [in_fence] is the state after [a]. *)
Definition fence_after (in_fence : bool) (a b : str) : bool :=
  FixMarkdown.is_fence a && negb in_fence && nonblank b.

(** The fence pass puts an empty line between [a] and [b]; [in_fence] is the
    state between the two. *)
Definition fence_rule (in_fence : bool) (a b : str) : bool :=
  fence_after in_fence a b
  || (FixMarkdown.is_fence b && negb in_fence && nonblank a).

Definition fence_upd (in_fence : bool) (l : str) : bool :=
  if FixMarkdown.is_fence l then negb in_fence else in_fence.

(** The loop of [fix_blank_lines_around_lists]. *)
Definition list_lines (lines : list str) : list str :=
  (foldl (FixMarkdown.lists_step lines) ([], false) (enumerate_from 0 lines)).1.

(** The list pass puts an empty line between [a] and [b]. *)
Definition list_rule (_ : unit) (a b : str) : bool :=
  (FixMarkdown.is_list_line b && negb (FixMarkdown.is_list_line a) && nonblank a)
  || (negb (FixMarkdown.is_list_line b) && FixMarkdown.is_list_line a
      && nonblank b).

(** No line has trailing whitespace. *)
Definition all_stripped (ls : list str) : Prop :=
  Forall (fun l => rstrip l = l) ls.

(** The lines of a content are stable when no pass has anything to insert. *)
Definition stable_lines (ls : list str) : Prop :=
  all_stripped ls /\
  gap_stable heading_rule keep_state tt [] ls = true /\
  gap_stable fence_rule fence_upd false [] ls = true /\
  gap_stable list_rule keep_state tt [] ls = true.

(** ** check-markdown.py *)

(** The loop state of [check_file] when it reaches the line of index [j]
    (line number [j + 1]). *)
Definition scan_before (lines : list str) (j : nat) : CheckMarkdown.scan :=
  foldl (CheckMarkdown.check_step lines) (CheckMarkdown.Scan [] false [])
    (enumerate_from 1 (take j lines)).

(** The state a step starts from, without the issues found so far. *)
Definition fresh (st : CheckMarkdown.scan) : CheckMarkdown.scan :=
  CheckMarkdown.Scan [] (CheckMarkdown.in_code_block st)
    (CheckMarkdown.prev_line st).

(** ** Captured text *)

(** Every captured group consists of characters with the property [P]. *)
Definition caps_all (P : ascii -> Prop) (g : caps) : Prop :=
  Forall (fun ns : nat * str => Forall P ns.2) g.

(** ** URLs *)

(** Every [http] of [s] stands directly behind a character of the class
    [p]; [prev] is the character in front of [s]. *)
Fixpoint urls_guarded (p : ascii -> bool) (prev : option ascii) (s : str) : bool :=
  match s with
  | [] => true
  | c :: t =>
      (negb (startswith (txt "http") s)
       || match prev with Some x => p x | None => false end)
      && urls_guarded p (Some c) t
  end.

(** A pattern that can match only at an [http] that does not stand behind a
    character of the class [p]. *)
Definition url_like (p : ascii -> bool) (r : regex) : Prop :=
  forall b a,
  (exists c t, b = c :: t /\ p c = true) \/
  startswith (txt "http") a = false ->
  match_at r b a = None.

(** ** fix-markdown-v2.py *)

(** The loop of [fix_code_fence_blanks]. *)
Definition fence_blank_lines (lines : list str) : list str :=
  (foldl (FixMarkdownV2.fence_blanks_step lines) ([], false)
     (enumerate_from 0 lines)).1.

(** What the fence pass of fix-markdown-v2.py writes for the line [l]: a bare
    fence that opens a block gets the language [text]. *)
Definition tag_line (in_fence : bool) (l : str) : str :=
  if FixMarkdownV2.is_fence l && negb in_fence && bool_decide (strip l = fence)
  then txt "```text" else l.

Fixpoint tag_opening_fences (in_fence : bool) (ls : list str) : list str :=
  match ls with
  | [] => []
  | l :: rest =>
      tag_line in_fence l :: tag_opening_fences (fence_upd in_fence l) rest
  end.

(** What the URL pass of fix-markdown-v2.py writes for a line. *)
Definition wrap_line (in_code_block : bool) (line : str) : str :=
  if FixMarkdownV2.is_fence line || in_code_block
     || (contains "["%char line && has_substr (txt "](") line)
     || (startswith (txt "- ") (strip line) && has_substr (txt "http") line)
  then line
  else sub FixMarkdownV2.url_pattern FixMarkdownV2.url_repl line.

Fixpoint wrap_lines (in_code_block : bool) (ls : list str) : list str :=
  match ls with
  | [] => []
  | l :: rest =>
      wrap_line in_code_block l :: wrap_lines (fence_upd in_code_block l) rest
  end.

(** Lines that end with exactly one empty line behind a non-empty one, or
    are two empty lines: joined, they end in exactly one newline. *)
Definition one_final_blank (ls : list str) : Prop :=
  exists A a, ls = A ++ [a; []] /\ (a <> [] \/ A = []).

(** ** check-markdown.py, continued *)

(** [in_code_block] after the step of a line. *)
Definition toggled (in_code_block : bool) (line : str) : bool :=
  if startswith fence (rstrip_nl line) then negb in_code_block
  else in_code_block.

(** The line an issue is reported for; the end-of-file issues have none. *)
Definition issue_line (x : CheckMarkdown.issue) : option nat :=
  match x with
  | CheckMarkdown.MD040 i | CheckMarkdown.MD031_before i
  | CheckMarkdown.MD031_after i | CheckMarkdown.MD022_before i
  | CheckMarkdown.MD022_after i | CheckMarkdown.MD009 i _
  | CheckMarkdown.MD013 i _ | CheckMarkdown.MD034 i _ => Some i
  | CheckMarkdown.MD047_multiple | CheckMarkdown.MD047_missing => None
  end.

(** * Verification *)

(** ** The model at work *)

Example fix_markdown_sample :
  FixMarkdown.apply_fixes
    (document ["# Title"; "text  "; "```sh"; "ls"; "```"; "more"; "- a"; "- b";
               "end"; "## One"; "### Two"; "z"; ""; ""])
  = document ["# Title"; ""; "text"; ""; "```sh"; "ls"; "```"; ""; "more"; "";
              "- a"; "- b"; ""; "end"; ""; "## One"; "### Two"; ""; "z"].
Proof. vm_compute. reflexivity. Qed.

Example fix_markdown_v2_sample :
  FixMarkdownV2.apply_fixes
    (document ["# Title"; "see http://example.com/x now"; "```"; "ls"; "```";
               "more  "; "  "])
  = document ["# Title"; "see <http://example.com/x> now"; ""; "```text"; "ls";
              "```"; ""; "more"].
Proof. vm_compute. reflexivity. Qed.

Example check_markdown_sample :
  CheckMarkdown.check_file
    (document ["# A"; "# B"; "text "; "see http://example.com/x) and more"])
  = [CheckMarkdown.MD022_before 2; CheckMarkdown.MD022_after 2;
     CheckMarkdown.MD009 3 1;
     CheckMarkdown.MD034 4 (txt "http://example.com/")].
Proof. vm_compute. reflexivity. Qed.

Example fix_ansible_yaml_sample :
  FixAnsibleYaml.apply_fixes
    (document ["- name: install"; "  apt:"; "    name: '{{ pkg }}'";
               "    update_cache: yes  # refresh"; "  become: No "])
  = document ["- name: install"; "  ansible.builtin.apt:"; "    name: '{{pkg}}'";
              "    update_cache: true  # refresh"; "  become: false"].
Proof. vm_compute. reflexivity. Qed.

Example fix_jinja2_spacing_sample :
  FixJinja2Spacing.fix_jinja2_spacing (txt "a: '{{x|int}}' b: '{{ y }}'")
  = (txt "a: '{{ x|int }}' b: '{{ y }}'", true).
Proof. vm_compute. reflexivity. Qed.

(** ** Character classes *)

Ltac by_cases_on_char c :=
  destruct c as [[] [] [] [] [] [] [] []]; vm_compute; congruence.

Lemma isspace_not_word c : isspace c = true -> isword c = false.
Proof. by_cases_on_char c. Qed.

Lemma isspace_nl : isspace nl = true.
Proof. reflexivity. Qed.

Lemma is_nl_true c : is_nl c = true <-> c = nl.
Proof. unfold is_nl. apply Ascii.eqb_eq. Qed.

Lemma is_nl_false c : is_nl c = false <-> c <> nl.
Proof. unfold is_nl. apply Ascii.eqb_neq. Qed.

Lemma is_nl_space c : is_nl c = true -> isspace c = true.
Proof. intros ->%is_nl_true. reflexivity. Qed.

(** ** Stripping *)

Section Strip.
Variable p : ascii -> bool.

Lemma lstrip_with_all (ws : str) :
  Forall (fun c => p c = true) ws -> lstrip_with p ws = [].
Proof. induction 1 as [|c ws Hc _ IH]; simpl; [done|]. by rewrite Hc. Qed.

Lemma lstrip_with_app (ws s : str) :
  Forall (fun c => p c = true) ws -> lstrip_with p (ws ++ s) = lstrip_with p s.
Proof. induction 1 as [|c ws Hc _ IH]; simpl; [done|]. by rewrite Hc. Qed.

Lemma lstrip_with_stop (c : ascii) (s : str) :
  p c = false -> lstrip_with p (c :: s) = c :: s.
Proof. intros Hc. simpl. by rewrite Hc. Qed.

Lemma lstrip_with_suffix (s : str) : lstrip_with p s `suffix_of` s.
Proof.
  induction s as [|c s IH]; simpl; [done|].
  destruct (p c); [by apply suffix_cons_r|done].
Qed.

Lemma lstrip_with_idem (s : str) :
  lstrip_with p (lstrip_with p s) = lstrip_with p s.
Proof.
  induction s as [|c s IH]; simpl; [done|].
  destruct (p c) eqn:Hc; [done|]. simpl. by rewrite Hc.
Qed.

Lemma rstrip_with_nil : rstrip_with p [] = [].
Proof. reflexivity. Qed.

Lemma rstrip_with_app (s ws : str) :
  Forall (fun c => p c = true) ws -> rstrip_with p (s ++ ws) = rstrip_with p s.
Proof.
  intros Hws. unfold rstrip_with. rewrite reverse_app.
  rewrite lstrip_with_app; [done|]. by apply Forall_reverse.
Qed.

Lemma rstrip_with_snoc_stop (s : str) (c : ascii) :
  p c = false -> rstrip_with p (s ++ [c]) = s ++ [c].
Proof.
  intros Hc. unfold rstrip_with. rewrite reverse_snoc.
  rewrite lstrip_with_stop by done. by rewrite reverse_cons, reverse_involutive.
Qed.

Lemma rstrip_with_prefix (s : str) : rstrip_with p s `prefix_of` s.
Proof.
  unfold rstrip_with. rewrite <- (reverse_involutive s) at 2.
  apply suffix_prefix_reverse, lstrip_with_suffix.
Qed.

Lemma rstrip_with_idem (s : str) :
  rstrip_with p (rstrip_with p s) = rstrip_with p s.
Proof.
  unfold rstrip_with. by rewrite reverse_involutive, lstrip_with_idem.
Qed.

(** A string is its stripped part followed by the stripped characters. *)
Lemma rstrip_with_split (s : str) :
  exists ws, s = rstrip_with p s ++ ws /\ Forall (fun c => p c = true) ws.
Proof.
  induction s as [|c s IH] using rev_ind.
  - exists []. by rewrite rstrip_with_nil.
  - destruct (p c) eqn:Hc.
    + destruct IH as (ws & Hs & Hws). exists (ws ++ [c]). split.
      * rewrite rstrip_with_app by (by constructor).
        rewrite app_assoc. by rewrite <- Hs.
      * apply Forall_app. split; [done|]. by constructor.
    + exists []. rewrite rstrip_with_snoc_stop by done.
      split; [by rewrite app_nil_r|constructor].
Qed.

(** The stripped part does not end in a stripped character. *)
Lemma rstrip_with_last (s : str) (c : ascii) :
  last (rstrip_with p s) = Some c -> p c = false.
Proof.
  induction s as [|d s IH] using rev_ind.
  - by rewrite rstrip_with_nil.
  - destruct (p d) eqn:Hd.
    + rewrite rstrip_with_app by (by constructor). done.
    + rewrite rstrip_with_snoc_stop by done. rewrite last_snoc.
      by intros [= ->].
Qed.

Lemma rstrip_with_fixed (s : str) :
  (forall c, last s = Some c -> p c = false) -> rstrip_with p s = s.
Proof.
  destruct s as [|d s _] using rev_ind; [done|].
  intros H. apply rstrip_with_snoc_stop, H. by rewrite last_snoc.
Qed.

End Strip.

(** ** Splitting into lines and joining *)

Section SplitJoin.
Variable sep : ascii.

Lemma split_on_nonempty (s : str) : split_on sep s <> [].
Proof.
  destruct s as [|c t]; simpl; [done|].
  destruct (Ascii.eqb c sep); [done|]. by destruct (split_on sep t).
Qed.

Lemma split_on_cons_sep (t : str) :
  split_on sep (sep :: t) = [] :: split_on sep t.
Proof. simpl. by rewrite Ascii.eqb_refl. Qed.

Lemma split_on_cons_other (c : ascii) (t : str) :
  c <> sep ->
  exists l ls, split_on sep t = l :: ls /\ split_on sep (c :: t) = (c :: l) :: ls.
Proof.
  intros Hc%Ascii.eqb_neq. simpl. rewrite Hc.
  destruct (split_on sep t) as [|l ls] eqn:H.
  - by apply split_on_nonempty in H.
  - by exists l, ls.
Qed.

Lemma join_split (s : str) : join_with sep (split_on sep s) = s.
Proof.
  induction s as [|c t IH]; [done|].
  destruct (decide (c = sep)) as [->|Hc].
  - rewrite split_on_cons_sep. simpl.
    destruct (split_on sep t) eqn:H; [by apply split_on_nonempty in H|].
    by rewrite IH.
  - destruct (split_on_cons_other c t Hc) as (l & ls & Ht & ->).
    rewrite Ht in IH. simpl in *. destruct ls; simpl in *; by rewrite <- IH.
Qed.

Lemma split_no_sep (s : str) : Forall (fun l => sep ∉ l) (split_on sep s).
Proof.
  induction s as [|c t IH].
  - simpl. constructor; [apply not_elem_of_nil|constructor].
  - destruct (decide (c = sep)) as [->|Hc].
    + rewrite split_on_cons_sep. constructor; [apply not_elem_of_nil|done].
    + destruct (split_on_cons_other c t Hc) as (l & ls & Ht & ->).
      rewrite Ht in IH. apply Forall_cons in IH as [Hl Hls].
      constructor; [|done]. apply not_elem_of_cons. split; [congruence|done].
Qed.

Lemma split_line (l : str) : sep ∉ l -> split_on sep l = [l].
Proof.
  induction l as [|c l IH]; [done|].
  intros [Hc Hl]%not_elem_of_cons. simpl.
  apply not_eq_sym, Ascii.eqb_neq in Hc. rewrite Hc.
  by rewrite IH.
Qed.

Lemma split_app_sep (l t : str) :
  sep ∉ l -> split_on sep (l ++ sep :: t) = l :: split_on sep t.
Proof.
  induction l as [|c l IH]; intros Hl.
  - apply split_on_cons_sep.
  - apply not_elem_of_cons in Hl as [Hc Hl]. simpl.
    apply not_eq_sym, Ascii.eqb_neq in Hc. rewrite Hc.
    by rewrite IH.
Qed.

Lemma split_join (ls : list str) :
  ls <> [] -> Forall (fun l => sep ∉ l) ls ->
  split_on sep (join_with sep ls) = ls.
Proof.
  intros Hne Hls. induction Hls as [|l ls Hl Hls IH]; [done|].
  destruct ls as [|l' ls].
  - simpl. by apply split_line.
  - change (join_with sep (l :: l' :: ls)) with (l ++ sep :: join_with sep (l' :: ls)).
    rewrite split_app_sep by done. by rewrite IH.
Qed.

(** Splitting a text that ends in separators. *)
Lemma split_snoc_sep (s : str) :
  split_on sep (s ++ [sep]) = split_on sep s ++ [[]].
Proof.
  induction s as [|c t IH]; simpl.
  - by rewrite Ascii.eqb_refl.
  - destruct (Ascii.eqb c sep); [by rewrite IH|].
    rewrite IH. destruct (split_on sep t) eqn:H; [|done].
    by apply split_on_nonempty in H.
Qed.

Lemma split_app_seps (s : str) (k : nat) :
  split_on sep (s ++ replicate k sep) = split_on sep s ++ replicate k [].
Proof.
  induction k as [|k IH].
  - simpl. by rewrite !app_nil_r.
  - rewrite !replicate_S_end, !app_assoc, split_snoc_sep, IH. done.
Qed.

End SplitJoin.

Lemma split_lines_ok (content : str) : lines_ok (split_lines content).
Proof. split; [apply split_on_nonempty|apply split_no_sep]. Qed.

Lemma split_join_lines (ls : list str) :
  lines_ok ls -> split_lines (join_lines ls) = ls.
Proof. intros [? ?]. by apply split_join. Qed.

Lemma rstrip_lines_ok (ls : list str) : lines_ok ls -> lines_ok (map rstrip ls).
Proof.
  intros [Hne Hls]. split; [by destruct ls|].
  clear Hne. induction Hls as [|l ls Hl _ IH]; simpl; constructor; [|done].
  intros Hin. apply Hl.
  destruct (rstrip_with_prefix isspace l) as [k Hk]. rewrite Hk.
  apply elem_of_app. by left.
Qed.

Lemma map_no_nl_ok (f : str -> str) (ls : list str) :
  (forall l, nl ∉ l -> nl ∉ f l) -> lines_ok ls -> lines_ok (map f ls).
Proof.
  intros Hf [Hne Hls]. split; [by destruct ls|].
  clear Hne. induction Hls; simpl; constructor; auto.
Qed.

(** ** The matcher *)

Section Matcher.
Context {R : Type}.
Implicit Types (k : cont R) (p : ascii -> bool) (b a s : str) (g : caps).

Lemma orelse_none_r (x : option R) : orelse x None = x.
Proof. by destruct x. Qed.

Lemma lit_app s k b a g : lit s k b (s ++ a) g = k (reverse s ++ b) a g.
Proof.
  revert b. induction s as [|c s IH]; intros b; simpl; [done|].
  rewrite Ascii.eqb_refl, IH. by rewrite reverse_cons, <- app_assoc.
Qed.

Lemma lit_inv s k b a g x :
  lit s k b a g = Some x ->
  exists a', a = s ++ a' /\ k (reverse s ++ b) a' g = Some x.
Proof.
  revert b a. induction s as [|c s IH]; intros b a; simpl.
  - intros H. by exists a.
  - destruct a as [|c' a]; [done|].
    destruct (Ascii.eqb c c') eqn:Hc; [|done].
    apply Ascii.eqb_eq in Hc as <-.
    intros (a' & -> & H)%IH. exists a'. split; [done|].
    by rewrite reverse_cons, <- app_assoc.
Qed.

Lemma lit_mismatch s k b c c' a g :
  c <> c' -> lit (c :: s) k b (c' :: a) g = None.
Proof. intros H%Ascii.eqb_neq. simpl. by rewrite H. Qed.

Lemma one_inv p k b a g x :
  one p k b a g = Some x ->
  exists c a', a = c :: a' /\ p c = true /\ k (c :: b) a' g = Some x.
Proof.
  unfold one. destruct a as [|c a]; [done|].
  destruct (p c) eqn:Hc; [|done]. intros H. by exists c, a.
Qed.

(** Where a greedy repetition ends, the continuation succeeded. *)
Lemma star_inv p k b a g x :
  star p k b a g = Some x ->
  exists a1 a2, a = a1 ++ a2 /\ Forall (fun c => p c = true) a1 /\
    k (reverse a1 ++ b) a2 g = Some x.
Proof.
  revert b. induction a as [|c a IH]; intros b; simpl.
  - intros H. by exists [], [].
  - destruct (p c) eqn:Hc.
    + destruct (star p k (c :: b) a g) eqn:Hs; simpl.
      * intros [= ->]. apply IH in Hs as (a1 & a2 & -> & Ha1 & Hk).
        exists (c :: a1), a2. split; [done|]. split; [by constructor|].
        by rewrite reverse_cons, <- app_assoc.
      * intros H. by exists [], (c :: a).
    + intros H. by exists [], (c :: a).
Qed.

Lemma star_lazy_inv p k b a g x :
  star_lazy p k b a g = Some x ->
  exists a1 a2, a = a1 ++ a2 /\ Forall (fun c => p c = true) a1 /\
    k (reverse a1 ++ b) a2 g = Some x.
Proof.
  revert b. induction a as [|c a IH]; intros b; simpl.
  - destruct (k b [] g) eqn:Hk; simpl; [|done].
    intros [= ->]. by exists [], [].
  - destruct (k b (c :: a) g) eqn:Hk; simpl.
    + intros [= ->]. by exists [], (c :: a).
    + destruct (p c) eqn:Hc; [|done].
      intros (a1 & a2 & -> & Ha1 & H)%IH.
      exists (c :: a1), a2. split; [done|]. split; [by constructor|].
      by rewrite reverse_cons, <- app_assoc.
Qed.

(** A greedy repetition over a maximal run: when the continuation cannot
    start with a character of the class, the only split is after the run. *)
Lemma star_exact p k b ws rest g :
  Forall (fun c => p c = true) ws ->
  (forall c, head rest = Some c -> p c = false) ->
  (forall c t b', p c = true -> k b' (c :: t) g = None) ->
  star p k b (ws ++ rest) g = k (reverse ws ++ b) rest g.
Proof.
  intros Hws Hrest Hk. revert b.
  induction Hws as [|w ws Hw _ IH]; intros b.
  - destruct rest as [|c t]; simpl; [done|].
    by rewrite (Hrest c eq_refl).
  - simpl. rewrite Hw, IH, (Hk w _ b Hw), orelse_none_r.
    by rewrite reverse_cons, <- app_assoc.
Qed.

(** A greedy repetition takes the whole run when the continuation then
    succeeds. *)
Lemma star_greedy p k b ws rest g x :
  Forall (fun c => p c = true) ws ->
  (forall c, head rest = Some c -> p c = false) ->
  k (reverse ws ++ b) rest g = Some x ->
  star p k b (ws ++ rest) g = Some x.
Proof.
  intros Hws Hrest. revert b.
  induction Hws as [|w ws Hw _ IH]; intros b Hk.
  - destruct rest as [|c t]; simpl; [done|].
    by rewrite (Hrest c eq_refl).
  - simpl. rewrite Hw, IH; [done|].
    by rewrite reverse_cons, <- app_assoc in Hk.
Qed.

(** A lazy repetition stops at the first split the continuation accepts. *)
Lemma star_lazy_first p k b a1 a2 g x :
  Forall (fun c => p c = true) a1 ->
  (forall u v, a1 = u ++ v -> v <> [] -> k (reverse u ++ b) (v ++ a2) g = None) ->
  k (reverse a1 ++ b) a2 g = Some x ->
  star_lazy p k b (a1 ++ a2) g = Some x.
Proof.
  intros Ha1. revert b.
  induction Ha1 as [|c a1 Hc _ IH]; intros b Hfail Hk.
  - destruct a2; simpl in *; by rewrite Hk.
  - pose proof (Hfail [] (c :: a1) eq_refl ltac:(done)) as H0.
    simpl in H0. simpl. rewrite H0. simpl. rewrite Hc.
    apply IH.
    + intros u v -> Hv. specialize (Hfail (c :: u) v eq_refl Hv).
      by rewrite reverse_cons, <- app_assoc in Hfail.
    + by rewrite reverse_cons, <- app_assoc in Hk.
Qed.

End Matcher.

Lemma take_matched {A} (m a : list A) :
  take (length (m ++ a) - length a) (m ++ a) = m.
Proof.
  rewrite length_app. replace (length m + length a - length a) with (length m) by lia.
  by rewrite take_app_length.
Qed.

Lemma take_matched_eq {A} (l m a : list A) :
  l = m ++ a -> take (length l - length a) l = m.
Proof. intros ->. apply take_matched. Qed.

(** ** What a match consumed *)

Section MatcherInversion.
Context {R : Type}.
Implicit Types (k : cont R) (b a : str) (g : caps).

(** A successful run of a pattern without groups consumed some text [m] and
    handed the rest over to the continuation, with the same captures. *)
Lemma run_inv r : nogroup r = true ->
  forall k b a g x, run r k b a g = Some x ->
  exists m a', a = m ++ a' /\ k (reverse m ++ b) a' g = Some x.
Proof.
  induction r as [| |p|s|r1 IH1 r2 IH2|r1 IH1 r2 IH2|r1 IH1|p|p|p|n r1 IH1|p|p|];
    intros Hr k b a g x; cbn [run]; try done.
  - destruct b; [|done]. intros H. by exists [], a.
  - intros H. exists [], a. split; [done|].
    destruct a as [|c [|]]; [done| |done]. by destruct (is_nl c).
  - intros (c & a' & -> & _ & H)%one_inv. by exists [c], a'.
  - intros (a' & -> & H)%lit_inv. by exists s, a'.
  - apply andb_true_iff in Hr as [Hr1 Hr2].
    intros (m1 & a1 & -> & H)%(IH1 Hr1). apply (IH2 Hr2) in H as (m2 & a2 & -> & H).
    exists (m1 ++ m2), a2. split; [by rewrite app_assoc|].
    by rewrite reverse_app, <- app_assoc.
  - apply andb_true_iff in Hr as [Hr1 Hr2]. unfold orelse.
    destruct (run r1 k b a g) eqn:H1.
    + intros [= ->]. by apply (IH1 Hr1) in H1.
    + by intros H%(IH2 Hr2).
  - unfold orelse. destruct (run r1 k b a g) eqn:H1.
    + intros [= ->]. by apply (IH1 Hr) in H1.
    + intros H. by exists [], a.
  - intros (a1 & a2 & -> & _ & H)%star_inv. by exists a1, a2.
  - intros (c & a' & -> & _ & H)%one_inv.
    apply star_inv in H as (a1 & a2 & -> & _ & H).
    exists (c :: a1), a2. split; [done|].
    by rewrite reverse_cons, <- app_assoc.
  - intros (c & a' & -> & _ & H)%one_inv.
    apply star_lazy_inv in H as (a1 & a2 & -> & _ & H).
    exists (c :: a1), a2. split; [done|].
    by rewrite reverse_cons, <- app_assoc.
  - intros H. exists [], a. split; [done|].
    destruct b as [|c b]; [done|]. by destruct (p c).
  - intros H. exists [], a. split; [done|].
    destruct a as [|c a]; [done|]. by destruct (p c).
  - intros H. exists [], a. split; [done|]. by destruct (xorb _ _).
Qed.

(** A group without inner groups captures the text it consumed. *)
Lemma group_inv n r k b a g x : nogroup r = true ->
  run (Group n r) k b a g = Some x ->
  exists m a', a = m ++ a' /\ k (reverse m ++ b) a' ((n, m) :: g) = Some x.
Proof.
  intros Hr. cbn [run]. intros (m & a' & -> & H)%(run_inv r Hr).
  rewrite take_matched in H. by exists m, a'.
Qed.

End MatcherInversion.

(** ** Substitution *)

Section ContextFree.
Context {R : Type}.
Implicit Types (k : cont R) (b a : str) (g : caps).

Lemma lit_agree s k k' : agree k k' -> agree (lit s k) (lit s k').
Proof.
  intros Hk b b' a g. revert b b' a.
  induction s as [|c s IH]; intros b b' a; simpl; [apply Hk|].
  destruct a as [|c' a]; [done|]. destruct (Ascii.eqb c c'); [apply IH|done].
Qed.

Lemma star_agree p k k' : agree k k' -> agree (star p k) (star p k').
Proof.
  intros Hk b b' a g. revert b b'.
  induction a as [|c a IH]; intros b b'; simpl; [apply Hk|].
  destruct (p c); [|apply Hk]. by rewrite (IH (c :: b) (c :: b')), (Hk b b').
Qed.

Lemma star_lazy_agree p k k' : agree k k' -> agree (star_lazy p k) (star_lazy p k').
Proof.
  intros Hk b b' a g. revert b b'.
  induction a as [|c a IH]; intros b b'; simpl; rewrite (Hk b b'); [done|].
  destruct (p c); [|done]. by rewrite (IH (c :: b) (c :: b')).
Qed.

Lemma one_agree p k k' : agree k k' -> agree (one p k) (one p k').
Proof.
  intros Hk b b' a g. unfold one. destruct a as [|c a]; [done|].
  destruct (p c); [apply Hk|done].
Qed.

Lemma run_agree r : ctxfree r = true ->
  forall k k', agree k k' -> agree (run r k) (run r k').
Proof.
  induction r as [| |p|s|r1 IH1 r2 IH2|r1 IH1 r2 IH2|r1 IH1|p|p|p|n r1 IH1|p|p|];
    intros Hr k k' Hk; try done.
  - intros b b' a g. cbn [run]. destruct a as [|c [|]]; [apply Hk| |done].
    destruct (is_nl c); [apply Hk|done].
  - by apply one_agree.
  - by apply lit_agree.
  - apply andb_true_iff in Hr as [Hr1 Hr2]. intros b b' a g. cbn [run].
    apply IH1; [done|]. by apply IH2.
  - apply andb_true_iff in Hr as [Hr1 Hr2]. intros b b' a g. cbn [run].
    by rewrite (IH1 Hr1 k k' Hk b b'), (IH2 Hr2 k k' Hk b b').
  - intros b b' a g. cbn [run]. by rewrite (IH1 Hr k k' Hk b b'), (Hk b b').
  - by apply star_agree.
  - intros b b' a g. cbn [run]. by apply one_agree, star_agree.
  - intros b b' a g. cbn [run]. by apply one_agree, star_lazy_agree.
  - intros b b' a g. cbn [run]. apply IH1; [done|].
    intros b1 b2 a1 g1. apply Hk.
  - intros b b' a g. cbn [run]. destruct a as [|c a]; [apply Hk|].
    destruct (p c); [done|apply Hk].
Qed.

End ContextFree.

Section Substitution.
Variable r : regex.
Variable repl : match_obj -> str -> str.

Lemma match_at_ctxfree b b' a :
  ctxfree r = true -> match_at r b a = match_at r b' a.
Proof. intros Hr. unfold match_at. by apply run_agree. Qed.

Lemma sub_from_ctxfree skip b b' a :
  ctxfree r = true -> sub_from r repl skip b a = sub_from r repl skip b' a.
Proof.
  intros Hr. revert skip b b'.
  induction a as [|c a IH]; intros skip b b'.
  - destruct skip; simpl; [|done]. by rewrite (match_at_ctxfree b b').
  - destruct skip; simpl.
    + rewrite (match_at_ctxfree b b') by done.
      destruct (match_at r b' (c :: a)); f_equal; apply IH.
    + apply IH.
Qed.

Lemma sub_from_skip m b a :
  sub_from r repl (length m) b (m ++ a) = sub_from r repl 0 (reverse m ++ b) a.
Proof.
  revert b. induction m as [|c m IH]; intros b; simpl.
  - by destruct a.
  - rewrite IH. by rewrite reverse_cons, <- app_assoc.
Qed.

(** After a match the scan goes on behind it. *)
Lemma sub_from_match m b a mo :
  m <> [] -> match_at r b (m ++ a) = Some mo -> rest mo = a ->
  sub_from r repl 0 b (m ++ a)
  = repl mo m ++ sub_from r repl 0 (reverse m ++ b) a.
Proof.
  intros Hm Hmatch Hrest. destruct m as [|c m]; [done|].
  cbn [sub_from app]. change (c :: m ++ a) with ((c :: m) ++ a).
  rewrite Hmatch, Hrest, take_matched. f_equal.
  cbn [length]. replace (S (length m) - 1) with (length m) by lia.
  rewrite sub_from_skip.
  by rewrite reverse_cons, <- app_assoc.
Qed.

(** Text in which no match can start is copied. *)
Lemma sub_from_copy pre b a :
  Forall (fun c => forall b' t, match_at r b' (c :: t) = None) pre ->
  sub_from r repl 0 b (pre ++ a) = pre ++ sub_from r repl 0 (reverse pre ++ b) a.
Proof.
  intros Hpre. revert b. induction Hpre as [|c pre Hc _ IH]; intros b; [done|].
  cbn [sub_from app]. rewrite Hc, IH. by rewrite reverse_cons, <- app_assoc.
Qed.

End Substitution.

(** ** The checker's scan (check-markdown.py) *)

Section CheckFile.
Import CheckMarkdown.

Lemma enumerate_from_app {A} (l1 l2 : list A) (start : nat) :
  enumerate_from start (l1 ++ l2)
  = enumerate_from start l1 ++ enumerate_from (start + length l1) l2.
Proof.
  revert start. induction l1 as [|x l1 IH]; intros start; simpl.
  - by rewrite Nat.add_0_r.
  - rewrite IH. do 3 f_equal. lia.
Qed.

Lemma emit_app c x (l l' : list issue) : emit c x (l ++ l') = l ++ emit c x l'.
Proof. unfold emit. destruct c; [by rewrite app_assoc|done]. Qed.

Lemma elem_of_emit c x y (l : list issue) :
  y ∈ emit c x l <-> y ∈ l \/ (c = true /\ y = x).
Proof.
  unfold emit. destruct c.
  - rewrite elem_of_app, list_elem_of_singleton. intuition congruence.
  - intuition congruence.
Qed.

Lemma check_fence_app lines i lr prev (l l' : list issue) icb :
  check_fence lines i lr prev (l ++ l', icb)
  = (l ++ (check_fence lines i lr prev (l', icb)).1,
     (check_fence lines i lr prev (l', icb)).2).
Proof.
  unfold check_fence. destruct (startswith fence lr); [|done].
  cbn [fst snd]. by rewrite !emit_app.
Qed.

Lemma check_heading_app lines i lr prev (l l' : list issue) :
  check_heading lines i lr prev (l ++ l') = l ++ check_heading lines i lr prev l'.
Proof.
  unfold check_heading. destruct (is_heading _); [|done]. by rewrite !emit_app.
Qed.

Lemma check_trailing_app i lr (l l' : list issue) :
  check_trailing i lr (l ++ l') = l ++ check_trailing i lr l'.
Proof.
  unfold check_trailing. destruct (negb _); [|done]. by rewrite !emit_app.
Qed.

Lemma check_length_app i lr icb (l l' : list issue) :
  check_length i lr icb (l ++ l') = l ++ check_length i lr icb l'.
Proof. unfold check_length. by rewrite emit_app. Qed.

Lemma check_urls_app i line icb (l l' : list issue) :
  check_urls i line icb (l ++ l') = l ++ check_urls i line icb l'.
Proof. unfold check_urls. destruct (negb icb); [by rewrite app_assoc|done]. Qed.

(** The issues a step adds depend on the state only through
    [in_code_block] and [prev_line]. *)
Lemma check_step_issues lines st il :
  issues (check_step lines st il)
  = issues st ++ issues (check_step lines (fresh st) il).
Proof.
  destruct st as [iss icb prev], il as [i line]. unfold check_step, fresh.
  cbn [issues in_code_block prev_line].
  rewrite <- (app_nil_r iss) at 1. rewrite check_fence_app.
  destruct (check_fence lines i (rstrip_nl line) prev ([], icb)) as [l' icb'].
  cbn [fst snd issues].
  by rewrite check_heading_app, check_trailing_app, check_length_app,
    check_urls_app.
Qed.

Lemma scan_before_S lines j line :
  lines !! j = Some line ->
  scan_before lines (S j) = check_step lines (scan_before lines j) (S j, line).
Proof.
  intros Hj. unfold scan_before.
  rewrite (take_S_r _ _ _ Hj), enumerate_from_app, foldl_app. simpl.
  rewrite length_take_le; [done|]. apply lookup_lt_Some in Hj. lia.
Qed.

Lemma scan_before_all lines :
  scan_before lines (length lines)
  = foldl (check_step lines) (Scan [] false []) (enumerate_from 1 lines).
Proof. unfold scan_before. by rewrite firstn_all. Qed.

(** Every issue of the scan was added by the step of some line. *)
Lemma elem_of_scan_issues lines n x :
  n <= length lines ->
  x ∈ issues (scan_before lines n) <->
  exists j line, j < n /\ lines !! j = Some line /\
    x ∈ issues (check_step lines (fresh (scan_before lines j)) (S j, line)).
Proof.
  induction n as [|n IH]; intros Hn.
  - unfold scan_before. simpl. split.
    + intros H. by apply elem_of_nil in H.
    + intros (j & _ & Hj & _). lia.
  - destruct (lookup_lt_is_Some_2 lines n) as [line Hline]; [lia|].
    rewrite (scan_before_S _ _ _ Hline), check_step_issues, elem_of_app.
    rewrite IH by lia. split.
    + intros [(j & l & Hj & Hl & Hx)|Hx].
      * exists j, l. split; [lia|done].
      * exists n, line. split; [lia|done].
    + intros (j & l & Hj & Hl & Hx).
      destruct (decide (j = n)) as [->|Hne].
      * right. congruence.
      * left. exists j, l. split; [lia|done].
Qed.

Lemma elem_of_check_lines lines x :
  x <> MD047_multiple -> x <> MD047_missing ->
  x ∈ check_lines lines <-> x ∈ issues (scan_before lines (length lines)).
Proof.
  intros H1 H2. unfold check_lines. rewrite <- scan_before_all.
  repeat case_match; rewrite ?elem_of_app, ?list_elem_of_singleton;
    intuition congruence.
Qed.

(** The issues of one step carry the number of its line. *)
Lemma not_elem_of_urls x i (urls : list str) :
  (forall u, x <> MD034 i u) -> x ∉ map (fun url => MD034 i (take 50 url)) urls.
Proof.
  intros Hx. induction urls as [|u urls IH]; simpl.
  - apply not_elem_of_nil.
  - apply not_elem_of_cons. split; [apply Hx|done].
Qed.

Lemma elem_of_check_urls x i line icb l :
  (forall u, x <> MD034 i u) -> x ∈ check_urls i line icb l <-> x ∈ l.
Proof.
  intros Hx. unfold check_urls. destruct (negb icb); [|done].
  rewrite elem_of_app. pose proof (not_elem_of_urls x i (findall url_pattern line) Hx).
  tauto.
Qed.

Lemma trailing_issue_of_step lines icb prev i line n k :
  MD009 n k ∈ issues (check_step lines (Scan [] icb prev) (i, line)) <->
  n = i /\ k = length (rstrip_nl line) - length (rstrip (rstrip_nl line)) /\
  rstrip_nl line <> rstrip (rstrip_nl line) /\ k <> 2.
Proof.
  unfold check_step. cbn [issues in_code_block prev_line].
  destruct (check_fence _ _ _ _ _) as [l icb'] eqn:Hf.
  assert (Hl : MD009 n k ∉ l).
  { unfold check_fence in Hf. destruct (startswith fence _).
    - injection Hf as <- _. rewrite !elem_of_emit.
      intros [[[[]%elem_of_nil|[_ [=]]]|[_ [=]]]|[_ [=]]].
    - injection Hf as <- _. apply not_elem_of_nil. }
  cbn [issues]. rewrite elem_of_check_urls by done.
  unfold check_length. rewrite elem_of_emit.
  unfold check_trailing, check_heading.
  set (spaces := length (rstrip_nl line) - length (rstrip (rstrip_nl line))).
  assert (Hh : forall c1 c2, MD009 n k ∉
    emit c2 (MD022_after i) (emit c1 (MD022_before i) l)).
  { intros c1 c2. rewrite !elem_of_emit. intros [[?|[_ [=]]]|[_ [=]]]. done. }
  destruct (bool_decide (rstrip_nl line = rstrip (rstrip_nl line))) eqn:Heq.
  - apply bool_decide_eq_true in Heq. cbn [negb].
    destruct (is_heading _).
    + specialize (Hh ((1 <? i) && nonblank prev)
        ((i <? length lines) && nonblank (line_after lines i)
           && negb (startswith (txt "#") (line_after lines i)))).
      split; [intros [?|[_ [=]]]; done|tauto].
    + split; [intros [?|[_ [=]]]; done|tauto].
  - apply bool_decide_eq_false in Heq. cbn [negb]. rewrite elem_of_emit.
    rewrite negb_true_iff, bool_decide_eq_false, list_elem_of_singleton.
    destruct (is_heading _).
    + specialize (Hh ((1 <? i) && nonblank prev)
        ((i <? length lines) && nonblank (line_after lines i)
           && negb (startswith (txt "#") (line_after lines i)))).
      split.
      * intros [[?|[Hs [= -> ->]]]|[_ [=]]]; [done|]. fold spaces. done.
      * intros (-> & -> & _ & Hk). left. right. done.
    + split.
      * intros [[?|[Hs [= -> ->]]]|[_ [=]]]; [done|]. fold spaces. done.
      * intros (-> & -> & _ & Hk). left. right. done.
Qed.

Lemma heading_after_issue_of_step lines icb prev i line n :
  MD022_after n ∈ issues (check_step lines (Scan [] icb prev) (i, line)) ->
  n = i /\ startswith (txt "#") (line_after lines i) = false.
Proof.
  unfold check_step. cbn [issues in_code_block prev_line].
  destruct (check_fence _ _ _ _ _) as [l icb'] eqn:Hf.
  assert (Hl : MD022_after n ∉ l).
  { unfold check_fence in Hf. destruct (startswith fence _).
    - injection Hf as <- _. rewrite !elem_of_emit.
      intros [[[[]%elem_of_nil|[_ [=]]]|[_ [=]]]|[_ [=]]].
    - injection Hf as <- _. apply not_elem_of_nil. }
  cbn [issues]. rewrite elem_of_check_urls by done.
  unfold check_length. rewrite elem_of_emit.
  intros [H|[_ [=]]]. revert H.
  unfold check_trailing.
  assert (Hh : MD022_after n ∈ check_heading lines i (rstrip_nl line) prev l ->
    n = i /\ startswith (txt "#") (line_after lines i) = false).
  { unfold check_heading. destruct (is_heading _); [|done].
    rewrite !elem_of_emit. intros [[?|[_ [=]]]|[Hc [= ->]]]; [done|].
    apply andb_true_iff in Hc as [_ Hc]. by apply negb_true_iff in Hc. }
  destruct (negb _); [|done]. rewrite elem_of_emit. intros [?|[_ [=]]]. auto.
Qed.

Lemma fence_after_issue_of_step lines icb prev i line n :
  MD031_after n ∈ issues (check_step lines (Scan [] icb prev) (i, line)) ->
  n = i /\ icb = false.
Proof.
  unfold check_step. cbn [issues in_code_block prev_line].
  destruct (check_fence _ _ _ _ _) as [l icb'] eqn:Hf.
  assert (Hl : MD031_after n ∈ l -> n = i /\ icb = false).
  { unfold check_fence in Hf. destruct (startswith fence _).
    - injection Hf as <- _. rewrite !elem_of_emit.
      intros [[[[]%elem_of_nil|[_ [=]]]|[_ [=]]]|[Hc [= ->]]].
      apply andb_true_iff in Hc as [Hc _]. apply andb_true_iff in Hc as [Hc _].
      by apply negb_true_iff in Hc.
    - injection Hf as <- _. by intros ?%elem_of_nil. }
  cbn [issues]. rewrite elem_of_check_urls by done.
  unfold check_length. rewrite elem_of_emit.
  intros [H|[_ [=]]]. revert H.
  unfold check_trailing.
  assert (Hh : MD031_after n ∈ check_heading lines i (rstrip_nl line) prev l ->
    n = i /\ icb = false).
  { unfold check_heading. destruct (is_heading _); [|done].
    rewrite !elem_of_emit. intros [[?|[_ [=]]]|[_ [=]]]. auto. }
  destruct (negb _); [|done]. rewrite elem_of_emit. intros [?|[_ [=]]]. auto.
Qed.

Lemma startswith_app (pre s t : str) :
  startswith pre s = true -> startswith pre (s ++ t) = true.
Proof.
  revert s. induction pre as [|p pre IH]; intros [|c s]; simpl; try done.
  intros [-> H]%andb_true_iff. by rewrite IH.
Qed.

Lemma startswith_rstrip_nl (pre s : str) :
  startswith pre (rstrip_nl s) = true -> startswith pre s = true.
Proof.
  intros H. destruct (rstrip_with_prefix is_nl s) as [k Hk].
  rewrite Hk. by apply startswith_app.
Qed.

Lemma line_after_lookup (lines : list str) (i : nat) (l : str) :
  lines !! i = Some l -> line_after lines i = l.
Proof.
  intros H. unfold line_after. rewrite H.
  apply lookup_lt_Some in H. apply Nat.ltb_lt in H. by rewrite H.
Qed.

Lemma trailing_issue_of_file (content : str) (j : nat) (line : str) (k : nat) :
  readlines content !! j = Some line ->
  MD009 (S j) k ∈ check_file content <->
  k = length (rstrip_nl line) - length (rstrip (rstrip_nl line)) /\
  rstrip_nl line <> rstrip (rstrip_nl line) /\ k <> 2.
Proof.
  intros Hj. unfold check_file. rewrite elem_of_check_lines by done.
  rewrite elem_of_scan_issues by done. split.
  - intros (j' & l & _ & Hl & Hx). apply trailing_issue_of_step in Hx.
    destruct Hx as ([= <-] & Hx). by simplify_eq.
  - intros H. exists j, line. split; [by eapply lookup_lt_Some|].
    split; [done|]. apply trailing_issue_of_step. done.
Qed.

Lemma rstrip_body_spaces (body : str) (n : nat) :
  (forall c, last body = Some c -> isspace c = false) ->
  rstrip (body ++ replicate n sp) = body.
Proof.
  intros Hbody. unfold rstrip. rewrite rstrip_with_app.
  - by apply rstrip_with_fixed.
  - clear. induction n; simpl; constructor; done.
Qed.

(** C5, as amended.  The checker counts trailing whitespace of any kind.  A
    line whose trailing whitespace is exactly two space characters is never
    flagged, and a line whose trailing whitespace consists of exactly one,
    or of three or more, space characters is always flagged (with that
    count). *)
Theorem trailing_spaces_flagged (content : str) (j : nat) (line body : str)
    (n : nat) :
  readlines content !! j = Some line ->
  rstrip_nl line = body ++ replicate n sp ->
  (forall c, last body = Some c -> isspace c = false) ->
  (n = 2 -> forall k, MD009 (S j) k ∉ check_file content) /\
  (n = 1 \/ 3 <= n -> MD009 (S j) n ∈ check_file content).
Proof.
  intros Hj Hline Hbody.
  pose proof (fun k => trailing_issue_of_file content j line k Hj) as Hiff.
  rewrite Hline, (rstrip_body_spaces body n Hbody) in Hiff.
  rewrite length_app, length_replicate in Hiff. split.
  - intros -> k Hk. apply Hiff in Hk. lia.
  - intros Hn. apply Hiff. split; [lia|]. split; [|lia].
    intros Heq. apply (f_equal length) in Heq.
    rewrite length_app, length_replicate in Heq. lia.
Qed.

Lemma trailing_spaces_flagged_witness :
  MD009 1 1 ∈ check_file (document ["ab "]).
Proof.
  apply (proj2 (trailing_spaces_flagged (document ["ab "]) 0
                  (txt "ab " ++ [nl]) (txt "ab") 1 eq_refl eq_refl
                  ltac:(intros c [= <-]; reflexivity))).
  left. reflexivity.
Defined.

(** C5, as stated, fails: a line that ends in a tab followed by exactly one
    space character has two characters of trailing whitespace and is not
    flagged. *)
Lemma one_trailing_space_after_tab_not_flagged :
  let line := txt "a" ++ [tab; sp] in
  let content := line ++ [nl] in
  readlines content !! 0 = Some (line ++ [nl]) /\
  rstrip_nl (line ++ [nl]) = (txt "a" ++ [tab]) ++ replicate 1 sp /\
  last (txt "a" ++ [tab]) <> Some sp /\
  forall k, MD009 1 k ∉ check_file content.
Proof.
  split; [reflexivity|]. split; [reflexivity|]. split; [discriminate|].
  intros k. vm_compute. apply not_elem_of_nil.
Qed.

(** C7: a heading line that is immediately followed by another heading line
    never gets the issue of a missing blank line after a heading. *)
Theorem heading_then_heading_not_flagged (content : str) (j : nat)
    (line next : str) :
  readlines content !! j = Some line ->
  readlines content !! (S j) = Some next ->
  is_heading (rstrip_nl line) = true ->
  is_heading (rstrip_nl next) = true ->
  MD022_after (S j) ∉ check_file content.
Proof.
  intros Hj Hnext _ Hh. unfold check_file.
  rewrite elem_of_check_lines by done. rewrite elem_of_scan_issues by done.
  intros (j' & l & _ & Hl & Hx).
  apply heading_after_issue_of_step in Hx as [[= <-] Hx].
  rewrite (line_after_lookup _ _ _ Hnext) in Hx.
  apply andb_true_iff in Hh as [Hh _].
  apply startswith_rstrip_nl in Hh. congruence.
Qed.

Lemma heading_then_heading_not_flagged_witness :
  MD022_after 1 ∉ check_file (document ["# A"; "# B"; "text"]).
Proof.
  apply (heading_then_heading_not_flagged (document ["# A"; "# B"; "text"]) 0
           (txt "# A" ++ [nl]) (txt "# B" ++ [nl]));
    reflexivity.
Defined.

(** A fence line that closes a code block never gets the issue of a missing
    blank line after a fence: the check looks at [in_code_block] after the
    toggle, so it is made for the fences that open a block. *)
Lemma closing_fence_never_flagged_after (content : str) (j : nat) :
  in_code_block (scan_before (readlines content) j) = true ->
  MD031_after (S j) ∉ check_file content.
Proof.
  intros Hin. unfold check_file.
  rewrite elem_of_check_lines by done. rewrite elem_of_scan_issues by done.
  intros (j' & l & _ & Hl & Hx).
  apply fence_after_issue_of_step in Hx as [[= <-] Hx].
  unfold fresh in Hx. cbn [in_code_block] in Hx. congruence.
Qed.

(** C2: the closing fence of line 3 is followed by text.  Fix mode inserts
    the blank line after it, but check mode reports the missing blank line
    after a fence for the opening fence of line 1 only; and when the closing
    fence is not the bare delimiter and follows a blank line, check mode
    reports nothing at all. *)
Theorem closing_fence_without_blank_line_not_flagged :
  check_file (document ["```python"; "code"; "```"; "text"])
  = [MD031_after 1; MD040 3; MD031_before 3]
  /\ check_file (document ["````"; ""; "````"; "text"]) = []
  /\ FixMarkdown.fix_blank_lines_around_fences
       (document ["````"; ""; "````"; "text"])
     = document ["````"; ""; "````"; ""; "text"].
Proof. repeat split; vm_compute; reflexivity. Qed.


End CheckFile.

(** From here on the string predicates are not unfolded by [simpl]. *)
Arguments startswith : simpl never.
Arguments nonblank : simpl never.
Arguments contains : simpl never.
Arguments last_nonempty : simpl never.
Arguments FixMarkdown.starts_hash : simpl never.
Arguments FixMarkdown.is_fence : simpl never.
Arguments FixMarkdown.is_list_line : simpl never.

(** ** The loops of fix-ansible-yaml.py *)

Section RewriteLoop.
Import FixAnsibleYaml.

Variable entry_step : nat -> str -> loop_state -> str * str -> loop_state.
Variable rewrite_entry : str -> str -> str * str -> str.
Variable entries : list (str * str).
Hypothesis entry_step_spec : forall i line (st : loop_state) e cur,
  st.1 !! i = Some cur ->
  (entry_step i line st e).1 = <[i := rewrite_entry line cur e]> st.1.

Lemma entries_loop i line (es : list (str * str)) :
  forall (st : loop_state) cur, st.1 !! i = Some cur ->
  (foldl (entry_step i line) st es).1
  = <[i := foldl (rewrite_entry line) cur es]> st.1.
Proof.
  induction es as [|e es IH]; intros st cur Hcur; simpl.
  - by rewrite list_insert_id.
  - pose proof (entry_step_spec i line st e cur Hcur) as Hstep.
    rewrite (IH _ (rewrite_entry line cur e)).
    + by rewrite Hstep, list_insert_insert_eq.
    + rewrite Hstep. apply list_lookup_insert_eq. by eapply lookup_lt_Some.
Qed.

Lemma lines_loop (todo : list str) :
  forall (seen : list str) (m : bool),
  (foldl (fun (st : loop_state) i =>
            match st.1 !! i with
            | Some line => foldl (entry_step i line) st entries
            | None => st
            end)
     (seen ++ todo, m) (seq (length seen) (length todo))).1
  = seen ++ map (fun line => foldl (rewrite_entry line) line entries) todo.
Proof.
  induction todo as [|line todo IH]; intros seen m; [done|].
  cbn [length seq foldl map fst].
  rewrite list_lookup_middle by done.
  match goal with |- context [foldl (entry_step ?i line) ?st entries] =>
    pose proof (entries_loop i line entries st line) as Hin;
    destruct (foldl (entry_step i line) st entries) as [ls' m'] end.
  cbn [fst] in Hin. rewrite list_lookup_middle in Hin by done.
  specialize (Hin eq_refl).
  rewrite insert_app_r_alt, Nat.sub_diag in Hin by lia. simpl in Hin. subst ls'.
  specialize (IH (seen ++ [foldl (rewrite_entry line) line entries]) m').
  rewrite length_app, Nat.add_1_r, <- app_assoc in IH. simpl in IH.
  rewrite IH. by rewrite <- app_assoc.
Qed.

End RewriteLoop.

Section FixAnsibleYamlFacts.
Import FixAnsibleYaml.

Lemma fqcn_entry_spec i line (st : loop_state) e cur :
  st.1 !! i = Some cur ->
  (fqcn_entry i line st e).1 = <[i := fqcn_rewrite_entry line cur e]> st.1.
Proof.
  intros Hcur. unfold fqcn_entry, fqcn_rewrite_entry.
  destruct (re_match _ line); [done|]. by rewrite list_insert_id.
Qed.

Lemma truthy_entry_spec i line (st : loop_state) e cur :
  st.1 !! i = Some cur ->
  (truthy_entry i line st e).1 = <[i := truthy_rewrite_entry line cur e]> st.1.
Proof.
  intros Hcur. unfold truthy_entry, truthy_rewrite_entry.
  destruct (re_match _ line); [done|]. by rewrite list_insert_id.
Qed.

Lemma fix_fqcn_lines (content : str) :
  (fix_fqcn content).1 = join_lines (map fqcn_rewrite (split_lines content)).
Proof.
  unfold fix_fqcn. cbn [fst]. f_equal.
  exact (lines_loop fqcn_entry fqcn_rewrite_entry FQCN_MAPPINGS fqcn_entry_spec
           (split_lines content) [] false).
Qed.

Lemma fix_truthy_values_lines (content : str) :
  (fix_truthy_values content).1
  = join_lines (map truthy_rewrite (split_lines content)).
Proof.
  unfold fix_truthy_values. cbn [fst]. f_equal.
  exact (lines_loop truthy_entry truthy_rewrite_entry TRUTHY_MAPPINGS
           truthy_entry_spec (split_lines content) [] false).
Qed.

(** What a match of the two patterns captures. *)
Lemma fqcn_match_inv (short_name line : str) (m : match_obj) :
  re_match (fqcn_pattern short_name) line = Some m ->
  exists m1 m2, line = m1 ++ m2 ++ rest m /\ group 1 m = m1.
Proof.
  unfold re_match, match_at, fqcn_pattern.
  change (run (Cat Bos ?r) ?k [] ?a ?g) with (run r k [] a g).
  change (run (Cat ?r1 ?r2) ?k ?b ?a ?g) with (run r1 (run r2 k) b a g).
  intros (m1 & a1 & -> & H)%group_inv; [|done].
  apply group_inv in H as (m2 & a2 & -> & H); [|done].
  injection H as <-. by exists m1, m2.
Qed.

Lemma truthy_match_inv (old_val line : str) (m : match_obj) :
  re_match (truthy_pattern old_val) line = Some m ->
  exists m1 m2 m3,
    line = m1 ++ m2 ++ m3 ++ rest m /\ group 1 m = m1 /\ group 3 m = m3.
Proof.
  unfold re_match, match_at, truthy_pattern.
  change (run (Cat Bos ?r) ?k [] ?a ?g) with (run r k [] a g).
  change (run (Cat ?r1 ?r2) ?k ?b ?a ?g) with (run r1 (run r2 k) b a g).
  intros (m1 & a1 & -> & H)%group_inv; [|done].
  change (run (Cat ?r1 ?r2) ?k ?b ?a ?g) with (run r1 (run r2 k) b a g) in H.
  apply group_inv in H as (m2 & a2 & -> & H); [|done].
  apply group_inv in H as (m3 & a3 & -> & H); [|done].
  injection H as <-. by exists m1, m2, m3.
Qed.

Lemma fqcn_rewrite_no_nl (line : str) : nl ∉ line -> nl ∉ fqcn_rewrite line.
Proof.
  intros Hline. unfold fqcn_rewrite.
  assert (Htable : Forall (fun e : str * str => nl ∉ e.2) FQCN_MAPPINGS).
  { unfold FQCN_MAPPINGS.
    repeat (apply Forall_cons; split; [cbn [snd]; compute_done|]). constructor. }
  revert Htable. generalize FQCN_MAPPINGS. intros es.
  cut (forall cur, nl ∉ cur -> Forall (fun e : str * str => nl ∉ e.2) es ->
         nl ∉ foldl (fqcn_rewrite_entry line) cur es); [by auto|].
  induction es as [|e es IH]; intros cur Hcur Hes; [done|].
  apply Forall_cons in Hes as [He Hes]. simpl. apply IH; [|done].
  unfold fqcn_rewrite_entry.
  destruct (re_match _ line) as [m|] eqn:Hm; [|done].
  apply fqcn_match_inv in Hm as (m1 & m2 & Hl & ->).
  rewrite Hl in Hline. rewrite !not_elem_of_app in *.
  split; [tauto|]. split; [done|]. compute_done.
Qed.

Lemma truthy_rewrite_no_nl (line : str) : nl ∉ line -> nl ∉ truthy_rewrite line.
Proof.
  intros Hline. unfold truthy_rewrite.
  assert (Htable : Forall (fun e : str * str => nl ∉ e.2) TRUTHY_MAPPINGS).
  { unfold TRUTHY_MAPPINGS.
    repeat (apply Forall_cons; split; [cbn [snd]; compute_done|]). constructor. }
  revert Htable. generalize TRUTHY_MAPPINGS. intros es.
  cut (forall cur, nl ∉ cur -> Forall (fun e : str * str => nl ∉ e.2) es ->
         nl ∉ foldl (truthy_rewrite_entry line) cur es); [by auto|].
  induction es as [|e es IH]; intros cur Hcur Hes; [done|].
  apply Forall_cons in Hes as [He Hes]. simpl. apply IH; [|done].
  unfold truthy_rewrite_entry.
  destruct (re_match _ line) as [m|] eqn:Hm; [|done].
  apply truthy_match_inv in Hm as (m1 & m2 & m3 & Hl & -> & ->).
  rewrite Hl in Hline. rewrite !not_elem_of_app in *.
  split; [tauto|]. split; [done|].
  destruct (nonempty m3); [tauto|apply not_elem_of_nil].
Qed.

(** A line without leading whitespace matches neither pattern. *)
Lemma fqcn_no_match (short_name line : str) :
  no_leading_space line -> re_match (fqcn_pattern short_name) line = None.
Proof.
  intros Hline. unfold re_match, match_at, fqcn_pattern. cbn [run].
  unfold one. destruct line as [|c t]; [done|]. by rewrite (Hline c eq_refl).
Qed.

Lemma truthy_no_match (old_val line : str) :
  no_leading_space line -> re_match (truthy_pattern old_val) line = None.
Proof.
  intros Hline. unfold re_match, match_at, truthy_pattern. cbn [run].
  unfold one. destruct line as [|c t]; [done|]. by rewrite (Hline c eq_refl).
Qed.

Lemma fqcn_rewrite_no_leading_space (line : str) :
  no_leading_space line -> fqcn_rewrite line = line.
Proof.
  intros Hline. unfold fqcn_rewrite. generalize FQCN_MAPPINGS. intros es.
  induction es as [|e es IH] using rev_ind; [done|].
  rewrite foldl_snoc. unfold fqcn_rewrite_entry at 1.
  by rewrite fqcn_no_match.
Qed.

Lemma truthy_rewrite_no_leading_space (line : str) :
  no_leading_space line -> truthy_rewrite line = line.
Proof.
  intros Hline. unfold truthy_rewrite. generalize TRUTHY_MAPPINGS. intros es.
  induction es as [|e es IH] using rev_ind; [done|].
  rewrite foldl_snoc. unfold truthy_rewrite_entry at 1.
  by rewrite truthy_no_match.
Qed.

(** C9: [fix_fqcn] and [fix_truthy_values] leave every line that has no
    leading whitespace unchanged. *)
Theorem unindented_lines_unchanged (content : str) (i : nat) (line : str) :
  split_lines content !! i = Some line ->
  no_leading_space line ->
  split_lines (fix_fqcn content).1 !! i = Some line /\
  split_lines (fix_truthy_values content).1 !! i = Some line.
Proof.
  intros Hi Hline. rewrite fix_fqcn_lines, fix_truthy_values_lines.
  rewrite !split_join_lines
    by (apply map_no_nl_ok;
        [apply fqcn_rewrite_no_nl || apply truthy_rewrite_no_nl
        |apply split_lines_ok]).
  change map with (@fmap list _). rewrite !list_lookup_fmap, Hi. simpl.
  by rewrite fqcn_rewrite_no_leading_space, truthy_rewrite_no_leading_space.
Qed.

Lemma unindented_lines_unchanged_witness :
  split_lines (fix_fqcn (txt "apt: name=foo")).1 !! 0 = Some (txt "apt: name=foo") /\
  split_lines (fix_truthy_values (txt "apt: name=foo")).1 !! 0
  = Some (txt "apt: name=foo").
Proof.
  apply (unindented_lines_unchanged (txt "apt: name=foo") 0 (txt "apt: name=foo")).
  - reflexivity.
  - intros c [= <-]. reflexivity.
Defined.


Lemma isword_not_space c : isword c = true -> isspace c = false.
Proof.
  intros Hw. destruct (isspace c) eqn:Hs; [|done].
  apply isspace_not_word in Hs. congruence.
Qed.

Lemma isword_not_colon c : isword c = true -> c <> ":"%char.
Proof. intros Hw ->. discriminate. Qed.

(** The part of the truthy pattern before the value, on a line of the
    expected form. *)
Lemma truthy_prefix_run {R} (K : cont R) (indent key sep tail b : str) (g : caps) :
  indent <> [] -> Forall (fun c => isspace c = true) indent ->
  key <> [] -> Forall (fun c => isword c = true) key ->
  sep <> [] -> Forall (fun c => isspace c = true) sep ->
  (forall c, head tail = Some c -> isspace c = false) ->
  (forall c t b', isspace c = true -> K b' (c :: t) g = None) ->
  run (Cat (Plus isspace) (Cat (Plus isword) (Cat (Lit (txt ":")) (Plus isspace))))
    K b (indent ++ key ++ txt ":" ++ sep ++ tail) g
  = K (reverse (indent ++ key ++ txt ":" ++ sep) ++ b) tail g.
Proof.
  intros Hi Hindent Hk Hkey Hs Hsep Htail HK. cbn [run].
  destruct indent as [|i0 indent]; [done|]. apply Forall_cons in Hindent as [Hi0 Hindent].
  destruct key as [|k0 key]; [done|]. apply Forall_cons in Hkey as [Hk0 Hkey].
  destruct sep as [|s0 sep]; [done|]. apply Forall_cons in Hsep as [Hs0 Hsep].
  cbn [app one]. rewrite Hi0.
  rewrite star_exact; [|done| |].
  2:{ intros c [= <-]. by apply isword_not_space. }
  2:{ intros c t b' Hc. unfold one. by rewrite (isspace_not_word c Hc). }
  cbn [one]. rewrite Hk0.
  rewrite star_exact; [|done| |].
  2:{ intros c [= <-]. done. }
  2:{ intros c t b' Hc. apply lit_mismatch. apply not_eq_sym. by apply isword_not_colon. }
  change (txt ":" ++ s0 :: sep ++ tail) with (":"%char :: s0 :: sep ++ tail).
  cbn [lit txt list_ascii_of_string]. rewrite Ascii.eqb_refl. cbn [one]. rewrite Hs0.
  rewrite star_exact by done. f_equal.
  repeat first [rewrite reverse_cons | rewrite reverse_app].
  rewrite reverse_nil. rewrite <- !app_assoc. done.
Qed.

(** The part of the truthy pattern after the value: optional spaces and an
    optional comment up to the end of the line. *)
Lemma truthy_tail_run (ws comment b : str) (g : caps) :
  Forall (fun c => isspace c = true) ws ->
  (comment = [] \/ exists text, comment = "#"%char :: text /\ nl ∉ text) ->
  run (Group 3 (Cat (Star isspace)
                 (Cat (Opt (Cat (Lit (txt "#")) (Star isdot))) Eos)))
    finish b (ws ++ comment) g
  = Some (MatchObj ((3, ws ++ comment) :: g) []).
Proof.
  intros Hws Hcomment. cbn [run].
  apply star_greedy; [done| |].
  - intros c Hc. destruct Hcomment as [->|(text & -> & _)]; [done|].
    by injection Hc as <-.
  - destruct Hcomment as [->|(text & -> & Htext)].
    + cbn. by rewrite app_nil_r, Nat.sub_0_r, firstn_all.
    + cbn [lit txt list_ascii_of_string]. rewrite Ascii.eqb_refl.
      rewrite <- (app_nil_r text) at 1.
      rewrite star_greedy with (x := MatchObj ((3, ws ++ "#"%char :: text) :: g) []).
      * done.
      * clear -Htext. induction text as [|c text IH]; [done|].
        apply not_elem_of_cons in Htext as [Hc Htext]. constructor; [|auto].
        unfold isdot. apply negb_true_iff, is_nl_false. congruence.
      * done.
      * cbn. by rewrite Nat.sub_0_r, firstn_all.
Qed.

Lemma truthy_value_run (o v trail b : str) (g : caps) :
  o ∈ truthy_keys -> v ∈ truthy_keys ->
  run (Group 2 (Lit o)) (run (Group 3 (Cat (Star isspace)
                 (Cat (Opt (Cat (Lit (txt "#")) (Star isdot))) Eos))) finish)
    b (v ++ trail) g
  = if decide (o = v)
    then run (Group 3 (Cat (Star isspace)
                 (Cat (Opt (Cat (Lit (txt "#")) (Star isdot))) Eos))) finish
           (reverse v ++ b) trail ((2, v) :: g)
    else None.
Proof.
  intros Ho Hv. destruct (decide (o = v)) as [->|Hne].
  - change (run (Group 2 (Lit v)) ?k ?b ?a ?g)
      with (lit v (fun b' a' g' => k b' a' ((2, take (length a - length a') a) :: g'))
              b a g).
    by rewrite lit_app, take_matched.
  - apply list_elem_of_In in Ho, Hv. simpl in Ho, Hv.
    destruct Ho as [<-|[<-|[<-|[<-|[<-|[<-|[]]]]]]];
      destruct Hv as [<-|[<-|[<-|[<-|[<-|[<-|[]]]]]]];
      try done; reflexivity.
Qed.

Lemma truthy_key_head (v : str) :
  v ∈ truthy_keys -> exists c t, v = c :: t /\ isspace c = false.
Proof.
  intros Hv. apply list_elem_of_In in Hv. simpl in Hv.
  destruct Hv as [<-|[<-|[<-|[<-|[<-|[<-|[]]]]]]]; by eexists _, _.
Qed.

(** A line of the form [indent key: value spaces comment] matches the
    pattern of its own value only. *)
Lemma truthy_match_form (o v indent key sep ws comment : str) :
  o ∈ truthy_keys -> v ∈ truthy_keys ->
  indent <> [] -> Forall (fun c => isspace c = true) indent ->
  key <> [] -> Forall (fun c => isword c = true) key ->
  sep <> [] -> Forall (fun c => isspace c = true) sep ->
  Forall (fun c => isspace c = true) ws ->
  (comment = [] \/ exists text, comment = "#"%char :: text /\ nl ∉ text) ->
  re_match (truthy_pattern o)
    (indent ++ key ++ txt ":" ++ sep ++ v ++ ws ++ comment)
  = if decide (o = v)
    then Some (MatchObj [(3, ws ++ comment); (2, v);
                         (1, indent ++ key ++ txt ":" ++ sep)] [])
    else None.
Proof.
  intros Ho Hv Hi Hindent Hk Hkey Hs Hsep Hws Hcomment.
  unfold re_match, match_at, truthy_pattern.
  change (run (Cat Bos ?r) ?k [] ?a ?g) with (run r k [] a g).
  change (run (Cat ?r1 ?r2) ?k ?b ?a ?g) with (run r1 (run r2 k) b a g).
  change (run (Group 1 ?r) ?k ?b ?a ?g)
    with (run r (fun b' a' g' => k b' a' ((1, take (length a - length a') a) :: g'))
            b a g).
  destruct (truthy_key_head v Hv) as (v0 & vt & Hv0 & Hv0s).
  destruct (truthy_key_head o Ho) as (o0 & ot & Ho0 & Ho0s).
  rewrite truthy_prefix_run; try done.
  - rewrite (take_matched_eq _ (indent ++ key ++ txt ":" ++ sep))
      by (by rewrite <- !app_assoc).
    change (run (Cat ?r1 ?r2) ?k ?b ?a ?g) with (run r1 (run r2 k) b a g).
    rewrite truthy_value_run by done.
    destruct (decide (o = v)); [|done]. by rewrite truthy_tail_run.
  - intros c. rewrite Hv0. by intros [= <-].
  - intros c t b' Hc.
    change (run (Cat ?r1 ?r2) ?k ?b ?a ?g) with (run r1 (run r2 k) b a g).
    rewrite Ho0. cbn [run]. apply lit_mismatch. congruence.
Qed.

Lemma nonempty_or_nil (x : str) : (if nonempty x then x else []) = x.
Proof. by destruct x. Qed.

Lemma truthy_rewrite_form (v new indent key sep ws comment : str) :
  (v, new) ∈ TRUTHY_MAPPINGS ->
  indent <> [] -> Forall (fun c => isspace c = true) indent ->
  key <> [] -> Forall (fun c => isword c = true) key ->
  sep <> [] -> Forall (fun c => isspace c = true) sep ->
  Forall (fun c => isspace c = true) ws ->
  (comment = [] \/ exists text, comment = "#"%char :: text /\ nl ∉ text) ->
  truthy_rewrite (indent ++ key ++ txt ":" ++ sep ++ v ++ ws ++ comment)
  = indent ++ key ++ txt ":" ++ sep ++ new ++ ws ++ comment.
Proof.
  intros Hin Hi Hindent Hk Hkey Hs Hsep Hws Hcomment.
  assert (Hv : v ∈ truthy_keys).
  { apply list_elem_of_fmap. by exists (v, new). }
  set (line := indent ++ key ++ txt ":" ++ sep ++ v ++ ws ++ comment).
  assert (Hstep : forall cur o n, o ∈ truthy_keys ->
    truthy_rewrite_entry line cur (o, n)
    = if decide (o = v)
      then indent ++ key ++ txt ":" ++ sep ++ n ++ ws ++ comment else cur).
  { intros cur o n Ho. unfold truthy_rewrite_entry, line. cbn [fst snd].
    rewrite truthy_match_form by done.
    destruct (decide (o = v)); [|done].
    unfold group. cbn [groups lookup_group Nat.eqb].
    by rewrite nonempty_or_nil, <- !app_assoc. }
  unfold truthy_rewrite, TRUTHY_MAPPINGS. cbn [foldl].
  rewrite !Hstep by compute_done.
  apply list_elem_of_In in Hin. simpl in Hin.
  destruct Hin as [[= <- <-]|[[= <- <-]|[[= <- <-]|[[= <- <-]|[[= <- <-]|[[= <- <-]|[]]]]]]];
    reflexivity.
Qed.

(** C6: on a line of the form [indent key: value spaces comment], with one
    of the recognized spellings of yes and no as the value,
    [fix_truthy_values] replaces the value with its true or false and keeps
    the text around it, the comment included. *)
Theorem truthy_value_rewritten (content : str) (i : nat)
    (v new indent key sep ws comment : str) :
  split_lines content !! i
    = Some (indent ++ key ++ txt ":" ++ sep ++ v ++ ws ++ comment) ->
  (v, new) ∈ TRUTHY_MAPPINGS ->
  indent <> [] -> Forall (fun c => isspace c = true) indent ->
  key <> [] -> Forall (fun c => isword c = true) key ->
  sep <> [] -> Forall (fun c => isspace c = true) sep ->
  Forall (fun c => isspace c = true) ws ->
  (comment = [] \/ exists text, comment = "#"%char :: text) ->
  split_lines (fix_truthy_values content).1 !! i
    = Some (indent ++ key ++ txt ":" ++ sep ++ new ++ ws ++ comment)
  /\ (new = txt "true" \/ new = txt "false").
Proof.
  intros Hline Hin Hi Hindent Hk Hkey Hs Hsep Hws Hcomment. split.
  - rewrite fix_truthy_values_lines.
    rewrite split_join_lines
      by (apply map_no_nl_ok; [apply truthy_rewrite_no_nl|apply split_lines_ok]).
    change map with (@fmap list _). rewrite list_lookup_fmap, Hline. simpl.
    f_equal. apply truthy_rewrite_form; try done.
    destruct Hcomment as [->|(text & ->)]; [by left|right].
    exists text. split; [done|].
    pose proof (split_no_sep nl content) as Hno.
    rewrite Forall_lookup in Hno. specialize (Hno _ _ Hline).
    rewrite !not_elem_of_app, not_elem_of_cons in Hno. tauto.
  - apply list_elem_of_In in Hin. simpl in Hin.
    destruct Hin as [[= <- <-]|[[= <- <-]|[[= <- <-]|[[= <- <-]|[[= <- <-]|[[= <- <-]|[]]]]]]];
      auto.
Qed.

Lemma truthy_value_rewritten_witness :
  split_lines (fix_truthy_values (txt "  enabled: yes  # note")).1 !! 0
  = Some (txt "  enabled: true  # note").
Proof.
  apply (truthy_value_rewritten (txt "  enabled: yes  # note") 0
           (txt "yes") (txt "true") (txt "  ") (txt "enabled") (txt " ")
           (txt "  ") (txt "# note")).
  - reflexivity.
  - compute_done.
  - discriminate.
  - repeat constructor.
  - discriminate.
  - repeat constructor.
  - discriminate.
  - repeat constructor.
  - repeat constructor.
  - right. by eexists.
Defined.

Ltac each_key H :=
  apply list_elem_of_In in H; simpl in H;
  repeat (destruct H as [<-|H]); [..|destruct H].

Lemma fqcn_key_head (name : str) :
  name ∈ fqcn_keys ->
  exists c t, name = c :: t /\ isspace c = false /\ c <> "-"%char.
Proof. intros H. each_key H; by eexists _, _. Qed.

Lemma fqcn_name_run (o name rest b : str) (g : caps) :
  o ∈ fqcn_keys -> name ∈ fqcn_keys ->
  run (Group 2 (Cat (Lit o) (Lit (txt ":")))) finish b
    (name ++ txt ":" ++ rest) g
  = if decide (o = name)
    then Some (MatchObj ((2, name ++ txt ":") :: g) rest) else None.
Proof.
  intros Ho Hname. destruct (decide (o = name)) as [->|Hne].
  - change (run (Group 2 (Cat (Lit ?s) (Lit ?t))) ?k ?b ?a ?g)
      with (lit s (lit t
              (fun b' a' g' => k b' a' ((2, take (length a - length a') a) :: g')))
              b a g).
    rewrite !lit_app. unfold finish.
    by rewrite (take_matched_eq _ (name ++ txt ":")) by (by rewrite <- app_assoc).
  - each_key Ho; each_key Hname; try done; reflexivity.
Qed.

(** A task line [indent name: rest], with or without the dash of a list
    item, matches the pattern of its own module name only; group 1 is the
    indentation and the match ends behind the colon. *)
Lemma fqcn_match_form (o name ws1 dash rest : str) :
  o ∈ fqcn_keys -> name ∈ fqcn_keys ->
  ws1 <> [] -> Forall (fun c => isspace c = true) ws1 ->
  (dash = [] \/ exists ws2, dash = "-"%char :: ws2 /\ ws2 <> [] /\
                 Forall (fun c => isspace c = true) ws2) ->
  re_match (fqcn_pattern o) (ws1 ++ dash ++ name ++ txt ":" ++ rest)
  = if decide (o = name)
    then Some (MatchObj [(2, name ++ txt ":"); (1, ws1 ++ dash)] rest)
    else None.
Proof.
  intros Ho Hname H1 Hws1 Hdash.
  destruct (fqcn_key_head o Ho) as (o0 & ot & Ho0 & Ho0s & Ho0d).
  destruct (fqcn_key_head name Hname) as (n0 & nt & Hn0 & Hn0s & Hn0d).
  unfold re_match, match_at, fqcn_pattern.
  change (run (Cat Bos ?r) ?k [] ?a ?g) with (run r k [] a g).
  change (run (Cat ?r1 ?r2) ?k ?b ?a ?g) with (run r1 (run r2 k) b a g).
  change (run (Group 1 ?r) ?k ?b ?a ?g)
    with (run r (fun b' a' g' => k b' a' ((1, take (length a - length a') a) :: g'))
            b a g).
  change (run (Cat ?r1 ?r2) ?k ?b ?a ?g) with (run r1 (run r2 k) b a g).
  change (run (Plus ?p) ?k ?b ?a ?g) with (one p (star p k) b a g).
  (* the continuation cannot start at a whitespace character *)
  assert (Hname_fail : forall c t b' g',
    isspace c = true ->
    run (Group 2 (Cat (Lit o) (Lit (txt ":")))) finish b' (c :: t) g' = None).
  { intros c t b' g' Hc. rewrite Ho0. apply lit_mismatch. congruence. }
  destruct ws1 as [|w1 ws1]; [done|]. apply Forall_cons in Hws1 as [Hw1 Hws1].
  cbn [app one]. rewrite Hw1.
  rewrite star_exact; [|done| |].
  2:{ intros c. destruct Hdash as [->|(ws2 & -> & _)].
      - rewrite Hn0. by intros [= <-].
      - by intros [= <-]. }
  2:{ intros c t b' Hc.
      change (run (Opt ?r) ?k ?b ?a ?g) with (orelse (run r k b a g) (k b a g)).
      change (run (Cat (Lit ?s) ?r2) ?k ?b ?a ?g) with (lit s (run r2 k) b a g).
      change (txt "-") with ["-"%char]. rewrite lit_mismatch.
      - apply Hname_fail, Hc.
      - intros <-. discriminate. }
  change (run (Opt ?r) ?k ?b ?a ?g) with (orelse (run r k b a g) (k b a g)).
  destruct Hdash as [->|(ws2 & -> & H2 & Hws2)].
  - change (run (Cat (Lit ?s) ?r2) ?k ?b ?a ?g) with (lit s (run r2 k) b a g).
    change (txt "-") with ["-"%char].
    cbn [app]. rewrite Hn0 at 1. cbn [app]. rewrite lit_mismatch by done.
    cbn [orelse].
    rewrite (take_matched_eq _ (w1 :: ws1)) by done.
    rewrite fqcn_name_run by done. rewrite app_nil_r.
    by destruct (decide (o = name)).
  - change (run (Cat ?r1 ?r2) ?k ?b ?a ?g) with (run r1 (run r2 k) b a g).
    change (run (Plus ?p) ?k ?b ?a ?g) with (one p (star p k) b a g).
    destruct ws2 as [|w2 ws2]; [done|]. apply Forall_cons in Hws2 as [Hw2 Hws2].
    change (run (Lit ?s) ?k ?b ?a ?g) with (lit s k b a g).
    change (txt "-") with ["-"%char].
    cbn [lit app]. rewrite Ascii.eqb_refl.
    change (run (Plus ?p) ?k ?b ?a ?g) with (one p (star p k) b a g).
    cbn [one]. rewrite Hw2.
    rewrite star_exact; [|done| |].
    2:{ intros c. rewrite Hn0. by intros [= <-]. }
    2:{ intros c t b' Hc. apply Hname_fail, Hc. }
    rewrite (take_matched_eq _ ((w1 :: ws1) ++ "-"%char :: w2 :: ws2))
      by (by rewrite <- app_assoc).
    rewrite fqcn_name_run by done.
    destruct (decide (o = name)); [done|]. cbn [orelse].
    rewrite Ho0. apply lit_mismatch. congruence.
Qed.

Lemma fqcn_rewrite_form (name fq ws1 dash rest : str) :
  (name, fq) ∈ FQCN_MAPPINGS ->
  ws1 <> [] -> Forall (fun c => isspace c = true) ws1 ->
  (dash = [] \/ exists ws2, dash = "-"%char :: ws2 /\ ws2 <> [] /\
                 Forall (fun c => isspace c = true) ws2) ->
  fqcn_rewrite (ws1 ++ dash ++ name ++ txt ":" ++ rest)
  = (ws1 ++ dash) ++ fq ++ txt ":".
Proof.
  intros Hin H1 Hws1 Hdash.
  assert (Hname : name ∈ fqcn_keys).
  { apply list_elem_of_fmap. by exists (name, fq). }
  set (line := ws1 ++ dash ++ name ++ txt ":" ++ rest).
  assert (Hstep : forall cur o n, o ∈ fqcn_keys ->
    fqcn_rewrite_entry line cur (o, n)
    = if decide (o = name) then (ws1 ++ dash) ++ n ++ txt ":" else cur).
  { intros cur o n Ho. unfold fqcn_rewrite_entry, line. cbn [fst snd].
    rewrite fqcn_match_form by done. by destruct (decide (o = name)). }
  unfold fqcn_rewrite, FQCN_MAPPINGS. cbn [foldl].
  rewrite !Hstep by compute_done.
  apply list_elem_of_In in Hin. simpl in Hin.
  repeat (destruct Hin as [[= <- <-]|Hin]; [reflexivity|]). destruct Hin.
Qed.

(** X4: what [fix_fqcn] does to a task line in general, with or without the
    dash of a list item: the module name is qualified and everything behind
    the colon is dropped. *)
Lemma fix_fqcn_truncates (content : str) (i : nat)
    (name fq ws1 dash rest : str) :
  split_lines content !! i = Some (ws1 ++ dash ++ name ++ txt ":" ++ rest) ->
  (name, fq) ∈ FQCN_MAPPINGS ->
  ws1 <> [] -> Forall (fun c => isspace c = true) ws1 ->
  (dash = [] \/ exists ws2, dash = "-"%char :: ws2 /\ ws2 <> [] /\
                 Forall (fun c => isspace c = true) ws2) ->
  split_lines (fix_fqcn content).1 !! i = Some ((ws1 ++ dash) ++ fq ++ txt ":").
Proof.
  intros Hline Hin H1 Hws1 Hdash. rewrite fix_fqcn_lines.
  rewrite split_join_lines
    by (apply map_no_nl_ok; [apply fqcn_rewrite_no_nl|apply split_lines_ok]).
  change map with (@fmap list _). rewrite list_lookup_fmap, Hline. simpl.
  f_equal. by apply fqcn_rewrite_form.
Qed.

Lemma fix_fqcn_truncates_witness :
  split_lines (fix_fqcn (txt "  - apt: name=foo")).1 !! 0
  = Some (txt "  - ansible.builtin.apt:").
Proof.
  apply (fix_fqcn_truncates (txt "  - apt: name=foo") 0 (txt "apt")
           (txt "ansible.builtin.apt") (txt "  ") (txt "- ") (txt " name=foo")).
  - reflexivity.
  - compute_done.
  - discriminate.
  - repeat constructor.
  - right. exists (txt " "). split; [reflexivity|]. split; [discriminate|].
    repeat constructor.
Defined.

End FixAnsibleYamlFacts.

(** ** FQCN rewriting at the spec's example (fix-ansible-yaml.py) *)

(** C1: on the spec's own example the module key is qualified, but the rest
    of the line after the colon is dropped instead of being kept. *)
Theorem fix_fqcn_drops_rest_of_line :
  FixAnsibleYaml.fix_fqcn (txt "  apt: name=foo")
  = (txt "  ansible.builtin.apt:", true)
  /\ (FixAnsibleYaml.fix_fqcn (txt "  apt: name=foo")).1
     <> txt "  ansible.builtin.apt: name=foo".
Proof. split; [vm_compute; reflexivity|vm_compute; discriminate]. Qed.

(** ** Brace spacing (fix-ansible-yaml.py and fix-jinja2-spacing.py) *)

Lemma space_run_split (v : str) :
  (exists z, last v = Some z /\ isspace z = false) ->
  exists ws e t, v = ws ++ e :: t /\
    Forall (fun c => isspace c = true) ws /\ isspace e = false.
Proof.
  induction v as [|c v IH]; intros (z & Hz & Hzs); [done|].
  destruct (isspace c) eqn:Hc.
  - destruct v as [|d v]; [simpl in Hz; congruence|].
    destruct IH as (ws & e & t & Hv & Hws & He); [by exists z|].
    exists (c :: ws), e, t. rewrite Hv. split; [done|]. split; [by constructor|done].
  - by exists [], c, v.
Qed.

Lemma isspace_not_rbrace c : isspace c = true -> c <> "}"%char.
Proof. intros Hc ->. discriminate. Qed.

Section BraceSpacing.
Import FixAnsibleYaml.

(** Inside the body the closing part of the pattern cannot match. *)
Lemma brace_close_fails (v a2 b : str) (g : caps) :
  v <> [] -> "}"%char ∉ v ->
  (exists z, last v = Some z /\ isspace z = false) ->
  run (Cat (Plus isspace) (Lit (txt "}}"))) finish b (v ++ a2) g = None.
Proof.
  intros Hv Hnb Hlast. cbn [run]. destruct v as [|d v]; [done|].
  cbn [app one]. destruct (isspace d) eqn:Hd; [|done].
  apply not_elem_of_cons in Hnb as [_ Hnb].
  destruct (space_run_split v) as (ws & e & t & -> & Hws & He).
  { destruct Hlast as (z & Hz & Hzs). exists z. split; [|done].
    destruct v; [simpl in Hz; congruence|done]. }
  rewrite <- app_assoc. rewrite star_exact; [|done| |].
  - apply lit_mismatch. rewrite not_elem_of_app, not_elem_of_cons in Hnb. tauto.
  - intros c [= <-]. done.
  - intros c t' b' Hc. apply lit_mismatch. apply not_eq_sym.
    by apply isspace_not_rbrace.
Qed.

Lemma not_rbrace_all (body : str) :
  "}"%char ∉ body -> Forall (fun c => not_rbrace c = true) body.
Proof.
  induction body as [|c body IH]; [done|].
  intros [Hc Hb]%not_elem_of_cons. constructor; [|auto].
  unfold not_rbrace. apply negb_true_iff, Ascii.eqb_neq. congruence.
Qed.

Lemma brace_match (ws1 body ws2 post b : str) :
  ws1 <> [] -> Forall (fun c => isspace c = true) ws1 ->
  ws2 <> [] -> Forall (fun c => isspace c = true) ws2 ->
  "}"%char ∉ body ->
  (exists c t, body = c :: t /\ isspace c = false) ->
  (exists z, last body = Some z /\ isspace z = false) ->
  match_at brace_pattern b
    (txt "{{" ++ (ws1 ++ body ++ ws2) ++ txt "}}" ++ post)
  = Some (MatchObj [(1, body)] post).
Proof.
  intros H1 Hws1 H2 Hws2 Hnb (c0 & body' & -> & Hc0) Hlast.
  unfold match_at, brace_pattern.
  change (run (Cat ?r1 ?r2) ?k ?b ?a ?g) with (run r1 (run r2 k) b a g).
  change (run (Lit ?s) ?k ?b ?a ?g) with (lit s k b a g).
  rewrite lit_app. rewrite <- !app_assoc.
  destruct ws1 as [|w1 ws1]; [done|]. apply Forall_cons in Hws1 as [Hw1 Hws1].
  destruct ws2 as [|w2 ws2]; [done|]. apply Forall_cons in Hws2 as [Hw2 Hws2].
  change (run (Cat ?r1 ?r2) ?k ?b ?a ?g) with (run r1 (run r2 k) b a g).
  change (run (Plus ?p) ?k ?b ?a ?g) with (one p (star p k) b a g).
  cbn [app one]. rewrite Hw1.
  apply star_greedy; [done|by intros c [= <-]|].
  change (run (Cat ?r1 ?r2) ?k ?b ?a ?g) with (run r1 (run r2 k) b a g).
  change (run (Group 1 (PlusLazy ?p)) ?k ?b ?a ?g)
    with (one p (star_lazy p
            (fun b' a' g' => k b' a' ((1, take (length a - length a') a) :: g')))
            b a g).
  apply not_elem_of_cons in Hnb as [Hc0b Hnb].
  cbn [app one]. unfold not_rbrace at 1.
  replace (Ascii.eqb c0 "}"%char) with false
    by (symmetry; apply Ascii.eqb_neq; congruence).
  cbn [negb].
  apply star_lazy_first; [by apply not_rbrace_all| |].
  - intros u v -> Hv.
    change (run (Cat ?r1 ?r2) ?k ?b ?a ?g) with (run r1 (run r2 k) b a g).
    apply (brace_close_fails v); [done| |].
    + rewrite not_elem_of_app in Hnb. tauto.
    + destruct Hlast as (z & Hz & Hzs). exists z. split; [|done].
      rewrite <- Hz. change (c0 :: u ++ v) with ((c0 :: u) ++ v).
      destruct v as [|d v]; [done|]. by rewrite last_app_cons.
  - rewrite (take_matched_eq _ (c0 :: body')) by done.
    change (run (Cat ?r1 ?r2) ?k ?b ?a ?g) with (run r1 (run r2 k) b a g).
    change (run (Plus ?p) ?k ?b ?a ?g) with (one p (star p k) b a g).
    cbn [app one]. rewrite Hw2.
    apply star_greedy; [done|by intros c [= <-]|].
    change (run (Lit ?s) ?k ?b ?a ?g) with (lit s k b a g).
    by rewrite lit_app.
Qed.


Lemma brace_no_start (c : ascii) (t b : str) :
  c <> "{"%char -> match_at brace_pattern b (c :: t) = None.
Proof. intros Hc. apply lit_mismatch. congruence. Qed.

Lemma jinja2_no_start (c : ascii) (t b : str) :
  c <> "{"%char -> match_at FixJinja2Spacing.pattern b (c :: t) = None.
Proof. intros Hc. apply lit_mismatch. congruence. Qed.

Lemma jinja2_match (inner post b : str) :
  inner <> [] -> "}"%char ∉ inner ->
  match_at FixJinja2Spacing.pattern b (txt "{{" ++ inner ++ txt "}}" ++ post)
  = Some (MatchObj [(1, inner)] post).
Proof.
  intros Hne Hnb. unfold match_at, FixJinja2Spacing.pattern.
  change (run (Cat ?r1 ?r2) ?k ?b ?a ?g) with (run r1 (run r2 k) b a g).
  change (run (Lit ?s) ?k ?b ?a ?g) with (lit s k b a g).
  rewrite lit_app.
  change (run (Cat ?r1 ?r2) ?k ?b ?a ?g) with (run r1 (run r2 k) b a g).
  change (run (Group 1 (Plus ?p)) ?k ?b ?a ?g)
    with (one p (star p
            (fun b' a' g' => k b' a' ((1, take (length a - length a') a) :: g')))
            b a g).
  destruct inner as [|c0 inner]; [done|].
  apply not_elem_of_cons in Hnb as [Hc0 Hnb].
  cbn [app one]. unfold FixJinja2Spacing.not_rbrace at 1.
  replace (Ascii.eqb c0 "}"%char) with false
    by (symmetry; apply Ascii.eqb_neq; congruence).
  cbn [negb].
  apply star_greedy; [by apply not_rbrace_all|by intros c [= <-]|].
  rewrite (take_matched_eq _ (c0 :: inner)) by done.
  change (run (Lit ?s) ?k ?b ?a ?g) with (lit s k b a g).
  by rewrite lit_app.
Qed.

Lemma no_lbrace_copy (r : regex) (pre : str) :
  (forall c t b, c <> "{"%char -> match_at r b (c :: t) = None) ->
  "{"%char ∉ pre ->
  Forall (fun c => forall b' t, match_at r b' (c :: t) = None) pre.
Proof.
  intros Hr. induction pre as [|c pre IH]; [done|].
  intros [Hc Hpre]%not_elem_of_cons. constructor; [|auto].
  intros b' t. apply Hr. congruence.
Qed.

Lemma fix_brace_spacing_padded (pre ws1 body ws2 post : str) :
  "{"%char ∉ pre ->
  ws1 <> [] -> Forall (fun c => isspace c = true) ws1 ->
  ws2 <> [] -> Forall (fun c => isspace c = true) ws2 ->
  "}"%char ∉ body ->
  (exists c t, body = c :: t /\ isspace c = false) ->
  (exists z, last body = Some z /\ isspace z = false) ->
  (fix_brace_spacing
     (pre ++ txt "{{" ++ (ws1 ++ body ++ ws2) ++ txt "}}" ++ post)).1
  = pre ++ txt "{{" ++ body ++ txt "}}" ++ (fix_brace_spacing post).1.
Proof.
  intros Hpre H1 Hws1 H2 Hws2 Hnb Hfirst Hlast.
  unfold fix_brace_spacing, sub. cbn [fst].
  rewrite sub_from_copy by (apply no_lbrace_copy; [apply brace_no_start|done]).
  f_equal.
  replace (txt "{{" ++ (ws1 ++ body ++ ws2) ++ txt "}}" ++ post)
    with ((txt "{{" ++ (ws1 ++ body ++ ws2) ++ txt "}}") ++ post)
    by (by rewrite <- !app_assoc).
  rewrite (sub_from_match _ _ _ _ _ (MatchObj [(1, body)] post)).
  - unfold brace_repl at 1. unfold group. cbn [groups lookup_group Nat.eqb].
    rewrite <- !app_assoc. do 3 f_equal. by apply sub_from_ctxfree.
  - done.
  - rewrite <- (app_assoc (txt "{{") _ post).
    rewrite <- (app_assoc (ws1 ++ body ++ ws2) (txt "}}") post).
    by apply brace_match.
  - done.
Qed.

Lemma fix_jinja2_spacing_expr (pre inner post : str) :
  "{"%char ∉ pre -> inner <> [] -> "}"%char ∉ inner ->
  (FixJinja2Spacing.fix_jinja2_spacing
     (pre ++ txt "{{" ++ inner ++ txt "}}" ++ post)).1
  = pre ++ (if startswith (txt " ") inner && endswith (txt " ") inner
            then txt "{{" ++ inner ++ txt "}}"
            else txt "{{ " ++ strip inner ++ txt " }}")
        ++ (FixJinja2Spacing.fix_jinja2_spacing post).1.
Proof.
  intros Hpre Hne Hnb.
  unfold FixJinja2Spacing.fix_jinja2_spacing, sub. cbn [fst].
  rewrite sub_from_copy by (apply no_lbrace_copy; [apply jinja2_no_start|done]).
  f_equal.
  replace (txt "{{" ++ inner ++ txt "}}" ++ post)
    with ((txt "{{" ++ inner ++ txt "}}") ++ post)
    by (by rewrite <- !app_assoc).
  rewrite (sub_from_match _ _ _ _ _ (MatchObj [(1, inner)] post)).
  - unfold FixJinja2Spacing.add_spaces at 1. unfold group.
    cbn [groups lookup_group Nat.eqb]. f_equal. by apply sub_from_ctxfree.
  - done.
  - rewrite <- !app_assoc. by apply jinja2_match.
  - done.
Qed.

(** C4, as amended.  [fix_brace_spacing] rewrites a double-brace expression
    that is padded with whitespace on both sides of its body to zero padding;
    [fix_jinja2_spacing] leaves a double-brace expression whose inner text
    starts and ends with a space as it is, and rewrites every other one to
    exactly one space on each side of the stripped inner text.  The two
    produce different outputs on a common input. *)
Theorem brace_spacing_conventions :
  (forall pre ws1 body ws2 post : str,
     "{"%char ∉ pre ->
     ws1 <> [] -> Forall (fun c => isspace c = true) ws1 ->
     ws2 <> [] -> Forall (fun c => isspace c = true) ws2 ->
     "}"%char ∉ body ->
     (exists c t, body = c :: t /\ isspace c = false) ->
     (exists z, last body = Some z /\ isspace z = false) ->
     (fix_brace_spacing
        (pre ++ txt "{{" ++ (ws1 ++ body ++ ws2) ++ txt "}}" ++ post)).1
     = pre ++ txt "{{" ++ body ++ txt "}}" ++ (fix_brace_spacing post).1) /\
  (forall pre inner post : str,
     "{"%char ∉ pre -> inner <> [] -> "}"%char ∉ inner ->
     (FixJinja2Spacing.fix_jinja2_spacing
        (pre ++ txt "{{" ++ inner ++ txt "}}" ++ post)).1
     = pre ++ (if startswith (txt " ") inner && endswith (txt " ") inner
               then txt "{{" ++ inner ++ txt "}}"
               else txt "{{ " ++ strip inner ++ txt " }}")
           ++ (FixJinja2Spacing.fix_jinja2_spacing post).1) /\
  (fix_brace_spacing (txt "{{ x }}")).1 = txt "{{x}}" /\
  (FixJinja2Spacing.fix_jinja2_spacing (txt "{{x}}")).1 = txt "{{ x }}" /\
  (fix_brace_spacing (txt "{{ x }}")).1
  <> (FixJinja2Spacing.fix_jinja2_spacing (txt "{{ x }}")).1.
Proof.
  split; [exact fix_brace_spacing_padded|].
  split; [exact fix_jinja2_spacing_expr|].
  repeat split; [vm_compute; reflexivity..|vm_compute; discriminate].
Qed.

Lemma brace_spacing_conventions_witness :
  (fix_brace_spacing (txt "name: {{  item | upper  }} # x")).1
  = txt "name: {{item | upper}} # x".
Proof.
  apply (proj1 brace_spacing_conventions
           (txt "name: ") (txt "  ") (txt "item | upper") (txt "  ") (txt " # x")).
  - compute_done.
  - discriminate.
  - repeat constructor.
  - discriminate.
  - repeat constructor.
  - compute_done.
  - by eexists _, _.
  - by eexists.
Defined.

(** C4, as stated, fails: [fix_jinja2_spacing] leaves an expression with two
    spaces of padding as it is, and [fix_brace_spacing] leaves an expression
    that is padded on one side only as it is. *)
Lemma brace_spacing_not_normalized :
  (FixJinja2Spacing.fix_jinja2_spacing (txt "{{  x  }}")).1 = txt "{{  x  }}" /\
  (FixJinja2Spacing.fix_jinja2_spacing (txt "{{  x  }}")).1 <> txt "{{ x }}" /\
  (fix_brace_spacing (txt "{{ x}}")).1 = txt "{{ x}}" /\
  (fix_brace_spacing (txt "{{ x}}")).1 <> txt "{{x}}".
Proof.
  repeat split; try (vm_compute; reflexivity); vm_compute; discriminate.
Qed.

End BraceSpacing.

(** ** Passes that insert empty lines *)


Section GapPassFacts.
Context {S : Type}.
Variable rule : S -> str -> str -> bool.
Variable upd : S -> str -> S.
Hypothesis rule_tight : forall s a b,
  rule s a b = true -> nonblank a = true /\ nonblank b = true.
Hypothesis upd_blank : forall s, upd s [] = s.

Lemma rule_blank_l s b : rule s [] b = false.
Proof.
  destruct (rule s [] b) eqn:H; [|done].
  apply rule_tight in H as [H _]. done.
Qed.

Lemma rule_blank_r s a : rule s a [] = false.
Proof.
  destruct (rule s a []) eqn:H; [|done].
  apply rule_tight in H as [_ H]. done.
Qed.

Lemma blank_inserted_refl ls : blank_inserted ls ls.
Proof. induction ls; by constructor. Qed.

Lemma gap_pass_inserts s prev ls : blank_inserted ls (gap_pass rule upd s prev ls).
Proof.
  revert s prev. induction ls as [|line rest IH]; intros s prev; simpl.
  - constructor.
  - destruct (rule s prev line); simpl; repeat constructor; apply IH.
Qed.

Lemma gap_stable_blank_prev s prev ls :
  gap_stable rule upd s prev ls = true -> gap_stable rule upd s [] ls = true.
Proof.
  destruct ls as [|line rest]; simpl; [done|].
  rewrite rule_blank_l. intros [_ H]%andb_true_iff. done.
Qed.

Lemma gap_pass_stable s prev ls :
  gap_stable rule upd s prev (gap_pass rule upd s prev ls) = true.
Proof.
  revert s prev. induction ls as [|line rest IH]; intros s prev; simpl; [done|].
  destruct (rule s prev line) eqn:Hr; simpl.
  - by rewrite rule_blank_r, upd_blank, rule_blank_l, IH.
  - by rewrite Hr, IH.
Qed.

Lemma gap_stable_fixed s prev ls :
  gap_stable rule upd s prev ls = true -> gap_pass rule upd s prev ls = ls.
Proof.
  revert s prev. induction ls as [|line rest IH]; intros s prev; simpl; [done|].
  intros [Hr%negb_true_iff H]%andb_true_iff. rewrite Hr. simpl. by rewrite IH.
Qed.

Lemma gap_stable_inserted s prev ls ls' :
  blank_inserted ls ls' ->
  gap_stable rule upd s prev ls = true -> gap_stable rule upd s prev ls' = true.
Proof.
  intros Hins. revert s prev.
  induction Hins as [|l ls ls' _ IH|ls ls' _ IH]; intros s prev; simpl.
  - done.
  - intros [-> H]%andb_true_iff. simpl. by apply IH.
  - intros H. rewrite rule_blank_r, upd_blank. simpl.
    apply IH. by eapply gap_stable_blank_prev.
Qed.

Lemma gap_stable_app_l s prev ls1 ls2 :
  gap_stable rule upd s prev (ls1 ++ ls2) = true ->
  gap_stable rule upd s prev ls1 = true.
Proof.
  revert s prev. induction ls1 as [|l ls1 IH]; intros s prev; simpl; [done|].
  intros [-> H]%andb_true_iff. simpl. by eapply IH.
Qed.

Lemma gap_stable_snoc_blank s prev ls :
  gap_stable rule upd s prev ls = true ->
  gap_stable rule upd s prev (ls ++ [[]]) = true.
Proof.
  revert s prev. induction ls as [|l ls IH]; intros s prev; simpl.
  - by rewrite rule_blank_r.
  - intros [-> H]%andb_true_iff. simpl. by apply IH.
Qed.

End GapPassFacts.

(** ** The loops of fix-markdown.py as gap passes *)

Section FixMarkdownLoops.
Import FixMarkdown.

Lemma prev_of_app (l1 rest : list str) :
  prev_of (l1 ++ rest) (length l1) = default [] (last l1).
Proof.
  unfold prev_of. destruct l1 as [|x l1 _] using rev_ind; [done|].
  rewrite length_app. simpl.
  replace (0 <? length l1 + 1) with true by (symmetry; apply Nat.ltb_lt; lia).
  replace (length l1 + 1 - 1) with (length l1) by lia.
  rewrite <- app_assoc. rewrite lookup_app_r by lia.
  rewrite Nat.sub_diag. by rewrite last_snoc.
Qed.

Lemma next_of_app (l1 : list str) (line : str) (rest : list str) :
  next_of (l1 ++ line :: rest) (length l1) = default [] (head rest).
Proof.
  unfold next_of. rewrite length_app. simpl.
  destruct rest as [|n rest]; simpl.
  - replace (length l1 <? length l1 + 1 - 1) with false; [done|].
    symmetry. apply Nat.ltb_ge. lia.
  - replace (length l1 <? length l1 + S (S (length rest)) - 1) with true
      by (symmetry; apply Nat.ltb_lt; lia).
    rewrite lookup_app_r by lia.
    by replace (length l1 + 1 - length l1) with 1 by lia.
Qed.

Lemma nonblank_nonempty (l : str) : nonblank l = true -> nonempty l = true.
Proof. by destruct l. Qed.

Lemma startswith_nonempty (c : ascii) (pre l : str) :
  startswith (c :: pre) l = true -> nonempty l = true.
Proof. by destruct l. Qed.

Lemma starts_hash_nonblank (l : str) : starts_hash l = true -> nonblank l = true.
Proof. apply startswith_nonempty. Qed.

Lemma heading_starts_hash (l : str) : heading l = true -> starts_hash l = true.
Proof. by intros [H _]%andb_true_iff. Qed.

Lemma last_nonempty_snoc (R : list str) (l : str) :
  last_nonempty (R ++ [l]) = nonempty l.
Proof. unfold last_nonempty. by rewrite last_snoc. Qed.

Lemma last_nonempty_last (R : list str) (l : str) :
  last R = Some l -> last_nonempty R = nonempty l.
Proof. unfold last_nonempty. by intros ->. Qed.

Lemma heading_rule_tight s a b :
  heading_rule s a b = true -> nonblank a = true /\ nonblank b = true.
Proof.
  unfold heading_rule, heading_after.
  destruct (heading a) eqn:Ha, (heading b) eqn:Hb;
    try apply heading_starts_hash, starts_hash_nonblank in Ha;
    try apply heading_starts_hash, starts_hash_nonblank in Hb;
    rewrite ?Ha, ?Hb; simpl; rewrite ?andb_false_r; try done;
    destruct (nonblank a), (nonblank b); simpl; done.
Qed.


Lemma if_same {A} (b : bool) (x : A) : (if b then x else x) = x.
Proof. by destruct b. Qed.

Lemma headings_step_spec (lines l1 : list str) (line : str) (rest R : list str) :
  lines = l1 ++ line :: rest ->
  (l1 <> [] -> last R = last l1) ->
  let prev := default [] (last l1) in
  let next := default [] (head rest) in
  headings_step lines (R ++ pending (heading_after prev line)) (length l1, line)
  = (R ++ pending (heading_rule tt prev line) ++ [line])
    ++ pending (heading_after line next).
Proof.
  intros -> HR prev next. unfold headings_step.
  rewrite prev_of_app, next_of_app. fold prev next. fold (heading line).
  assert (Hlast : nonblank prev = true -> last_nonempty R = true).
  { intros Hp. destruct l1 as [|x l1 _] using rev_ind; [done|].
    rewrite (last_nonempty_last R prev).
    - by apply nonblank_nonempty.
    - rewrite HR by (by destruct l1). unfold prev. by rewrite last_snoc. }
  assert (H0 : nonblank prev = true -> (0 <? length l1) = true).
  { intros Hp. apply Nat.ltb_lt. destruct l1; [done|simpl; lia]. }
  assert (Hn : nonblank next = true ->
            (length l1 <? length (l1 ++ line :: rest) - 1) = true).
  { intros Hp. apply Nat.ltb_lt. rewrite length_app.
    destruct rest; [done|simpl; lia]. }
  assert (Hhash : heading line = true -> starts_hash line = true)
    by apply heading_starts_hash.
  unfold heading_rule, heading_after in *.
  destruct (nonblank prev); [rewrite H0 by done; specialize (Hlast eq_refl)|];
    (destruct (nonblank next); [rewrite Hn by done|]);
    destruct (heading line); try rewrite Hhash by done;
    destruct (heading prev), (starts_hash prev), (starts_hash next),
      (startswith fence next), (nonblank line);
    cbn [andb orb negb pending]; rewrite ?andb_false_r, ?if_same;
    cbn [andb orb negb pending];
    rewrite ?last_nonempty_snoc, ?app_nil_r, ?Hlast, <- ?app_assoc; try done.
  all: destruct (starts_hash line), (startswith fence line);
    cbn [andb orb negb pending];
    rewrite ?last_nonempty_snoc, ?app_nil_r, ?Hlast, <- ?app_assoc; try done.
Qed.

Lemma heading_after_blank_r a : heading_after a [] = false.
Proof. unfold heading_after. by rewrite !andb_false_r. Qed.

Lemma headings_loop (lines rest : list str) :
  forall l1 R : list str,
  lines = l1 ++ rest ->
  (l1 <> [] -> last R = last l1) ->
  let prev := default [] (last l1) in
  foldl (headings_step lines)
    (R ++ pending (heading_after prev (default [] (head rest))))
    (enumerate_from (length l1) rest)
  = R ++ gap_pass heading_rule keep_state tt prev rest.
Proof.
  induction rest as [|line rest IH]; intros l1 R Hlines HR; cbv zeta.
  - simpl. by rewrite heading_after_blank_r.
  - cbn [enumerate_from foldl gap_pass].
    change (default [] (head (line :: rest))) with line.
    pose proof (headings_step_spec lines l1 line rest R Hlines HR) as Hs.
    cbv zeta in Hs. rewrite Hs. clear Hs.
    specialize (IH (l1 ++ [line])
      (R ++ pending (heading_rule tt (default [] (last l1)) line) ++ [line])).
    cbv zeta in IH. rewrite length_app, Nat.add_1_r, last_snoc in IH.
    change (default [] (Some line)) with line in IH.
    rewrite IH.
    + by rewrite <- !app_assoc.
    + by rewrite <- app_assoc.
    + intros _. by rewrite !app_assoc, !last_snoc.
Qed.

Lemma heading_lines_gap_pass (lines : list str) :
  heading_lines lines = gap_pass heading_rule keep_state tt [] lines.
Proof.
  unfold heading_lines.
  pose proof (headings_loop lines lines [] [] eq_refl) as H.
  cbn [length last default app] in H. apply H. done.
Qed.

(** *** The fence pass *)


Lemma is_fence_nonblank (l : str) : is_fence l = true -> nonblank l = true.
Proof. apply startswith_nonempty. Qed.

Lemma fence_rule_tight s a b :
  fence_rule s a b = true -> nonblank a = true /\ nonblank b = true.
Proof.
  unfold fence_rule, fence_after.
  destruct (is_fence a) eqn:Ha, (is_fence b) eqn:Hb;
    try apply is_fence_nonblank in Ha; try apply is_fence_nonblank in Hb;
    rewrite ?Ha, ?Hb; destruct s; simpl; rewrite ?andb_false_r; try done;
    destruct (nonblank a), (nonblank b); simpl; done.
Qed.

Lemma fences_step_spec (lines l1 : list str) (line : str) (rest R : list str)
    (s : bool) :
  lines = l1 ++ line :: rest ->
  (l1 <> [] -> last R = last l1) ->
  let prev := default [] (last l1) in
  let next := default [] (head rest) in
  fences_step lines (R ++ pending (fence_after s prev line), s) (length l1, line)
  = ((R ++ pending (fence_rule s prev line) ++ [line])
     ++ pending (fence_after (fence_upd s line) line next), fence_upd s line).
Proof.
  intros -> HR prev next. unfold fences_step.
  rewrite prev_of_app, next_of_app. fold prev next.
  assert (Hlast : nonblank prev = true -> last_nonempty R = true).
  { intros Hp. destruct l1 as [|x l1 _] using rev_ind; [done|].
    rewrite (last_nonempty_last R prev).
    - by apply nonblank_nonempty.
    - rewrite HR by (by destruct l1). unfold prev. by rewrite last_snoc. }
  assert (H0 : nonblank prev = true -> (0 <? length l1) = true).
  { intros Hp. apply Nat.ltb_lt. destruct l1; [done|simpl; lia]. }
  assert (Hn : nonblank next = true ->
            (length l1 <? length (l1 ++ line :: rest) - 1) = true).
  { intros Hp. apply Nat.ltb_lt. rewrite length_app.
    destruct rest; [done|simpl; lia]. }
  assert (Hf : is_fence line = true -> nonblank line = true)
    by apply is_fence_nonblank.
  unfold fence_rule, fence_after, fence_upd.
  destruct (nonblank prev); [rewrite H0 by done; specialize (Hlast eq_refl)|];
    (destruct (nonblank next); [rewrite Hn by done|]);
    destruct (is_fence line); try rewrite Hf by done;
    destruct s, (is_fence prev), (nonblank line);
    cbn [andb orb negb pending]; rewrite ?andb_false_r, ?if_same;
    cbn [andb orb negb pending];
    rewrite ?last_nonempty_snoc, ?app_nil_r, ?Hlast, <- ?app_assoc;
    cbn [nonempty]; rewrite <- ?app_assoc; try done.
Qed.

Lemma fence_after_blank_r s a : fence_after s a [] = false.
Proof. unfold fence_after. by rewrite !andb_false_r. Qed.

Lemma fences_loop (lines rest : list str) :
  forall (l1 R : list str) (s : bool),
  lines = l1 ++ rest ->
  (l1 <> [] -> last R = last l1) ->
  let prev := default [] (last l1) in
  (foldl (fences_step lines)
     (R ++ pending (fence_after s prev (default [] (head rest))), s)
     (enumerate_from (length l1) rest)).1
  = R ++ gap_pass fence_rule fence_upd s prev rest.
Proof.
  induction rest as [|line rest IH]; intros l1 R s Hlines HR; cbv zeta.
  - simpl. by rewrite fence_after_blank_r.
  - cbn [enumerate_from foldl gap_pass].
    change (default [] (head (line :: rest))) with line.
    pose proof (fences_step_spec lines l1 line rest R s Hlines HR) as Hs.
    cbv zeta in Hs. rewrite Hs. clear Hs.
    specialize (IH (l1 ++ [line])
      (R ++ pending (fence_rule s (default [] (last l1)) line) ++ [line])
      (fence_upd s line)).
    cbv zeta in IH. rewrite length_app, Nat.add_1_r, last_snoc in IH.
    change (default [] (Some line)) with line in IH.
    rewrite IH.
    + by rewrite <- !app_assoc.
    + by rewrite <- app_assoc.
    + intros _. by rewrite !app_assoc, !last_snoc.
Qed.

Lemma fence_lines_gap_pass (lines : list str) :
  fence_lines lines = gap_pass fence_rule fence_upd false [] lines.
Proof.
  unfold fence_lines.
  pose proof (fences_loop lines lines [] [] false eq_refl) as H.
  cbn [length last default app] in H. apply H. done.
Qed.

Lemma rstrip_with_cons_stop (p : ascii -> bool) (c : ascii) (t : str) :
  p c = false -> nonempty (rstrip_with p (c :: t)) = true.
Proof.
  intros Hc. destruct (rstrip_with_split p (c :: t)) as (ws & Hs & Hws).
  destruct (rstrip_with p (c :: t)); [|done].
  simpl in Hs. subst ws. apply Forall_cons in Hws as [Hws _]. congruence.
Qed.

Lemma nonblank_intro (ws : str) (c : ascii) (t : str) :
  Forall (fun c => isspace c = true) ws -> isspace c = false ->
  nonblank (ws ++ c :: t) = true.
Proof.
  intros Hws Hc. unfold nonblank, strip, lstrip, rstrip.
  rewrite lstrip_with_app, lstrip_with_stop by done.
  by apply rstrip_with_cons_stop.
Qed.

Lemma dash_or_star_not_space c : dash_or_star c = true -> isspace c = false.
Proof. by_cases_on_char c. Qed.

Lemma isdigit_not_space c : isdigit c = true -> isspace c = false.
Proof. by_cases_on_char c. Qed.

Lemma is_list_line_nonblank (l : str) :
  is_list_line l = true -> nonblank l = true.
Proof.
  unfold is_list_line, re_match, match_at, list_pattern.
  destruct (run _ _ _ _ _) eqn:Hrun; [intros _|done].
  cbn [run] in Hrun. unfold orelse in Hrun.
  destruct (star isspace _ [] l []) eqn:H1.
  - apply star_inv in H1 as (ws & a2 & -> & Hws & H1).
    apply one_inv in H1 as (c & a' & -> & Hc & _).
    apply nonblank_intro; [done|]. by apply dash_or_star_not_space.
  - apply one_inv in Hrun as (c & a' & -> & Hc & _).
    apply (nonblank_intro [] c a'); [done|]. by apply isdigit_not_space.
Qed.

Lemma list_rule_tight s a b :
  list_rule s a b = true -> nonblank a = true /\ nonblank b = true.
Proof.
  unfold list_rule.
  destruct (is_list_line a) eqn:Ha, (is_list_line b) eqn:Hb;
    try apply is_list_line_nonblank in Ha;
    try apply is_list_line_nonblank in Hb;
    rewrite ?Ha, ?Hb; simpl; rewrite ?andb_false_r; try done;
    destruct (nonblank a), (nonblank b); simpl; done.
Qed.

Lemma lists_step_spec (lines l1 : list str) (line : str) (rest R : list str) :
  lines = l1 ++ line :: rest ->
  (l1 <> [] -> last R = last l1) ->
  let prev := default [] (last l1) in
  lists_step lines (R, is_list_line prev) (length l1, line)
  = (R ++ pending (list_rule tt prev line) ++ [line], is_list_line line).
Proof.
  intros -> HR prev. unfold lists_step.
  rewrite prev_of_app. fold prev.
  assert (Hlast : nonblank prev = true -> last_nonempty R = true).
  { intros Hp. destruct l1 as [|x l1 _] using rev_ind; [done|].
    rewrite (last_nonempty_last R prev).
    - by apply nonblank_nonempty.
    - rewrite HR by (by destruct l1). unfold prev. by rewrite last_snoc. }
  assert (H0 : nonblank prev = true -> (0 <? length l1) = true).
  { intros Hp. apply Nat.ltb_lt. destruct l1; [done|simpl; lia]. }
  assert (Hp : is_list_line prev = true -> nonblank prev = true)
    by apply is_list_line_nonblank.
  assert (Hl : is_list_line line = true -> nonblank line = true)
    by apply is_list_line_nonblank.
  unfold list_rule.
  destruct (is_list_line prev);
    [specialize (Hp eq_refl); rewrite Hp in *;
     specialize (H0 eq_refl); specialize (Hlast eq_refl)|];
    (destruct (is_list_line line); [try rewrite Hl by done|]);
    cbn [andb orb negb pending]; rewrite ?andb_false_r;
    cbn [andb orb negb pending]; rewrite ?app_nil_r; try done.
  - rewrite Hlast. destruct (nonblank line); cbn [pending];
      by rewrite ?app_nil_r, <- ?app_assoc.
  - destruct (nonblank prev); [rewrite H0, Hlast by done|];
      rewrite ?andb_false_r; cbn [andb orb pending];
      by rewrite ?app_nil_r, <- ?app_assoc.
Qed.

Lemma lists_loop (lines rest : list str) :
  forall l1 R : list str,
  lines = l1 ++ rest ->
  (l1 <> [] -> last R = last l1) ->
  (foldl (lists_step lines) (R, is_list_line (default [] (last l1)))
     (enumerate_from (length l1) rest)).1
  = R ++ gap_pass list_rule keep_state tt (default [] (last l1)) rest.
Proof.
  induction rest as [|line rest IH]; intros l1 R Hlines HR.
  - simpl. by rewrite app_nil_r.
  - cbn [enumerate_from foldl gap_pass].
    pose proof (lists_step_spec lines l1 line rest R Hlines HR) as Hs.
    cbv zeta in Hs. rewrite Hs. clear Hs.
    specialize (IH (l1 ++ [line])
      (R ++ pending (list_rule tt (default [] (last l1)) line) ++ [line])).
    rewrite length_app, Nat.add_1_r, last_snoc in IH.
    change (default [] (Some line)) with line in IH.
    rewrite IH.
    + by rewrite <- !app_assoc.
    + by rewrite <- app_assoc.
    + intros _. by rewrite !app_assoc, !last_snoc.
Qed.

Lemma list_lines_gap_pass (lines : list str) :
  list_lines lines = gap_pass list_rule keep_state tt [] lines.
Proof.
  unfold list_lines.
  pose proof (lists_loop lines lines [] [] eq_refl) as H.
  cbn [length last default app] in H. apply H. done.
Qed.

End FixMarkdownLoops.

(** ** The fixes of fix-markdown.py on lines *)

Section FixMarkdownPipeline.
Import FixMarkdown.

Lemma blank_inserted_ok (ls ls' : list str) :
  blank_inserted ls ls' -> lines_ok ls -> lines_ok ls'.
Proof.
  intros Hins [Hne Hls]. split.
  - destruct Hins; done.
  - clear Hne. induction Hins; [done| |].
    + apply Forall_cons in Hls as [? ?]. constructor; auto.
    + constructor; [apply not_elem_of_nil|auto].
Qed.

Lemma heading_lines_inserts ls : blank_inserted ls (heading_lines ls).
Proof. rewrite heading_lines_gap_pass. apply gap_pass_inserts. Qed.

Lemma fence_lines_inserts ls : blank_inserted ls (fence_lines ls).
Proof. rewrite fence_lines_gap_pass. apply gap_pass_inserts. Qed.

Lemma list_lines_inserts ls : blank_inserted ls (list_lines ls).
Proof. rewrite list_lines_gap_pass. apply gap_pass_inserts. Qed.

(** C10: each of the three blank-line fixers only inserts empty lines: the
    lines of its output are the lines of its input, unmodified and in their
    order, with empty lines put in between. *)
Theorem blank_line_fixers_only_insert_empty_lines (content : str) :
  blank_inserted (split_lines content)
    (split_lines (fix_blank_lines_around_headings content)) /\
  blank_inserted (split_lines content)
    (split_lines (fix_blank_lines_around_fences content)) /\
  blank_inserted (split_lines content)
    (split_lines (fix_blank_lines_around_lists content)).
Proof.
  pose proof (split_lines_ok content) as Hok.
  unfold fix_blank_lines_around_headings, fix_blank_lines_around_fences,
    fix_blank_lines_around_lists. cbv zeta.
  fold (heading_lines (split_lines content)).
  fold (fence_lines (split_lines content)).
  fold (list_lines (split_lines content)).
  repeat split.
  - rewrite split_join_lines; [apply heading_lines_inserts|].
    eapply blank_inserted_ok; [apply heading_lines_inserts|done].
  - rewrite split_join_lines; [apply fence_lines_inserts|].
    eapply blank_inserted_ok; [apply fence_lines_inserts|done].
  - rewrite split_join_lines; [apply list_lines_inserts|].
    eapply blank_inserted_ok; [apply list_lines_inserts|done].
Qed.


(** The relation says what the claim says: the input is a subsequence of the
    output, and what was added are empty lines only. *)
Lemma blank_inserted_sublist (ls ls' : list str) :
  blank_inserted ls ls' -> ls `sublist_of` ls'.
Proof. induction 1; by constructor. Qed.

Lemma blank_inserted_perm (ls ls' : list str) :
  blank_inserted ls ls' ->
  ls' ≡ₚ ls ++ replicate (length ls' - length ls) [].
Proof.
  induction 1 as [|l ls ls' H IH|ls ls' H IH]; simpl.
  - done.
  - by rewrite <- IH.
  - pose proof (sublist_length _ _ (blank_inserted_sublist _ _ H)).
    replace (S (length ls') - length ls) with (S (length ls' - length ls)) by lia.
    simpl. rewrite <- Permutation_middle. by rewrite <- IH.
Qed.

(** *** Idempotence *)

Lemma map_rstrip_stripped (ls : list str) : all_stripped (map rstrip ls).
Proof.
  induction ls; simpl; constructor; [apply rstrip_with_idem|done].
Qed.

Lemma map_rstrip_fixed (ls : list str) : all_stripped ls -> map rstrip ls = ls.
Proof. induction 1; simpl; congruence. Qed.

Lemma blank_inserted_stripped (ls ls' : list str) :
  blank_inserted ls ls' -> all_stripped ls -> all_stripped ls'.
Proof.
  unfold all_stripped.
  induction 1 as [|l ls ls' _ IH|ls ls' _ IH]; intros Hs; [done| |].
  - apply Forall_cons in Hs as [? ?]. constructor; [done|by apply IH].
  - constructor; [done|by apply IH].
Qed.

Lemma fence_upd_blank s : fence_upd s [] = s.
Proof. reflexivity. Qed.

Lemma keep_state_blank s : keep_state s [] = s.
Proof. reflexivity. Qed.

Lemma passes_stable (ls : list str) :
  stable_lines (list_lines (fence_lines (heading_lines (map rstrip ls)))).
Proof.
  pose proof (heading_lines_inserts (map rstrip ls)) as H1.
  pose proof (fence_lines_inserts (heading_lines (map rstrip ls))) as H2.
  pose proof (list_lines_inserts (fence_lines (heading_lines (map rstrip ls)))) as H3.
  split; [|split; [|split]].
  - eapply blank_inserted_stripped; [exact H3|].
    eapply blank_inserted_stripped; [exact H2|].
    eapply blank_inserted_stripped; [exact H1|]. apply map_rstrip_stripped.
  - eapply gap_stable_inserted;
      [apply heading_rule_tight|apply keep_state_blank|exact H3|].
    eapply gap_stable_inserted;
      [apply heading_rule_tight|apply keep_state_blank|exact H2|].
    rewrite heading_lines_gap_pass.
    apply gap_pass_stable; [apply heading_rule_tight|apply keep_state_blank].
  - eapply gap_stable_inserted;
      [apply fence_rule_tight|apply fence_upd_blank|exact H3|].
    rewrite fence_lines_gap_pass.
    apply gap_pass_stable; [apply fence_rule_tight|apply fence_upd_blank].
  - rewrite list_lines_gap_pass.
    apply gap_pass_stable; [apply list_rule_tight|apply keep_state_blank].
Qed.

Lemma passes_fixed (ls : list str) :
  stable_lines ls ->
  list_lines (fence_lines (heading_lines (map rstrip ls))) = ls.
Proof.
  intros (Hs & Hh & Hf & Hl).
  rewrite map_rstrip_fixed by done.
  rewrite heading_lines_gap_pass, (gap_stable_fixed _ _ _ _ _ Hh).
  rewrite fence_lines_gap_pass, (gap_stable_fixed _ _ _ _ _ Hf).
  by rewrite list_lines_gap_pass, (gap_stable_fixed _ _ _ _ _ Hl).
Qed.

(** The end-of-file fix keeps a prefix of the lines and ends them with one
    empty line. *)
Lemma fix_eof_newline_lines (content : str) :
  exists ls, ls `prefix_of` split_lines content /\
    split_lines (fix_eof_newline content) = ls ++ [[]].
Proof.
  exists (split_lines (rstrip_nl content)). split.
  - destruct (rstrip_with_split is_nl content) as (ws & Hc & Hws).
    fold (rstrip_nl content) in Hc.
    assert (ws = replicate (length ws) nl) as Hrep.
    { clear Hc. induction Hws as [|c ws Hc%is_nl_true _ IH]; simpl; congruence. }
    rewrite Hc at 2. rewrite Hrep. unfold split_lines.
    rewrite split_app_seps. by eexists.
  - unfold fix_eof_newline, split_lines. apply split_snoc_sep.
Qed.

Lemma stable_lines_eof (ls p : list str) :
  stable_lines ls -> p `prefix_of` ls -> stable_lines (p ++ [[]]).
Proof.
  intros (Hs & Hh & Hf & Hl) [k ->]. split; [|split; [|split]].
  - apply Forall_app in Hs as [Hs _]. apply Forall_app. split; [done|].
    by constructor.
  - apply gap_stable_snoc_blank; [apply heading_rule_tight|].
    by eapply gap_stable_app_l.
  - apply gap_stable_snoc_blank; [apply fence_rule_tight|].
    by eapply gap_stable_app_l.
  - apply gap_stable_snoc_blank; [apply list_rule_tight|].
    by eapply gap_stable_app_l.
Qed.

Lemma fix_eof_newline_idem (content : str) :
  fix_eof_newline (fix_eof_newline content) = fix_eof_newline content.
Proof.
  unfold fix_eof_newline, rstrip_nl.
  rewrite rstrip_with_app by (by constructor). by rewrite rstrip_with_idem.
Qed.

(** The whole pipeline, on lines. *)
Lemma apply_fixes_lines (content : str) :
  apply_fixes content
  = fix_eof_newline (join_lines
      (list_lines (fence_lines (heading_lines (map rstrip (split_lines content)))))).
Proof.
  unfold apply_fixes, fix_trailing_spaces, fix_blank_lines_around_headings,
    fix_blank_lines_around_fences, fix_blank_lines_around_lists. cbv zeta.
  pose proof (rstrip_lines_ok _ (split_lines_ok content)) as H0.
  rewrite (split_join_lines _ H0).
  fold (heading_lines (map rstrip (split_lines content))).
  pose proof (blank_inserted_ok _ _ (heading_lines_inserts _) H0) as H1.
  rewrite (split_join_lines _ H1).
  fold (fence_lines (heading_lines (map rstrip (split_lines content)))).
  pose proof (blank_inserted_ok _ _ (fence_lines_inserts _) H1) as H2.
  rewrite (split_join_lines _ H2).
  done.
Qed.

Lemma apply_fixes_idempotent (content : str) :
  apply_fixes (apply_fixes content) = apply_fixes content.
Proof.
  rewrite (apply_fixes_lines (apply_fixes content)).
  rewrite (apply_fixes_lines content).
  set (X := list_lines (fence_lines (heading_lines
              (map rstrip (split_lines content))))).
  assert (lines_ok X) as HX.
  { eapply blank_inserted_ok; [apply list_lines_inserts|].
    eapply blank_inserted_ok; [apply fence_lines_inserts|].
    eapply blank_inserted_ok; [apply heading_lines_inserts|].
    apply rstrip_lines_ok, split_lines_ok. }
  destruct (fix_eof_newline_lines (join_lines X)) as (p & Hp & Heq).
  rewrite (split_join_lines _ HX) in Hp.
  rewrite Heq.
  rewrite passes_fixed by (eapply stable_lines_eof; [apply passes_stable|done]).
  rewrite <- Heq. unfold join_lines, split_lines. rewrite join_split.
  apply fix_eof_newline_idem.
Qed.

(** C3: the fix pipeline of fix-markdown.py is idempotent: applied to its
    own output it returns that output unchanged, and a second run of
    [process_markdown_file] leaves the file as it is and reports no change. *)
Theorem fix_pipeline_idempotent (content : str) :
  apply_fixes (apply_fixes content) = apply_fixes content /\
  process_markdown_file (process_markdown_file content).1
  = ((process_markdown_file content).1, false).
Proof.
  split; [apply apply_fixes_idempotent|].
  unfold process_markdown_file.
  destruct (bool_decide (apply_fixes content = content)) eqn:Hc; cbn [fst].
  - by rewrite Hc.
  - rewrite apply_fixes_idempotent. by rewrite bool_decide_eq_true_2.
Qed.

Lemma gap_pass_app {S} (rule : S -> str -> str -> bool) (upd : S -> str -> S)
    (s : S) (prev : str) (l1 l2 : list str) :
  gap_pass rule upd s prev (l1 ++ l2)
  = gap_pass rule upd s prev l1
    ++ gap_pass rule upd (foldl upd s l1) (default prev (last l1)) l2.
Proof.
  revert s prev. induction l1 as [|l l1 IH]; intros s prev; simpl.
  - done.
  - rewrite IH, <- app_assoc. simpl. f_equal. f_equal. f_equal.
    f_equal. by destruct l1 using rev_ind; [|rewrite last_cons, last_snoc].
Qed.

(** X9: in fix mode a closing fence that is followed by a non-blank line
    gets an empty line behind it, and nothing else happens between the two
    lines. *)
Lemma fix_fences_blank_after_closing (content : str) (l1 : list str)
    (f n : str) (rest : list str) :
  split_lines content = l1 ++ f :: n :: rest ->
  foldl fence_upd false l1 = true ->
  is_fence f = true -> nonblank n = true ->
  exists out1 out2,
    split_lines (fix_blank_lines_around_fences content)
    = out1 ++ f :: [] :: n :: out2 /\
    blank_inserted l1 out1 /\ blank_inserted rest out2.
Proof.
  intros Hsplit Hin Hf Hn.
  exists (gap_pass fence_rule fence_upd false [] l1),
    (gap_pass fence_rule fence_upd (fence_upd false n) n rest).
  split; [|split; apply gap_pass_inserts].
  unfold fix_blank_lines_around_fences. cbv zeta.
  fold (fence_lines (split_lines content)).
  rewrite split_join_lines
    by (eapply blank_inserted_ok; [apply fence_lines_inserts|apply split_lines_ok]).
  rewrite fence_lines_gap_pass, Hsplit, gap_pass_app, Hin. f_equal.
  assert (fence_upd true f = false) as Hclose
    by (unfold fence_upd; by rewrite Hf).
  cbn [gap_pass]. rewrite Hclose. unfold fence_rule at 1 2, fence_after.
  rewrite Hf, Hn. cbn [negb andb orb]. by rewrite ?andb_false_r.
Qed.

Lemma fix_fences_blank_after_closing_witness :
  exists out1 out2,
    split_lines (fix_blank_lines_around_fences
                   (document ["```sh"; "ls"; "```"; "text"]))
    = out1 ++ txt "```" :: [] :: txt "text" :: out2 /\
    blank_inserted [txt "```sh"; txt "ls"] out1 /\ blank_inserted [[]] out2.
Proof.
  apply (fix_fences_blank_after_closing
           (document ["```sh"; "ls"; "```"; "text"])
           [txt "```sh"; txt "ls"] (txt "```") (txt "text") [[]]);
    reflexivity.
Defined.

End FixMarkdownPipeline.

(** ** End-of-file newline (fix-markdown.py and fix-markdown-v2.py) *)

Lemma replicate_nl_all k : Forall (fun c => is_nl c = true) (replicate k nl).
Proof. induction k; simpl; constructor; done. Qed.

Lemma last_not_nl (body : str) :
  last body <> Some nl -> forall c, last body = Some c -> is_nl c = false.
Proof. intros H c Hc. apply is_nl_false. congruence. Qed.

Lemma fix_eof_newline_body (body : str) (k : nat) :
  last body <> Some nl ->
  FixMarkdown.fix_eof_newline (body ++ replicate k nl) = body ++ [nl].
Proof.
  intros Hbody. unfold FixMarkdown.fix_eof_newline, rstrip_nl.
  rewrite rstrip_with_app by apply replicate_nl_all.
  rewrite rstrip_with_fixed; [done|]. by apply last_not_nl.
Qed.

Lemma fix_eof_v2_ends_in_one_newline (content : str) :
  exists body, FixMarkdownV2.fix_eof content = body ++ [nl] /\ last body <> Some nl.
Proof.
  exists (rstrip content). split; [done|]. intros H.
  apply rstrip_with_last in H. discriminate.
Qed.

Lemma fix_eof_v2_agrees (content : str) :
  (forall c, last (rstrip_nl content) = Some c -> isspace c = false) ->
  FixMarkdownV2.fix_eof content = FixMarkdown.fix_eof_newline content.
Proof.
  intros H. unfold FixMarkdownV2.fix_eof, FixMarkdown.fix_eof_newline. f_equal.
  destruct (rstrip_with_split is_nl content) as (ws & Hs & Hws).
  fold (rstrip_nl content) in Hs. rewrite Hs at 1. unfold rstrip.
  rewrite rstrip_with_app.
  - by apply rstrip_with_fixed.
  - eapply Forall_impl; [exact Hws|]. intros c. apply is_nl_space.
Qed.

(** C8, as amended.  [fix_eof_newline] of fix-markdown.py does what the claim
    says: a content that does not end in a newline gets exactly one appended,
    two or more final newlines are collapsed to one, and a content ending in
    exactly one newline is returned unchanged.  The end-of-file fix of
    fix-markdown-v2.py strips all trailing whitespace before it appends the
    newline: its result always ends in exactly one newline, and it is the
    result of [fix_eof_newline] whenever the content, without its final
    newlines, does not end in whitespace. *)
Theorem eof_newline_normalized (content : str) :
  (last content <> Some nl ->
     FixMarkdown.fix_eof_newline content = content ++ [nl]) /\
  (forall body k, content = body ++ replicate k nl -> last body <> Some nl ->
     2 <= k -> FixMarkdown.fix_eof_newline content = body ++ [nl]) /\
  (forall body, content = body ++ [nl] -> last body <> Some nl ->
     FixMarkdown.fix_eof_newline content = content) /\
  (exists body, FixMarkdownV2.fix_eof content = body ++ [nl] /\
     last body <> Some nl) /\
  ((forall c, last (rstrip_nl content) = Some c -> isspace c = false) ->
     FixMarkdownV2.fix_eof content = FixMarkdown.fix_eof_newline content).
Proof.
  split; [|split; [|split; [|split]]].
  - intros H. rewrite <- (app_nil_r content) at 1.
    by apply (fix_eof_newline_body content 0).
  - intros body k -> Hbody _. by apply fix_eof_newline_body.
  - intros body -> Hbody. by apply (fix_eof_newline_body body 1).
  - apply fix_eof_v2_ends_in_one_newline.
  - apply fix_eof_v2_agrees.
Qed.

Lemma eof_newline_normalized_witness :
  FixMarkdown.fix_eof_newline (txt "a" ++ [nl; nl; nl]) = txt "a" ++ [nl].
Proof.
  apply (proj1 (proj2 (eof_newline_normalized (txt "a" ++ [nl; nl; nl])))
           (txt "a") 3).
  - reflexivity.
  - discriminate.
  - lia.
Defined.

(** C8, as stated, fails for fix-markdown-v2.py: a content that ends in
    exactly one newline, with a space before it, is not returned unchanged. *)
Lemma eof_v2_changes_content_ending_in_one_newline :
  let content := txt "a " ++ [nl] in
  (exists body, content = body ++ [nl] /\ last body <> Some nl) /\
  FixMarkdownV2.fix_eof content <> content.
Proof.
  split.
  - exists (txt "a "). split; [reflexivity|discriminate].
  - vm_compute. discriminate.
Qed.

(** * Further properties of the scripts *)

(** ** Line endings and trailing whitespace (fix-ansible-yaml.py) *)

Section LineEndings.
Import FixAnsibleYaml.

Lemma replace_cr_no_cr (s : str) : cr ∉ replace_cr s.
Proof.
  unfold replace_cr. induction s as [|c t IH]; simpl.
  - apply not_elem_of_nil.
  - apply not_elem_of_cons. split; [|done].
    destruct (Ascii.eqb_spec c cr); [done|congruence].
Qed.

Lemma replace_cr_fixed (s : str) : cr ∉ s -> replace_cr s = s.
Proof.
  unfold replace_cr. induction s as [|c t IH]; [done|].
  intros [Hc Ht]%not_elem_of_cons. simpl. rewrite IH by done.
  destruct (Ascii.eqb_spec c cr); congruence.
Qed.

Lemma replace_crlf_cons (c d : ascii) (t : str) :
  replace_crlf (c :: d :: t)
  = if Ascii.eqb c cr && Ascii.eqb d nl then nl :: replace_crlf t
    else c :: replace_crlf (d :: t).
Proof. reflexivity. Qed.

Lemma replace_crlf_fixed (s : str) : cr ∉ s -> replace_crlf s = s.
Proof.
  induction s as [|c t IH]; [done|].
  intros [Hc Ht]%not_elem_of_cons. destruct t as [|d t']; [done|].
  rewrite replace_crlf_cons, (IH Ht).
  destruct (Ascii.eqb_spec c cr); [congruence|done].
Qed.

(** X1: [fix_line_endings] leaves no carriage return in the content, its
    flag tells whether the content held one, and applied to its own output
    it changes nothing. *)
Theorem line_endings_normalized (content : str) :
  (cr ∉ (fix_line_endings content).1) /\
  (fix_line_endings content).2 = bool_decide (cr ∈ content) /\
  fix_line_endings (fix_line_endings content).1
  = ((fix_line_endings content).1, false).
Proof.
  assert (Hno : cr ∉ (fix_line_endings content).1) by apply replace_cr_no_cr.
  assert (Hfix : forall s, cr ∉ s -> fix_line_endings s = (s, false)).
  { intros s Hs. unfold fix_line_endings.
    rewrite (replace_crlf_fixed s Hs), (replace_cr_fixed s Hs).
    by rewrite bool_decide_eq_true_2. }
  split; [done|]. split; [|by apply Hfix].
  destruct (decide (cr ∈ content)) as [Hin|Hout].
  - rewrite (bool_decide_eq_true_2 _ Hin). unfold fix_line_endings in *.
    cbn [fst snd] in *. apply negb_true_iff, bool_decide_eq_false.
    intros Heq. rewrite Heq in Hno. done.
  - rewrite (bool_decide_eq_false_2 _ Hout). by rewrite (Hfix _ Hout).
Qed.

(** X2: [fix_trailing_spaces] leaves no line with trailing whitespace and
    keeps the number of lines; its flag tells whether the content changed;
    fix-markdown.py's function of the same name returns the same content;
    and a second pass changes nothing. *)
Theorem trailing_whitespace_removed (content : str) :
  all_stripped (split_lines (fix_trailing_spaces content).1) /\
  length (split_lines (fix_trailing_spaces content).1)
  = length (split_lines content) /\
  (fix_trailing_spaces content).2
  = negb (bool_decide ((fix_trailing_spaces content).1 = content)) /\
  FixMarkdown.fix_trailing_spaces content = (fix_trailing_spaces content).1 /\
  fix_trailing_spaces (fix_trailing_spaces content).1
  = ((fix_trailing_spaces content).1, false).
Proof.
  unfold fix_trailing_spaces, FixMarkdown.fix_trailing_spaces. cbn [fst snd].
  pose proof (split_lines_ok content) as Hok.
  pose proof (rstrip_lines_ok _ Hok) as Hok'.
  rewrite !split_join_lines by done.
  split; [apply map_rstrip_stripped|]. split; [by rewrite length_map|].
  split.
  - f_equal. apply bool_decide_ext. split.
    + intros <-. apply join_split.
    + intros Heq. rewrite <- Heq at 1. by rewrite split_join_lines.
  - split; [done|]. rewrite map_rstrip_fixed by apply map_rstrip_stripped.
    by rewrite bool_decide_eq_true_2.
Qed.

End LineEndings.

(** ** Captured text *)

Lemma not_elem_of_Forall (c : ascii) (s : str) :
  c ∉ s <-> Forall (fun x => x <> c) s.
Proof.
  rewrite Forall_forall. split.
  - intros H x Hx ->. done.
  - intros H Hc. by apply (H c).
Qed.

Section Captures.
Context {R : Type}.
Variable P : ascii -> Prop.

Lemma run_caps r :
  forall (k : cont R) b a g x,
  run r k b a g = Some x -> Forall P a -> caps_all P g ->
  exists b' a' g', k b' a' g' = Some x /\ Forall P a' /\ caps_all P g'.
Proof.
  induction r as [| |p|s|r1 IH1 r2 IH2|r1 IH1 r2 IH2|r1 IH1|p|p|p|n r1 IH1|p|p|];
    intros k b a g x H Ha Hg; cbn [run] in H.
  - destruct b; [eauto 6|done].
  - destruct a as [|c [|]]; [eauto 6| |done]. destruct (is_nl c); [eauto 6|done].
  - apply one_inv in H as (c & a' & -> & _ & H).
    apply Forall_cons in Ha as [_ Ha]. eauto 6.
  - apply lit_inv in H as (a' & -> & H). apply Forall_app in Ha as [_ Ha]. eauto 6.
  - apply IH1 in H as (b1 & a1 & g1 & H & Ha1 & Hg1); [|done..]. eauto.
  - destruct (run r1 k b a g) eqn:H1; simpl in H.
    + rewrite <- H in *. eauto.
    + eauto.
  - destruct (run r1 k b a g) eqn:H1; simpl in H.
    + rewrite <- H in *. eauto.
    + eauto 6.
  - apply star_inv in H as (a1 & a2 & -> & _ & H).
    apply Forall_app in Ha as [_ Ha]. eauto 6.
  - apply one_inv in H as (c & a' & -> & _ & H).
    apply Forall_cons in Ha as [_ Ha].
    apply star_inv in H as (a1 & a2 & -> & _ & H).
    apply Forall_app in Ha as [_ Ha]. eauto 6.
  - apply one_inv in H as (c & a' & -> & _ & H).
    apply Forall_cons in Ha as [_ Ha].
    apply star_lazy_inv in H as (a1 & a2 & -> & _ & H).
    apply Forall_app in Ha as [_ Ha]. eauto 6.
  - apply IH1 in H as (b1 & a1 & g1 & H & Ha1 & Hg1); [|done..].
    exists b1, a1, ((n, take (length a - length a1) a) :: g1).
    split; [done|]. split; [done|]. constructor; [|done].
    cbn [snd]. by apply Forall_take.
  - destruct b as [|c b]; [eauto 6|]. destruct (p c); [done|eauto 6].
  - destruct a as [|c a]; [eauto 6|]. destruct (p c); [done|eauto 6].
  - destruct (xorb _ _); [eauto 6|done].
Qed.

End Captures.

Section CapturedText.
Variable P : ascii -> Prop.

Lemma match_at_caps r b a m :
  match_at r b a = Some m -> Forall P a ->
  caps_all P (groups m) /\ Forall P (rest m).
Proof.
  intros H Ha. unfold match_at in H.
  apply (run_caps P) in H as (b' & a' & g' & H & Ha' & Hg'); [|done|constructor].
  injection H as <-. done.
Qed.

Lemma group_all n m : caps_all P (groups m) -> Forall P (group n m).
Proof.
  unfold group. induction (groups m) as [|[k s] g IH]; intros Hg; simpl.
  - constructor.
  - apply Forall_cons in Hg as [Hs Hg]. destruct (n =? k); auto.
Qed.

Lemma sub_from_all r repl :
  (forall m whole, caps_all P (groups m) -> Forall P whole ->
     Forall P (repl m whole)) ->
  forall a skip b, Forall P a -> Forall P (sub_from r repl skip b a).
Proof.
  intros Hrepl. induction a as [|c a IH]; intros skip b Ha.
  - destruct skip; simpl; [|constructor].
    destruct (match_at r b []) as [m|] eqn:Hm; [|constructor].
    rewrite app_nil_r. apply match_at_caps in Hm as [Hg _]; [|done].
    apply Hrepl; [done|]. constructor.
  - pose proof Ha as Ha'. apply Forall_cons in Ha' as [Hc Hta].
    destruct skip; simpl; [|by apply IH].
    destruct (match_at r b (c :: a)) as [m|] eqn:Hm.
    + apply match_at_caps in Hm as [Hg _]; [|done].
      apply Forall_app. split; [|by apply IH].
      apply Hrepl; [done|]. by apply Forall_take.
    + constructor; [done|by apply IH].
Qed.

End CapturedText.

(** ** Content without braces (fix-ansible-yaml.py, fix-jinja2-spacing.py) *)

Section NoBraces.
Import FixAnsibleYaml.

Lemma sub_no_start (r : regex) (repl : match_obj -> str -> str) (s : str) :
  (forall b, match_at r b [] = None) ->
  Forall (fun c => forall b' t, match_at r b' (c :: t) = None) s ->
  sub r repl s = s.
Proof.
  intros Hnil Hs. unfold sub. rewrite <- (app_nil_r s) at 1.
  rewrite sub_from_copy by done. simpl. by rewrite Hnil, app_nil_r.
Qed.

(** X6: a content without an opening brace is returned as it is, with the
    flag unset, by [fix_brace_spacing] and by [fix_jinja2_spacing]. *)
Theorem content_without_braces_unchanged (content : str) :
  "{"%char ∉ content ->
  fix_brace_spacing content = (content, false) /\
  FixJinja2Spacing.fix_jinja2_spacing content = (content, false).
Proof.
  intros Hno. unfold fix_brace_spacing, FixJinja2Spacing.fix_jinja2_spacing.
  rewrite !sub_no_start; try done.
  - by rewrite bool_decide_eq_true_2.
  - apply no_lbrace_copy; [|done]. intros c t b Hc. by apply jinja2_no_start.
  - apply no_lbrace_copy; [|done]. intros c t b Hc. by apply brace_no_start.
Qed.

Lemma content_without_braces_unchanged_witness :
  fix_brace_spacing (txt "name: web") = (txt "name: web", false) /\
  FixJinja2Spacing.fix_jinja2_spacing (txt "name: web") = (txt "name: web", false).
Proof.
  apply (content_without_braces_unchanged (txt "name: web")). compute_done.
Defined.

End NoBraces.

(** Every member of one of the tables in turn. *)
Ltac each_of H :=
  apply list_elem_of_In in H; simpl in H;
  repeat (destruct H as [<-|H]); [..|destruct H].

(** ** A second pass of the rewriting loops (fix-ansible-yaml.py) *)

Section RewriteTwice.
Import FixAnsibleYaml.

(** A loop that finds no match leaves the lines and the flag as they are. *)
Lemma entries_no_match (pattern : str -> regex)
    (entry_step : nat -> str -> loop_state -> str * str -> loop_state)
    (entries : list (str * str)) i line (st : loop_state) :
  (forall st e, re_match (pattern e.1) line = None -> entry_step i line st e = st) ->
  Forall (fun e => re_match (pattern e.1) line = None) entries ->
  foldl (entry_step i line) st entries = st.
Proof.
  intros Hstep Hall. induction Hall as [|e es He _ IH]; [done|].
  simpl. by rewrite Hstep.
Qed.

Lemma lines_no_match (pattern : str -> regex)
    (entry_step : nat -> str -> loop_state -> str * str -> loop_state)
    (entries : list (str * str)) (lines : list str) (m : bool) (todo : list nat) :
  (forall i line st e, re_match (pattern e.1) line = None ->
     entry_step i line st e = st) ->
  Forall (fun line => Forall (fun e : str * str => re_match (pattern e.1) line = None)
                        entries) lines ->
  foldl (fun (st : loop_state) i =>
           match st.1 !! i with
           | Some line => foldl (entry_step i line) st entries
           | None => st
           end) (lines, m) todo
  = (lines, m).
Proof.
  intros Hstep Hall. induction todo as [|i todo IH]; [done|].
  cbn [foldl fst]. destruct (lines !! i) as [line|] eqn:Hi; [|done].
  rewrite (entries_no_match pattern); [done|by apply Hstep|].
  rewrite Forall_lookup in Hall. by apply (Hall i).
Qed.

(** *** Truthy values *)

Lemma truthy_match_shape (o line : str) (m : match_obj) :
  re_match (truthy_pattern o) line = Some m ->
  exists indent key sep,
    group 1 m = indent ++ key ++ txt ":" ++ sep /\
    indent <> [] /\ Forall (fun c => isspace c = true) indent /\
    key <> [] /\ Forall (fun c => isword c = true) key /\
    sep <> [] /\ Forall (fun c => isspace c = true) sep.
Proof.
  unfold re_match, match_at, truthy_pattern.
  change (run (Cat Bos ?r) ?k [] ?a ?g) with (run r k [] a g).
  change (run (Cat ?r1 ?r2) ?k ?b ?a ?g) with (run r1 (run r2 k) b a g).
  change (run (Group 1 ?r) ?k ?b ?a ?g)
    with (run r (fun b' a' g' => k b' a' ((1, take (length a - length a') a) :: g'))
            b a g).
  cbn [run].
  intros (i0 & a0 & -> & Hi0 & H)%one_inv.
  apply star_inv in H as (indent & a1 & -> & Hindent & H).
  apply one_inv in H as (k0 & a2 & -> & Hk0 & H).
  apply star_inv in H as (key & a3 & -> & Hkey & H).
  apply lit_inv in H as (a4 & -> & H).
  apply one_inv in H as (s0 & a5 & -> & Hs0 & H).
  apply star_inv in H as (sep & a6 & -> & Hsep & H).
  rewrite (take_matched_eq _ ((i0 :: indent) ++ (k0 :: key) ++ txt ":" ++ s0 :: sep))
    in H by (simpl; rewrite <- ?app_assoc; simpl; by rewrite <- ?app_assoc).
  apply lit_inv in H as (a7 & -> & H).
  apply star_inv in H as (ws & a8 & -> & _ & H).
  assert (Hg : exists g3 x r, m = MatchObj ((3, g3) :: (2, x) ::
     (1, (i0 :: indent) ++ (k0 :: key) ++ txt ":" ++ s0 :: sep) :: []) r).
  { destruct (lit (txt "#") _ _ a8 _) as [x|] eqn:Hx; simpl in H.
    - injection H as ->. apply lit_inv in Hx as (a9 & -> & Hx).
      apply star_inv in Hx as (text & a10 & -> & _ & Hx).
      destruct a10 as [|c [|]]; try done.
      + injection Hx as <-. eauto.
      + destruct (is_nl c); [|done]. injection Hx as <-. eauto.
    - destruct a8 as [|c [|]]; try done.
      + injection H as <-. eauto.
      + destruct (is_nl c); [|done]. injection H as <-. eauto. }
  destruct Hg as (g3 & x & r & ->).
  exists (i0 :: indent), (k0 :: key), (s0 :: sep).
  split; [reflexivity|]. repeat split; try done; by constructor.
Qed.

Lemma truthy_fold_cases (line : str) (es : list (str * str)) :
  (Forall (fun e : str * str => re_match (truthy_pattern e.1) line = None) es /\
   foldl (truthy_rewrite_entry line) line es = line) \/
  exists e m, e ∈ es /\
    re_match (truthy_pattern e.1) line = Some m /\
    foldl (truthy_rewrite_entry line) line es = group 1 m ++ e.2 ++ group 3 m.
Proof.
  induction es as [|e es IH] using rev_ind.
  - left. by split.
  - rewrite foldl_snoc. unfold truthy_rewrite_entry at 1 3.
    destruct (re_match (truthy_pattern e.1) line) as [m|] eqn:Hm.
    + right. exists e, m. split; [apply elem_of_app; right; by constructor|].
      split; [done|]. by rewrite nonempty_or_nil.
    + destruct IH as [[Hall Heq]|(e' & m & He' & Hm' & Heq)].
      * left. split; [|done]. apply Forall_app. split; [done|]. by constructor.
      * right. exists e', m. split; [apply elem_of_app; by left|done].
Qed.

Lemma truthy_rewrite_cases (line : str) :
  (Forall (fun e : str * str => re_match (truthy_pattern e.1) line = None)
     TRUTHY_MAPPINGS /\ truthy_rewrite line = line) \/
  exists e m, e ∈ TRUTHY_MAPPINGS /\
    re_match (truthy_pattern e.1) line = Some m /\
    truthy_rewrite line = group 1 m ++ e.2 ++ group 3 m.
Proof. apply truthy_fold_cases. Qed.

Lemma truthy_rewritten_no_match (e : str * str) (line : str) (m : match_obj)
    (o : str) :
  e ∈ TRUTHY_MAPPINGS -> re_match (truthy_pattern e.1) line = Some m ->
  o ∈ truthy_keys ->
  re_match (truthy_pattern o) (group 1 m ++ e.2 ++ group 3 m) = None.
Proof.
  intros He Hm Ho.
  apply truthy_match_shape in Hm
    as (indent & key & sep & -> & Hi & Hindent & Hk & Hkey & Hs & Hsep).
  rewrite <- !app_assoc.
  unfold re_match, match_at, truthy_pattern.
  change (run (Cat Bos ?r) ?k [] ?a ?g) with (run r k [] a g).
  change (run (Cat ?r1 ?r2) ?k ?b ?a ?g) with (run r1 (run r2 k) b a g).
  change (run (Group 1 ?r) ?k ?b ?a ?g)
    with (run r (fun b' a' g' => k b' a' ((1, take (length a - length a') a) :: g'))
            b a g).
  destruct (truthy_key_head o Ho) as (o0 & ot & Ho0 & Ho0s).
  rewrite truthy_prefix_run; try done.
  - change (run (Cat ?r1 ?r2) ?k ?b ?a ?g) with (run r1 (run r2 k) b a g).
    clear -He Ho. each_of Ho; each_of He; reflexivity.
  - clear -He. intros c. each_of He; by intros [= <-].
  - intros c t b' Hc.
    change (run (Cat ?r1 ?r2) ?k ?b ?a ?g) with (run r1 (run r2 k) b a g).
    rewrite Ho0. cbn [run]. apply lit_mismatch. congruence.
Qed.

Lemma truthy_rewrite_settled (line : str) :
  Forall (fun e : str * str =>
            re_match (truthy_pattern e.1) (truthy_rewrite line) = None)
    TRUTHY_MAPPINGS.
Proof.
  destruct (truthy_rewrite_cases line) as [[Hall ->]|(e & m & He & Hm & ->)];
    [done|].
  apply Forall_forall. intros e' He'.
  apply (truthy_rewritten_no_match e line m); [done..|].
  apply list_elem_of_fmap. by exists e'.
Qed.

(** X5: a second pass of [fix_truthy_values] over its own output changes
    nothing and reports no change. *)
Theorem fix_truthy_values_idempotent (content : str) :
  fix_truthy_values (fix_truthy_values content).1
  = ((fix_truthy_values content).1, false).
Proof.
  rewrite fix_truthy_values_lines. unfold fix_truthy_values at 1. cbv zeta.
  rewrite split_join_lines
    by (apply map_no_nl_ok; [apply truthy_rewrite_no_nl|apply split_lines_ok]).
  unfold truthy_line.
  rewrite (lines_no_match truthy_pattern truthy_entry TRUTHY_MAPPINGS); [done| |].
  - intros i line st e He. unfold truthy_entry. by rewrite He.
  - apply Forall_forall. intros l (l' & -> & _)%list_elem_of_fmap.
    apply truthy_rewrite_settled.
Qed.

End RewriteTwice.

(** *** Module names *)

Section QualifyTwice.
Import FixAnsibleYaml.

Lemma fqcn_match_shape (o line : str) (m : match_obj) :
  re_match (fqcn_pattern o) line = Some m ->
  exists ws1 dash,
    group 1 m = ws1 ++ dash /\
    ws1 <> [] /\ Forall (fun c => isspace c = true) ws1 /\
    (dash = [] \/ exists ws2, dash = "-"%char :: ws2 /\ ws2 <> [] /\
                   Forall (fun c => isspace c = true) ws2).
Proof.
  unfold re_match, match_at, fqcn_pattern.
  change (run (Cat Bos ?r) ?k [] ?a ?g) with (run r k [] a g).
  change (run (Cat ?r1 ?r2) ?k ?b ?a ?g) with (run r1 (run r2 k) b a g).
  change (run (Group 1 ?r) ?k ?b ?a ?g)
    with (run r (fun b' a' g' => k b' a' ((1, take (length a - length a') a) :: g'))
            b a g).
  cbn [run].
  intros (w0 & a0 & -> & Hw0 & H)%one_inv.
  apply star_inv in H as (ws1 & a1 & -> & Hws1 & H).
  match type of H with orelse ?x _ = _ => destruct x as [y|] eqn:Hdash end;
    cbn [orelse] in H.
  - injection H as ->.
    apply lit_inv in Hdash as (a2 & -> & H).
    apply one_inv in H as (w2 & a3 & -> & Hw2 & H).
    apply star_inv in H as (ws2 & a4 & -> & Hws2 & H).
    rewrite (take_matched_eq (w0 :: ws1 ++ txt "-" ++ w2 :: ws2 ++ a4)
               ((w0 :: ws1) ++ "-"%char :: w2 :: ws2) a4) in H
      by (simpl; rewrite <- ?app_assoc; simpl; by rewrite <- ?app_assoc).
    apply lit_inv in H as (a5 & -> & H). apply lit_inv in H as (a6 & -> & H).
    injection H as <-.
    exists (w0 :: ws1), ("-"%char :: w2 :: ws2). split; [reflexivity|].
    split; [done|]. split; [by constructor|]. right.
    exists (w2 :: ws2). split; [done|]. split; [done|by constructor].
  - rewrite (take_matched_eq (w0 :: ws1 ++ a1) (w0 :: ws1) a1) in H by done.
    apply lit_inv in H as (a5 & -> & H). apply lit_inv in H as (a6 & -> & H).
    injection H as <-.
    exists (w0 :: ws1), []. split; [by rewrite app_nil_r|].
    split; [done|]. split; [by constructor|]. by left.
Qed.

(** An indented line whose text is not a short module name and its colon
    matches no pattern. *)
Lemma fqcn_no_match_tail (o ws1 dash tail : str) :
  o ∈ fqcn_keys ->
  ws1 <> [] -> Forall (fun c => isspace c = true) ws1 ->
  (dash = [] \/ exists ws2, dash = "-"%char :: ws2 /\ ws2 <> [] /\
                 Forall (fun c => isspace c = true) ws2) ->
  (exists c t, tail = c :: t /\ isspace c = false /\ c <> "-"%char) ->
  (forall b g, run (Group 2 (Cat (Lit o) (Lit (txt ":")))) finish b tail g = None) ->
  re_match (fqcn_pattern o) (ws1 ++ dash ++ tail) = None.
Proof.
  intros Ho H1 Hws1 Hdash (n0 & nt & Hn0 & Hn0s & Hn0d) Htail.
  destruct (fqcn_key_head o Ho) as (o0 & ot & Ho0 & Ho0s & Ho0d).
  unfold re_match, match_at, fqcn_pattern.
  change (run (Cat Bos ?r) ?k [] ?a ?g) with (run r k [] a g).
  change (run (Cat ?r1 ?r2) ?k ?b ?a ?g) with (run r1 (run r2 k) b a g).
  change (run (Group 1 ?r) ?k ?b ?a ?g)
    with (run r (fun b' a' g' => k b' a' ((1, take (length a - length a') a) :: g'))
            b a g).
  change (run (Cat ?r1 ?r2) ?k ?b ?a ?g) with (run r1 (run r2 k) b a g).
  change (run (Plus ?p) ?k ?b ?a ?g) with (one p (star p k) b a g).
  assert (Hname_fail : forall c t b' g',
    isspace c = true ->
    run (Group 2 (Cat (Lit o) (Lit (txt ":")))) finish b' (c :: t) g' = None).
  { intros c t b' g' Hc. rewrite Ho0. apply lit_mismatch. congruence. }
  destruct ws1 as [|w1 ws1]; [done|]. apply Forall_cons in Hws1 as [Hw1 Hws1].
  cbn [app one]. rewrite Hw1.
  rewrite star_exact; [|done| |].
  2:{ intros c. destruct Hdash as [->|(ws2 & -> & _)].
      - rewrite Hn0. by intros [= <-].
      - by intros [= <-]. }
  2:{ intros c t b' Hc.
      change (run (Opt ?r) ?k ?b ?a ?g) with (orelse (run r k b a g) (k b a g)).
      change (run (Cat (Lit ?s) ?r2) ?k ?b ?a ?g) with (lit s (run r2 k) b a g).
      change (txt "-") with ["-"%char]. rewrite lit_mismatch.
      - apply Hname_fail, Hc.
      - intros <-. discriminate. }
  change (run (Opt ?r) ?k ?b ?a ?g) with (orelse (run r k b a g) (k b a g)).
  destruct Hdash as [->|(ws2 & -> & H2 & Hws2)].
  - change (run (Cat (Lit ?s) ?r2) ?k ?b ?a ?g) with (lit s (run r2 k) b a g).
    change (txt "-") with ["-"%char].
    cbn [app]. rewrite Hn0 at 1. rewrite lit_mismatch by done.
    cbn [orelse]. apply Htail.
  - change (run (Cat ?r1 ?r2) ?k ?b ?a ?g) with (run r1 (run r2 k) b a g).
    change (run (Plus ?p) ?k ?b ?a ?g) with (one p (star p k) b a g).
    destruct ws2 as [|w2 ws2]; [done|]. apply Forall_cons in Hws2 as [Hw2 Hws2].
    change (run (Lit ?s) ?k ?b ?a ?g) with (lit s k b a g).
    change (txt "-") with ["-"%char].
    cbn [lit app]. rewrite Ascii.eqb_refl.
    change (run (Plus ?p) ?k ?b ?a ?g) with (one p (star p k) b a g).
    cbn [one]. rewrite Hw2.
    rewrite star_exact; [|done| |].
    2:{ intros c. rewrite Hn0. by intros [= <-]. }
    2:{ intros c t b' Hc. apply Hname_fail, Hc. }
    rewrite Htail. cbn [orelse].
    rewrite Ho0. apply lit_mismatch. congruence.
Qed.

Lemma fqcn_fold_cases (line : str) (es : list (str * str)) :
  (Forall (fun e : str * str => re_match (fqcn_pattern e.1) line = None) es /\
   foldl (fqcn_rewrite_entry line) line es = line) \/
  exists e m, e ∈ es /\
    re_match (fqcn_pattern e.1) line = Some m /\
    foldl (fqcn_rewrite_entry line) line es = group 1 m ++ e.2 ++ txt ":".
Proof.
  induction es as [|e es IH] using rev_ind.
  - left. by split.
  - rewrite foldl_snoc. unfold fqcn_rewrite_entry at 1 3.
    destruct (re_match (fqcn_pattern e.1) line) as [m|] eqn:Hm.
    + right. exists e, m. split; [apply elem_of_app; right; by constructor|done].
    + destruct IH as [[Hall Heq]|(e' & m & He' & Hm' & Heq)].
      * left. split; [|done]. apply Forall_app. split; [done|]. by constructor.
      * right. exists e', m. split; [apply elem_of_app; by left|done].
Qed.

Lemma fqcn_rewritten_no_match (e : str * str) (line : str) (m : match_obj)
    (o : str) :
  e ∈ FQCN_MAPPINGS -> re_match (fqcn_pattern e.1) line = Some m ->
  o ∈ fqcn_keys ->
  re_match (fqcn_pattern o) (group 1 m ++ e.2 ++ txt ":") = None.
Proof.
  intros He Hm Ho.
  apply fqcn_match_shape in Hm as (ws1 & dash & -> & H1 & Hws1 & Hdash).
  rewrite <- app_assoc. apply fqcn_no_match_tail; try done.
  - clear -He. each_of He; by eexists _, _.
  - intros b g. clear -He Ho. each_of Ho; each_of He; reflexivity.
Qed.

Lemma fqcn_rewrite_settled (line : str) :
  Forall (fun e : str * str =>
            re_match (fqcn_pattern e.1) (fqcn_rewrite line) = None)
    FQCN_MAPPINGS.
Proof.
  unfold fqcn_rewrite.
  destruct (fqcn_fold_cases line FQCN_MAPPINGS)
    as [[Hall ->]|(e & m & He & Hm & ->)]; [done|].
  apply Forall_forall. intros e' He'.
  apply (fqcn_rewritten_no_match e line m); [done..|].
  apply list_elem_of_fmap. by exists e'.
Qed.

(** X3: a second pass of [fix_fqcn] over its own output changes nothing and
    reports no change: a qualified module name is not qualified again. *)
Theorem fix_fqcn_idempotent (content : str) :
  fix_fqcn (fix_fqcn content).1 = ((fix_fqcn content).1, false).
Proof.
  rewrite fix_fqcn_lines. unfold fix_fqcn at 1. cbv zeta.
  rewrite split_join_lines
    by (apply map_no_nl_ok; [apply fqcn_rewrite_no_nl|apply split_lines_ok]).
  unfold fqcn_line.
  rewrite (lines_no_match fqcn_pattern fqcn_entry FQCN_MAPPINGS); [done| |].
  - intros i line st e He. unfold fqcn_entry. by rewrite He.
  - apply Forall_forall. intros l (l' & -> & _)%list_elem_of_fmap.
    apply fqcn_rewrite_settled.
Qed.

End QualifyTwice.

(** ** The file after [process_file] (fix-ansible-yaml.py) *)

Section AnsiblePipeline.
Import FixAnsibleYaml.











End AnsiblePipeline.

(** ** The rules of the checker (check-markdown.py) *)

Section CheckRules.
Import CheckMarkdown.

Lemma check_step_state lines st i line :
  in_code_block (check_step lines st (i, line)) = toggled (in_code_block st) line /\
  prev_line (check_step lines st (i, line)) = rstrip_nl line.
Proof.
  unfold check_step, check_fence, toggled.
  destruct (startswith fence (rstrip_nl line)); done.
Qed.

(** Every issue of one step, with the condition under which it is added. *)
Lemma elem_of_check_step lines icb prev i line x :
  x ∈ issues (check_step lines (Scan [] icb prev) (i, line)) <->
  (x = MD040 i /\ startswith fence (rstrip_nl line) = true /\ icb = true /\
     rstrip_nl line = fence) \/
  (x = MD031_before i /\ startswith fence (rstrip_nl line) = true /\ icb = true /\
     nonblank prev = true /\ 1 < i /\ startswith (txt "#") prev = false) \/
  (x = MD031_after i /\ startswith fence (rstrip_nl line) = true /\ icb = false /\
     i < length lines /\ nonblank (line_after lines i) = true) \/
  (x = MD022_before i /\ is_heading (rstrip_nl line) = true /\ 1 < i /\
     nonblank prev = true) \/
  (x = MD022_after i /\ is_heading (rstrip_nl line) = true /\ i < length lines /\
     nonblank (line_after lines i) = true /\
     startswith (txt "#") (line_after lines i) = false) \/
  (x = MD009 i (length (rstrip_nl line) - length (rstrip (rstrip_nl line))) /\
     rstrip_nl line <> rstrip (rstrip_nl line) /\
     length (rstrip_nl line) - length (rstrip (rstrip_nl line)) <> 2) \/
  (x = MD013 i (length (rstrip_nl line)) /\ 120 < length (rstrip_nl line) /\
     toggled icb line = false /\
     startswith (txt "http") (rstrip_nl line) = false) \/
  (exists url, x = MD034 i (take 50 url) /\ toggled icb line = false /\
     url ∈ findall url_pattern line).
Proof.
  unfold check_step, check_fence, check_heading, check_trailing, check_length,
    check_urls, toggled.
  cbn [issues in_code_block prev_line].
  set (lr := rstrip_nl line). set (la := line_after lines i).
  destruct (startswith fence lr) eqn:Hf; destruct icb; cbn [negb andb];
    destruct (is_heading lr) eqn:Hh;
    destruct (bool_decide (lr = rstrip lr)) eqn:Hs; cbn [negb issues];
    change map with (@fmap list _);
    rewrite ?elem_of_app, ?elem_of_emit, ?elem_of_nil, ?list_elem_of_fmap,
      ?andb_true_iff, ?negb_true_iff, ?Nat.ltb_lt, ?bool_decide_eq_true,
      ?bool_decide_eq_false, ?list_elem_of_singleton;
    try apply bool_decide_eq_true in Hs; try apply bool_decide_eq_false in Hs.
  all: split; intros H;
    repeat match goal with
    | H : _ \/ _ |- _ => destruct H as [H|H]
    | H : _ /\ _ |- _ => destruct H
    | H : ex _ |- _ => destruct H
    | H : False |- _ => destruct H
    end; subst; try congruence; try lia;
    first [tauto | eauto 20].
Qed.

Lemma scan_before_prev lines j line :
  lines !! j = Some line -> prev_line (scan_before lines (S j)) = rstrip_nl line.
Proof.
  intros Hj. rewrite (scan_before_S _ _ _ Hj). apply check_step_state.
Qed.

Lemma scan_before_toggled lines j line :
  lines !! j = Some line ->
  in_code_block (scan_before lines (S j))
  = toggled (in_code_block (scan_before lines j)) line.
Proof.
  intros Hj. rewrite (scan_before_S _ _ _ Hj). apply check_step_state.
Qed.

End CheckRules.

(** ** The lines read (check-markdown.py) *)

Section ReadLines.
Import CheckMarkdown.

Lemma readlines_nil (s : str) : readlines s = [] <-> s = [].
Proof.
  split; [|by intros ->]. destruct s as [|c t]; [done|]. simpl.
  destruct (is_nl c); [done|]. by destruct (readlines t).
Qed.

(** A line read is a body without newline and its terminator; only the last
    line can lack it. *)
Lemma readlines_cons_nl (t : str) : readlines (nl :: t) = [nl] :: readlines t.
Proof. reflexivity. Qed.

Lemma readlines_app_nl (l t : str) :
  nl ∉ l -> readlines (l ++ nl :: t) = (l ++ [nl]) :: readlines t.
Proof.
  induction l as [|c l IH]; intros Hl; [done|].
  apply not_elem_of_cons in Hl as [Hc Hl]. simpl.
  apply not_eq_sym, is_nl_false in Hc. rewrite Hc. by rewrite (IH Hl).
Qed.

Lemma readlines_line (l : str) : nl ∉ l -> l <> [] -> readlines l = [l].
Proof.
  induction l as [|c l IH]; intros Hl Hne; [done|].
  apply not_elem_of_cons in Hl as [Hc Hl]. simpl.
  apply not_eq_sym, is_nl_false in Hc. rewrite Hc.
  destruct l as [|d l]; [done|]. by rewrite (IH Hl).
Qed.

Lemma readlines_document (ls : list str) :
  Forall (fun l => nl ∉ l) ls ->
  readlines (concat (map (fun l => l ++ [nl]) ls)) = map (fun l => l ++ [nl]) ls.
Proof.
  induction 1 as [|l ls Hl _ IH]; [done|]. simpl.
  rewrite <- app_assoc. simpl. by rewrite readlines_app_nl, IH.
Qed.

(** The last line read ends the content. *)
Lemma readlines_last (s : str) (l : str) :
  last (readlines s) = Some l ->
  l <> [] /\ last l = last s /\ ~ (exists b, l = b ++ [nl; nl]).
Proof.
  revert l. induction s as [|c t IH]; intros l; [done|]. simpl.
  destruct (is_nl c) eqn:Hc.
  - apply is_nl_true in Hc as ->.
    destruct (readlines t) as [|l' ls] eqn:Ht.
    + apply readlines_nil in Ht as ->. intros [= <-].
      split; [done|]. split; [done|]. intros (b & Hb).
      destruct b as [|? [|]]; done.
    + rewrite last_cons_cons. intros Hl. destruct (IH _ Hl) as (Hne & Hlast & Hnn).
      split; [done|]. split; [|done]. rewrite Hlast.
      destruct t; [done|]. done.
  - destruct (readlines t) as [|l' ls] eqn:Ht.
    + apply readlines_nil in Ht as ->. intros [= <-].
      split; [done|]. split; [done|]. intros (b & Hb).
      destruct b as [|? [|]]; done.
    + destruct ls as [|l'' ls].
      * intros [= <-]. destruct (IH l' eq_refl) as (Hne & Hlast & Hnn).
        split; [done|]. split.
        -- destruct l', t; try done.
        -- intros (b & Hb). destruct b as [|b0 b].
           ++ injection Hb as -> ->. done.
           ++ injection Hb as -> ->. apply Hnn. by exists b.
      * rewrite !last_cons_cons. intros Hl.
        destruct (IH l) as (Hne & Hlast & Hnn).
        { by rewrite last_cons_cons. }
        split; [done|]. split; [|done]. rewrite Hlast. by destruct t.
Qed.

End ReadLines.

(** ** Where the issues of a report come from (check-markdown.py) *)

Section CheckerFacts.
Import CheckMarkdown.

Lemma startswith_spec (pre s : str) :
  startswith pre s = true <-> exists t, s = pre ++ t.
Proof.
  revert s. induction pre as [|p pre IH]; intros s.
  - split; [by exists s|done].
  - destruct s as [|c s].
    + split; [done|]. by intros (t & ?).
    + change (startswith (p :: pre) (c :: s))
        with (Ascii.eqb p c && startswith pre s).
      rewrite andb_true_iff, IH. split.
      * intros [Hc (t & ->)]. apply Ascii.eqb_eq in Hc as ->. by exists t.
      * intros (t & [= -> ->]). split; [apply Ascii.eqb_refl|by exists t].
Qed.

Lemma endswith_spec (suf s : str) :
  endswith suf s = true <-> exists b, s = b ++ suf.
Proof.
  unfold endswith. rewrite startswith_spec. split.
  - intros (t & Ht). exists (reverse t).
    apply (f_equal reverse) in Ht. rewrite reverse_involutive in Ht.
    by rewrite Ht, reverse_app, reverse_involutive.
  - intros (b & ->). exists (reverse b). by rewrite reverse_app.
Qed.

Lemma endswith_last (c : ascii) (s : str) :
  endswith [c] s = true <-> last s = Some c.
Proof.
  rewrite endswith_spec. split.
  - intros (b & ->). by rewrite last_snoc.
  - intros H. destruct s as [|x s _] using rev_ind; [done|].
    rewrite last_snoc in H. injection H as ->. by exists s.
Qed.

(** Every issue of a report but those of the end of the file was added by
    the step of some line. *)
Lemma elem_of_check_file (content : str) (x : issue) :
  x <> MD047_multiple -> x <> MD047_missing ->
  x ∈ check_file content <->
  exists j line, readlines content !! j = Some line /\
    x ∈ issues (check_step (readlines content)
                  (Scan [] (in_code_block (scan_before (readlines content) j))
                     (prev_line (scan_before (readlines content) j)))
                  (S j, line)).
Proof.
  intros H1 H2. unfold check_file. rewrite elem_of_check_lines by done.
  rewrite elem_of_scan_issues by done. unfold fresh. split.
  - intros (j & line & _ & Hj & Hx). by exists j, line.
  - intros (j & line & Hj & Hx). exists j, line.
    split; [by eapply lookup_lt_Some|done].
Qed.

Lemma line_issue_of_step lines icb prev i line x :
  x ∈ issues (check_step lines (Scan [] icb prev) (i, line)) ->
  issue_line x = Some i.
Proof.
  rewrite elem_of_check_step.
  intros [H|[H|[H|[H|[H|[H|[H|H]]]]]]];
    try (destruct H as [-> _]; done).
  by destruct H as (url & -> & _).
Qed.

Lemma scan_issues_lines lines n x :
  n <= length lines -> x ∈ issues (scan_before lines n) ->
  exists i, issue_line x = Some i /\ 1 <= i <= n.
Proof.
  intros Hn (j & line & Hj & _ & Hx)%elem_of_scan_issues; [|done].
  apply line_issue_of_step in Hx. exists (S j). split; [done|lia].
Qed.

Lemma check_file_eof (content : str) :
  (MD047_multiple ∉ check_file content) /\
  (MD047_missing ∈ check_file content <->
   content <> [] /\ last content <> Some nl).
Proof.
  unfold check_file, check_lines.
  rewrite <- scan_before_all.
  set (lines := readlines content).
  assert (Hscan : forall x, issue_line x = None ->
            x ∉ issues (scan_before lines (length lines))).
  { intros x Hx Hin. apply scan_issues_lines in Hin as (i & Hi & _); [|done].
    congruence. }
  destruct (last lines) as [l|] eqn:Hlast.
  - pose proof Hlast as Hl. apply readlines_last in Hl as (Hne & Hl & Hnn).
    assert (Hc : content <> []).
    { intros ->. done. }
    assert (Hlines : nonempty_list lines = true).
    { destruct lines; done. }
    rewrite Hlines. change (default [] (Some l)) with l. cbn [andb].
    destruct (endswith [nl; nl] l) eqn:H2.
    { apply endswith_spec in H2. done. }
    destruct (endswith [nl] l) eqn:H1; cbn [negb].
    + apply endswith_last in H1. split; [by apply Hscan|].
      split; [intros Hin; by apply Hscan in Hin|].
      intros [_ Hno]. congruence.
    + assert (last l <> Some nl).
      { intros H. apply endswith_last in H. congruence. }
      rewrite !elem_of_app, !list_elem_of_singleton. split.
      * intros [Hin|[=]]. by apply Hscan in Hin.
      * split; [|by right]. intros _. split; [done|congruence].
  - assert (Hnil : lines = []).
    { destruct lines as [|x lines' _] using rev_ind; [done|].
      by rewrite last_snoc in Hlast. }
    pose proof Hnil as Hc. apply readlines_nil in Hc.
    revert Hscan. rewrite Hnil. intros Hscan. cbn [nonempty_list andb].
    split; [by apply Hscan|]. split; [intros Hin; by apply Hscan in Hin|].
    intros [Hc' _]. done.
Qed.

(** X27: the issue of multiple trailing newlines is never reported, and
    the issue of a missing trailing newline is reported exactly for the
    non-empty contents that do not end in a newline. *)
Theorem end_of_file_issues (content : str) :
  (MD047_multiple ∉ check_file content) /\
  (MD047_missing ∈ check_file content <->
   content <> [] /\ last content <> Some nl).
Proof. apply check_file_eof. Qed.

Lemma end_of_file_issues_witness :
  MD047_missing ∈ check_file (txt "a").
Proof.
  apply (proj2 (proj2 (end_of_file_issues (txt "a")))). split; discriminate.
Defined.

End CheckerFacts.

(** ** The rules one by one (check-markdown.py) *)

Section CheckerRules.
Import CheckMarkdown.

(** The cases of [elem_of_check_step] for an issue of a known rule. *)
Ltac step_cases H :=
  apply elem_of_check_step in H;
  repeat (destruct H as [H|H]);
  try (destruct H as [? _]; congruence);
  try (destruct H as (? & ? & _); congruence).

Lemma line_after_Some (lines : list str) (i : nat) (P : str -> Prop) :
  ~ P [] ->
  (i < length lines /\ P (line_after lines i)) <->
  exists next, lines !! i = Some next /\ P next.
Proof.
  intros Hnil. split.
  - intros [Hi HP]. destruct (lookup_lt_is_Some_2 lines i Hi) as [next Hnext].
    exists next. by rewrite (line_after_lookup _ _ _ Hnext) in HP.
  - intros (next & Hnext & HP). rewrite (line_after_lookup _ _ _ Hnext).
    split; [by eapply lookup_lt_Some|done].
Qed.

(** X19: the issue of a code fence without language is reported for a line
    exactly when the line is the bare fence and closes a code block: the
    check is made after [in_code_block] was toggled. *)
Theorem bare_fence_issue_at_closing_fence (content : str) (j : nat) (line : str) :
  readlines content !! j = Some line ->
  MD040 (S j) ∈ check_file content <->
  rstrip_nl line = fence /\
  in_code_block (scan_before (readlines content) j) = true.
Proof.
  intros Hj. rewrite elem_of_check_file by done. split.
  - intros (j' & l & Hl & Hx). step_cases Hx.
    destruct Hx as ([= <-] & _ & Hin & Hb). by simplify_eq.
  - intros [Hb Hin]. exists j, line. split; [done|].
    apply elem_of_check_step. left. by rewrite Hb.
Qed.

Lemma bare_fence_issue_at_closing_fence_witness :
  MD040 3 ∈ check_file (document ["```python"; "code"; "```"]).
Proof.
  apply (proj2 (bare_fence_issue_at_closing_fence
                  (document ["```python"; "code"; "```"]) 2
                  (txt "```" ++ [nl]) eq_refl)).
  split; reflexivity.
Defined.

(** X20: the issue of a missing blank line before a code fence is reported
    for a line exactly when the line is a fence that closes a code block and
    the line before it is neither blank nor starts with [#]; it is never
    reported for line 1. *)
Theorem blank_before_fence_issue_at_closing_fence (content : str) (j : nat)
    (prev line : str) :
  readlines content !! j = Some prev ->
  readlines content !! S j = Some line ->
  (MD031_before (S (S j)) ∈ check_file content <->
   startswith fence (rstrip_nl line) = true /\
   in_code_block (scan_before (readlines content) (S j)) = true /\
   nonblank (rstrip_nl prev) = true /\
   startswith (txt "#") (rstrip_nl prev) = false) /\
  MD031_before 1 ∉ check_file content.
Proof.
  intros Hp Hj. rewrite !elem_of_check_file by done. split; [split|].
  - intros (j' & l & Hl & Hx). step_cases Hx.
    destruct Hx as ([= <-] & Hf & Hin & Hb & _ & Hh). simplify_eq.
    by rewrite (scan_before_prev _ _ _ Hp) in *.
  - intros (Hf & Hin & Hb & Hh). exists (S j), line. split; [done|].
    apply elem_of_check_step. right. left.
    rewrite (scan_before_prev _ _ _ Hp). repeat split; try done. lia.
  - intros (j' & l & Hl & Hx). step_cases Hx.
    destruct Hx as ([= <-] & _ & _ & _ & Hlt & _). lia.
Qed.

Lemma blank_before_fence_issue_at_closing_fence_witness :
  MD031_before 3 ∈ check_file (document ["```python"; "code"; "```"]).
Proof.
  apply (proj2 (proj1 (blank_before_fence_issue_at_closing_fence
                  (document ["```python"; "code"; "```"]) 1
                  (txt "code" ++ [nl]) (txt "```" ++ [nl]) eq_refl eq_refl))).
  repeat split; reflexivity.
Defined.

(** X21: the issue of a missing blank line after a code fence is reported
    for a line exactly when the line is a fence that opens a code block and
    a non-blank line follows it. *)
Theorem blank_after_fence_issue_at_opening_fence (content : str) (j : nat)
    (line : str) :
  readlines content !! j = Some line ->
  MD031_after (S j) ∈ check_file content <->
  startswith fence (rstrip_nl line) = true /\
  in_code_block (scan_before (readlines content) j) = false /\
  exists next, readlines content !! S j = Some next /\ nonblank next = true.
Proof.
  intros Hj. rewrite elem_of_check_file by done.
  rewrite <- (line_after_Some _ _ (fun l => nonblank l = true)) by done.
  split.
  - intros (j' & l & Hl & Hx). step_cases Hx.
    destruct Hx as ([= <-] & Hf & Hin & Hlt & Hn). by simplify_eq.
  - intros (Hf & Hin & Hlt & Hn). exists j, line. split; [done|].
    apply elem_of_check_step. right. right. left. done.
Qed.

Lemma blank_after_fence_issue_at_opening_fence_witness :
  MD031_after 1 ∈ check_file (document ["```python"; "code"; "```"]).
Proof.
  apply (proj2 (blank_after_fence_issue_at_opening_fence
                  (document ["```python"; "code"; "```"]) 0
                  (txt "```python" ++ [nl]) eq_refl)).
  split; [reflexivity|]. split; [reflexivity|].
  exists (txt "code" ++ [nl]). split; reflexivity.
Defined.

(** X22: the issue of a missing blank line before a heading is reported
    for a line exactly when the line is a heading and the line before it is
    not blank, whether or not that line is a heading too and whether or not
    the two lie in a code block; it is never reported for line 1. *)
Theorem blank_before_heading_issue (content : str) (j : nat) (prev line : str) :
  readlines content !! j = Some prev ->
  readlines content !! S j = Some line ->
  (MD022_before (S (S j)) ∈ check_file content <->
   is_heading (rstrip_nl line) = true /\ nonblank (rstrip_nl prev) = true) /\
  MD022_before 1 ∉ check_file content.
Proof.
  intros Hp Hj. rewrite !elem_of_check_file by done. split; [split|].
  - intros (j' & l & Hl & Hx). step_cases Hx.
    destruct Hx as ([= <-] & Hh & _ & Hb). simplify_eq.
    by rewrite (scan_before_prev _ _ _ Hp) in *.
  - intros (Hh & Hb). exists (S j), line. split; [done|].
    apply elem_of_check_step. do 3 right. left.
    rewrite (scan_before_prev _ _ _ Hp). repeat split; try done. lia.
  - intros (j' & l & Hl & Hx). step_cases Hx.
    destruct Hx as ([= <-] & _ & Hlt & _). lia.
Qed.

Lemma blank_before_heading_issue_witness :
  MD022_before 2 ∈ check_file (document ["# A"; "## B"]).
Proof.
  apply (proj2 (proj1 (blank_before_heading_issue (document ["# A"; "## B"]) 0
                  (txt "# A" ++ [nl]) (txt "## B" ++ [nl]) eq_refl eq_refl))).
  split; reflexivity.
Defined.

(** X23: the issue of a missing blank line after a heading is reported for
    a line exactly when the line is a heading and the line behind it is
    neither blank nor starts with [#]. *)
Theorem blank_after_heading_issue (content : str) (j : nat) (line : str) :
  readlines content !! j = Some line ->
  MD022_after (S j) ∈ check_file content <->
  is_heading (rstrip_nl line) = true /\
  exists next, readlines content !! S j = Some next /\
    nonblank next = true /\ startswith (txt "#") next = false.
Proof.
  intros Hj. rewrite elem_of_check_file by done.
  rewrite <- (line_after_Some _ _
    (fun l => nonblank l = true /\ startswith (txt "#") l = false))
    by (by intros [? _]).
  split.
  - intros (j' & l & Hl & Hx). step_cases Hx.
    destruct Hx as ([= <-] & Hh & Hlt & Hn & Hs). by simplify_eq.
  - intros (Hh & Hlt & Hn & Hs). exists j, line. split; [done|].
    apply elem_of_check_step. do 4 right. left. done.
Qed.

Lemma blank_after_heading_issue_witness :
  MD022_after 1 ∈ check_file (document ["# A"; "text"]).
Proof.
  apply (proj2 (blank_after_heading_issue (document ["# A"; "text"]) 0
                  (txt "# A" ++ [nl]) eq_refl)).
  split; [reflexivity|]. exists (txt "text" ++ [nl]).
  repeat split; reflexivity.
Defined.

(** X24: the issue of a line that is too long is reported exactly for the
    lines of more than 120 characters (the newline not counted) that do not
    start with [http] and lie outside code blocks, where the fence that
    opens a block counts as inside and the fence that closes it as
    outside; the issue carries the length. *)
Theorem long_line_issue (content : str) (j : nat) (line : str) (k : nat) :
  readlines content !! j = Some line ->
  MD013 (S j) k ∈ check_file content <->
  k = length (rstrip_nl line) /\ 120 < k /\
  in_code_block (scan_before (readlines content) (S j)) = false /\
  startswith (txt "http") (rstrip_nl line) = false.
Proof.
  intros Hj. rewrite elem_of_check_file by done.
  rewrite (scan_before_toggled _ _ _ Hj). split.
  - intros (j' & l & Hl & Hx). step_cases Hx.
    destruct Hx as ([= <- ->] & Hlen & Hin & Hh). by simplify_eq.
  - intros (-> & Hlen & Hin & Hh). exists j, line. split; [done|].
    apply elem_of_check_step. do 6 right. left. done.
Qed.

Lemma long_line_issue_witness :
  MD013 1 121 ∈ check_file (replicate 121 "a"%char ++ [nl]).
Proof.
  apply (proj2 (long_line_issue (replicate 121 "a"%char ++ [nl]) 0
                  (replicate 121 "a"%char ++ [nl]) 121 eq_refl)).
  split; [reflexivity|]. split; [lia|]. split; reflexivity.
Defined.

(** X25: the issues of bare URLs of a line are the matches of the URL
    pattern in it, each cut to 50 characters, and there are none for a line
    inside a code block. *)
Theorem bare_url_issue (content : str) (j : nat) (line u : str) :
  readlines content !! j = Some line ->
  MD034 (S j) u ∈ check_file content <->
  in_code_block (scan_before (readlines content) (S j)) = false /\
  exists url, url ∈ findall url_pattern line /\ u = take 50 url.
Proof.
  intros Hj. rewrite elem_of_check_file by done.
  rewrite (scan_before_toggled _ _ _ Hj). split.
  - intros (j' & l & Hl & Hx). step_cases Hx.
    destruct Hx as (url & [= <- ->] & Hin & Hurl). simplify_eq. eauto.
  - intros (Hin & url & Hurl & ->). exists j, line. split; [done|].
    apply elem_of_check_step. do 7 right. eauto.
Qed.

Lemma bare_url_issue_witness :
  MD034 1 (txt "http://a.b") ∈ check_file (document ["see http://a.b"]).
Proof.
  apply (proj2 (bare_url_issue (document ["see http://a.b"]) 0
                  (txt "see http://a.b" ++ [nl]) (txt "http://a.b") eq_refl)).
  split; [reflexivity|]. exists (txt "http://a.b").
  split; [|reflexivity]. vm_compute. constructor.
Defined.

End CheckerRules.

(** ** The order of a report (check-markdown.py) *)

Section CheckerReport.
Import CheckMarkdown.

Lemma scan_issues_sorted lines n :
  n <= length lines ->
  StronglySorted le (omap issue_line (issues (scan_before lines n))).
Proof.
  induction n as [|n IH]; intros Hn.
  - unfold scan_before. simpl. constructor.
  - destruct (lookup_lt_is_Some_2 lines n) as [line Hline]; [lia|].
    rewrite (scan_before_S _ _ _ Hline), check_step_issues, omap_app.
    apply StronglySorted_app. split; [|split; [apply IH; lia|]].
    + intros i1 i2 (x1 & Hx1 & Hi1)%list_elem_of_omap
        (x2 & Hx2 & Hi2)%list_elem_of_omap.
      apply scan_issues_lines in Hx1 as (i & Hi & Hle); [|lia].
      apply line_issue_of_step in Hx2. simplify_eq. lia.
    + assert (Hall : Forall (fun i => i = S n)
        (omap issue_line
           (issues (check_step lines (fresh (scan_before lines n)) (S n, line))))).
      { apply Forall_forall. intros i (x & Hx & Hi)%list_elem_of_omap.
        apply line_issue_of_step in Hx. congruence. }
      induction Hall as [|i l -> Hl IHl]; constructor; [done|].
      eapply Forall_impl; [exact Hl|]. intros i' ->. done.
Qed.

Lemma check_lines_issue_lines lines :
  omap issue_line (check_lines lines)
  = omap issue_line (issues (scan_before lines (length lines))).
Proof.
  unfold check_lines. rewrite <- scan_before_all.
  repeat case_match; rewrite ?omap_app; simpl; by rewrite ?app_nil_r.
Qed.

(** X28: a report lists the issues of lines in the order of the lines,
    and every line number in it is one of the file. *)
Theorem issues_in_line_order (content : str) :
  StronglySorted le (omap issue_line (check_file content)) /\
  Forall (fun i => 1 <= i <= length (readlines content))
    (omap issue_line (check_file content)).
Proof.
  unfold check_file. rewrite check_lines_issue_lines. split.
  - by apply scan_issues_sorted.
  - apply Forall_forall. intros i (x & Hx & Hi)%list_elem_of_omap.
    apply scan_issues_lines in Hx as (i' & Hi' & Hle); [|done]. congruence.
Qed.

End CheckerReport.

(** ** The checker on what fix-markdown.py writes *)

Section FixThenCheck.
Import CheckMarkdown.

Lemma join_lines_snoc_blank (ls : list str) :
  join_lines (ls ++ [[]]) = concat (map (fun l => l ++ [nl]) ls).
Proof.
  induction ls as [|l ls IH]; [done|].
  change (join_lines ((l :: ls) ++ [[]])) with (join_with nl (l :: ls ++ [[]])).
  destruct (ls ++ [[]]) as [|l' ls'] eqn:Hls; [by destruct ls|].
  change (join_with nl (l :: l' :: ls')) with (l ++ nl :: join_lines (l' :: ls')).
  rewrite IH. simpl. by rewrite <- app_assoc.
Qed.

(** The lines the pipeline of fix-markdown.py writes: stable, and the last
    one empty. *)
Lemma apply_fixes_output (content : str) :
  exists ls, stable_lines (ls ++ [[]]) /\ Forall (fun l => nl ∉ l) ls /\
    FixMarkdown.apply_fixes content = concat (map (fun l => l ++ [nl]) ls).
Proof.
  rewrite apply_fixes_lines.
  set (X := list_lines (fence_lines (heading_lines
              (map rstrip (split_lines content))))).
  assert (lines_ok X) as HX.
  { eapply blank_inserted_ok; [apply list_lines_inserts|].
    eapply blank_inserted_ok; [apply fence_lines_inserts|].
    eapply blank_inserted_ok; [apply heading_lines_inserts|].
    apply rstrip_lines_ok, split_lines_ok. }
  destruct (fix_eof_newline_lines (join_lines X)) as (p & Hp & Heq).
  rewrite (split_join_lines _ HX) in Hp. exists p.
  split; [eapply stable_lines_eof; [apply passes_stable|done]|].
  split.
  - destruct Hp as [k Hk]. destruct HX as [_ HX]. rewrite Hk in HX.
    by apply Forall_app in HX as [HX _].
  - rewrite <- join_lines_snoc_blank, <- Heq. unfold join_lines, split_lines.
    by rewrite join_split.
Qed.

(** X29: what the pipeline of fix-markdown.py writes passes the checker's
    rules on trailing whitespace and on the end of the file. *)
Theorem fixed_file_passes_whitespace_checks (content : str) :
  (forall i k, MD009 i k ∉ check_file (FixMarkdown.apply_fixes content)) /\
  (MD047_missing ∉ check_file (FixMarkdown.apply_fixes content)) /\
  (MD047_multiple ∉ check_file (FixMarkdown.apply_fixes content)).
Proof.
  destruct (apply_fixes_output content) as (ls & (Hs & _) & Hnl & ->).
  apply Forall_app in Hs as [Hs _].
  split; [|split].
  - intros i k Hin. apply elem_of_check_file in Hin; [|done..].
    destruct Hin as (j & line & Hj & Hx).
    apply elem_of_check_step in Hx.
    repeat (destruct Hx as [Hx|Hx]);
      try (destruct Hx as [? _]; congruence);
      try (destruct Hx as (? & ? & _); congruence).
    destruct Hx as (_ & Hne & _). apply Hne.
    rewrite readlines_document in Hj by done.
    change map with (@fmap list _) in Hj. rewrite list_lookup_fmap in Hj.
    destruct (ls !! j) as [l|] eqn:Hl; [|done]. injection Hj as <-.
    rewrite Forall_lookup in Hs, Hnl.
    specialize (Hs _ _ Hl). specialize (Hnl _ _ Hl). cbn beta in Hs, Hnl.
    assert (rstrip_nl (l ++ [nl]) = l) as ->; [|done].
    unfold rstrip_nl. rewrite rstrip_with_app by (by constructor).
    apply rstrip_with_fixed. intros c Hc. apply is_nl_false. intros ->.
    apply Hnl. destruct l as [|x l _] using rev_ind; [done|].
    rewrite last_snoc in Hc. injection Hc as ->.
    apply elem_of_app. right. by apply list_elem_of_singleton.
  - rewrite (proj2 (check_file_eof _)). intros [Hne Hlast]. apply Hlast.
    destruct ls as [|l ls _] using rev_ind; [done|].
    change map with (@fmap list _). rewrite fmap_app, concat_app. simpl.
    by rewrite app_nil_r, app_assoc, last_snoc.
  - apply check_file_eof.
Qed.

Lemma fixed_file_passes_whitespace_checks_witness :
  MD047_missing ∉ check_file (FixMarkdown.apply_fixes (txt "a  ")).
Proof.
  apply (proj1 (proj2 (fixed_file_passes_whitespace_checks (txt "a  ")))).
Defined.

End FixThenCheck.

(** ** A second pass of fix-jinja2-spacing.py *)

Section Jinja2Twice.
Import FixJinja2Spacing.

Lemma strip_without (x : ascii) (s : str) : x ∉ s -> x ∉ strip s.
Proof.
  intros Hs Hin. apply Hs. unfold strip, rstrip, lstrip in Hin.
  destruct (rstrip_with_prefix isspace (lstrip_with isspace s)) as [k Hk].
  destruct (lstrip_with_suffix isspace s) as [k' Hk'].
  rewrite Hk'. apply elem_of_app. right. rewrite Hk. apply elem_of_app. by left.
Qed.

Lemma fix_jinja2_spacing_plain (s : str) :
  "{"%char ∉ s -> (fix_jinja2_spacing s).1 = s.
Proof.
  intros Hs. unfold fix_jinja2_spacing. cbn [fst].
  apply sub_no_start; [done|].
  apply no_lbrace_copy; [|done]. intros c t b Hc. by apply jinja2_no_start.
Qed.

(** X30: on a content with one expression, [fix_jinja2_spacing] leaves the
    expression with a space behind the opening and before the closing
    braces, and a second pass changes nothing and reports no change. *)
Theorem jinja2_expression_settles (pre inner post : str) :
  "{"%char ∉ pre -> inner <> [] -> "}"%char ∉ inner -> "{"%char ∉ post ->
  let fixed := (fix_jinja2_spacing (pre ++ txt "{{" ++ inner ++ txt "}}" ++ post)).1 in
  (exists padded, fixed = pre ++ txt "{{" ++ padded ++ txt "}}" ++ post /\
     startswith (txt " ") padded = true /\ endswith (txt " ") padded = true) /\
  fix_jinja2_spacing fixed = (fixed, false).
Proof.
  intros Hpre Hne Hinner Hpost fixed.
  assert (Hfixed : exists padded,
    fixed = pre ++ txt "{{" ++ padded ++ txt "}}" ++ post /\
    padded <> [] /\ ("}"%char ∉ padded) /\
    startswith (txt " ") padded = true /\ endswith (txt " ") padded = true).
  { unfold fixed. rewrite fix_jinja2_spacing_expr by done.
    rewrite (fix_jinja2_spacing_plain post Hpost).
    destruct (startswith (txt " ") inner && endswith (txt " ") inner) eqn:Hpad.
    - exists inner. apply andb_true_iff in Hpad as [H1 H2]. by rewrite <- !app_assoc.
    - exists (txt " " ++ strip inner ++ txt " ").
      split; [by rewrite <- !app_assoc|]. split; [done|].
      split; [|split; [done|]].
      + rewrite !not_elem_of_app. split; [compute_done|].
        split; [by apply strip_without|compute_done].
      + apply endswith_spec. exists (txt " " ++ strip inner).
        by rewrite <- app_assoc. }
  destruct Hfixed as (padded & Heq & Hp & Hclose & H1 & H2).
  split; [by exists padded|].
  assert (Hagain : (fix_jinja2_spacing fixed).1 = fixed).
  { rewrite Heq at 1. rewrite fix_jinja2_spacing_expr by done.
    rewrite H1, H2. cbn [andb].
    by rewrite (fix_jinja2_spacing_plain post Hpost), <- !app_assoc. }
  unfold fix_jinja2_spacing in *. cbn [fst] in Hagain.
  by rewrite Hagain, bool_decide_eq_true_2.
Qed.

Lemma jinja2_expression_settles_witness :
  fix_jinja2_spacing (txt "name: {{ item }}") = (txt "name: {{ item }}", false).
Proof.
  apply (jinja2_expression_settles (txt "name: ") (txt "item") []);
    [compute_done|done|compute_done|compute_done].
Defined.

End Jinja2Twice.

(** ** The passes of fix-markdown.py one by one *)

Section FixMarkdownPasses.
Import FixMarkdown.

Lemma language_loop (ls R : list str) :
  foldl language_step R ls
  = R ++ map (fun line => if bool_decide (strip line = fence)
                          then txt "```text" else line) ls.
Proof.
  revert R. induction ls as [|l ls IH]; intros R; simpl.
  - by rewrite app_nil_r.
  - rewrite IH. unfold language_step.
    destruct (bool_decide (strip l = fence)); by rewrite <- app_assoc.
Qed.

(** X11: [add_language_to_fences] keeps the number of lines, turns every
    line that is a bare fence, closing fences included, into the fence with
    the language [text], leaves every other line as it is, and is
    idempotent. *)
Theorem language_added_to_every_bare_fence (content : str) :
  length (split_lines (add_language_to_fences content))
  = length (split_lines content) /\
  Forall (fun l => strip l <> fence)
    (split_lines (add_language_to_fences content)) /\
  (forall i l, split_lines content !! i = Some l ->
     split_lines (add_language_to_fences content) !! i
     = Some (if bool_decide (strip l = fence) then txt "```text" else l)) /\
  add_language_to_fences (add_language_to_fences content)
  = add_language_to_fences content.
Proof.
  unfold add_language_to_fences. rewrite !language_loop. cbn [app].
  set (f := fun line : str =>
              if bool_decide (strip line = fence) then txt "```text" else line).
  assert (Hf : forall l, nl ∉ l -> nl ∉ f l).
  { intros l Hl. unfold f. destruct (bool_decide _); [compute_done|done]. }
  assert (Hok : lines_ok (map f (split_lines content))).
  { apply map_no_nl_ok; [done|apply split_lines_ok]. }
  assert (Hff : forall l, strip (f l) <> fence).
  { intros l. unfold f. destruct (bool_decide _) eqn:Hl; [compute_done|].
    by apply bool_decide_eq_false in Hl. }
  rewrite (split_join_lines _ Hok).
  split; [by rewrite length_map|]. split; [|split].
  - apply Forall_forall. intros l (l' & -> & _)%list_elem_of_fmap. apply Hff.
  - intros i l Hi. change map with (@fmap list _).
    by rewrite list_lookup_fmap, Hi.
  - f_equal. rewrite map_map.
    apply map_ext. intros l. unfold f at 1.
    by rewrite bool_decide_eq_false_2 by apply Hff.
Qed.

Lemma language_added_to_every_bare_fence_witness :
  split_lines (add_language_to_fences (txt "```")) !! 0 = Some (txt "```text").
Proof.
  apply (proj1 (proj2 (proj2
           (language_added_to_every_bare_fence (txt "```")))) 0 (txt "```")).
  reflexivity.
Defined.

Lemma gap_pass_idem {S} (rule : S -> str -> str -> bool) (upd : S -> str -> S)
    (s : S) (ls : list str) :
  (forall s a b, rule s a b = true -> nonblank a = true /\ nonblank b = true) ->
  (forall s, upd s [] = s) ->
  lines_ok ls ->
  split_lines (join_lines (gap_pass rule upd s [] ls)) = gap_pass rule upd s [] ls /\
  gap_pass rule upd s [] (gap_pass rule upd s [] ls) = gap_pass rule upd s [] ls.
Proof.
  intros Htight Hblank Hok. split.
  - apply split_join_lines. eapply blank_inserted_ok; [|done].
    by apply gap_pass_inserts.
  - apply gap_stable_fixed. by apply gap_pass_stable.
Qed.

(** X8: each of the three blank-line fixers of fix-markdown.py is
    idempotent on its own, for every content. *)
Theorem blank_line_fixers_idempotent (content : str) :
  fix_blank_lines_around_headings (fix_blank_lines_around_headings content)
  = fix_blank_lines_around_headings content /\
  fix_blank_lines_around_fences (fix_blank_lines_around_fences content)
  = fix_blank_lines_around_fences content /\
  fix_blank_lines_around_lists (fix_blank_lines_around_lists content)
  = fix_blank_lines_around_lists content.
Proof.
  unfold fix_blank_lines_around_headings, fix_blank_lines_around_fences,
    fix_blank_lines_around_lists. cbv zeta.
  pose proof (split_lines_ok content) as Hok.
  fold (heading_lines (split_lines content)).
  fold (fence_lines (split_lines content)).
  fold (list_lines (split_lines content)).
  rewrite heading_lines_gap_pass, fence_lines_gap_pass, list_lines_gap_pass.
  destruct (gap_pass_idem heading_rule keep_state tt (split_lines content)
              heading_rule_tight keep_state_blank Hok) as [H1 H1'].
  destruct (gap_pass_idem fence_rule fence_upd false (split_lines content)
              fence_rule_tight fence_upd_blank Hok) as [H2 H2'].
  destruct (gap_pass_idem list_rule keep_state tt (split_lines content)
              list_rule_tight keep_state_blank Hok) as [H3 H3'].
  rewrite H1, H2, H3.
  fold (heading_lines (gap_pass heading_rule keep_state tt [] (split_lines content))).
  fold (fence_lines (gap_pass fence_rule fence_upd false [] (split_lines content))).
  fold (list_lines (gap_pass list_rule keep_state tt [] (split_lines content))).
  rewrite heading_lines_gap_pass, fence_lines_gap_pass, list_lines_gap_pass.
  by rewrite H1', H2', H3'.
Qed.

End FixMarkdownPasses.

(** ** What fix-markdown.py writes *)

Section FixedMarkdown.
Import FixMarkdown.

Lemma gap_stable_lookup {S} (rule : S -> str -> str -> bool) (upd : S -> str -> S)
    (ls : list str) :
  forall (s : S) (prev : str) (i : nat) (a b : str),
  gap_stable rule upd s prev ls = true ->
  ls !! i = Some a -> ls !! (Datatypes.S i) = Some b ->
  rule (foldl upd s (take (Datatypes.S i) ls)) a b = false.
Proof.
  induction ls as [|l ls IH]; intros s prev i a b Hst Ha Hb; [done|].
  cbn [gap_stable] in Hst. apply andb_true_iff in Hst as [_ Hst].
  destruct i as [|i].
  - injection Ha as ->. destruct ls as [|l' ls]; [done|]. injection Hb as ->.
    cbn [gap_stable] in Hst. apply andb_true_iff in Hst as [Hst _].
    by apply negb_true_iff in Hst.
  - cbn [take foldl]. by apply (IH (upd s l) l i a b).
Qed.

(** X10: in the output of the pipeline of fix-markdown.py no two
    neighbouring lines ask for an empty line between them, under the rule of
    any of the three passes, and neither has trailing whitespace: a later
    pass never undoes what an earlier one established. *)
Theorem fixed_markdown_needs_no_blank_line (content : str) (i : nat) (a b : str) :
  split_lines (apply_fixes content) !! i = Some a ->
  split_lines (apply_fixes content) !! S i = Some b ->
  heading_rule tt a b = false /\
  fence_rule
    (foldl fence_upd false (take (S i) (split_lines (apply_fixes content)))) a b
  = false /\
  list_rule tt a b = false /\
  rstrip a = a /\ rstrip b = b.
Proof.
  destruct (apply_fixes_output content) as (ls & (Hs & Hh & Hf & Hl) & Hnl & Heq).
  rewrite Heq, <- join_lines_snoc_blank.
  rewrite split_join_lines.
  2:{ split; [by destruct ls|]. apply Forall_app. split; [done|].
      repeat constructor. apply not_elem_of_nil. }
  intros Ha Hb.
  pose proof (gap_stable_lookup _ _ _ _ _ _ _ _ Hh Ha Hb) as H1.
  pose proof (gap_stable_lookup _ _ _ _ _ _ _ _ Hf Ha Hb) as H2.
  pose proof (gap_stable_lookup _ _ _ _ _ _ _ _ Hl Ha Hb) as H3.
  unfold all_stripped in Hs. rewrite Forall_lookup in Hs.
  split; [by destruct (foldl keep_state tt _)|]. split; [done|].
  split; [by destruct (foldl keep_state tt _)|].
  split; [by apply (Hs i)|by apply (Hs (S i))].
Qed.

Lemma fixed_markdown_needs_no_blank_line_witness :
  heading_rule tt (txt "# T") [] = false.
Proof.
  apply (fixed_markdown_needs_no_blank_line (txt "# T" ++ nl :: txt "text") 0
           (txt "# T") [] eq_refl eq_refl).
Defined.

End FixedMarkdown.

(** ** The fence pass of fix-markdown-v2.py *)

Section FenceBlanks.
Import FixMarkdown.

Lemma is_fence_v2 (l : str) : FixMarkdownV2.is_fence l = is_fence l.
Proof. reflexivity. Qed.

Lemma tag_line_nonempty s l : nonempty (tag_line s l) = nonempty l.
Proof.
  unfold tag_line. rewrite is_fence_v2.
  destruct (is_fence l) eqn:Hf; [|done].
  apply is_fence_nonblank, nonblank_nonempty in Hf.
  destruct (_ && _); [by rewrite Hf|done].
Qed.

Lemma tag_line_blank s : tag_line s [] = [].
Proof. reflexivity. Qed.

Lemma fence_blanks_step_spec (lines l1 : list str) (line : str)
    (rest R : list str) (s : bool) :
  lines = l1 ++ line :: rest ->
  (l1 <> [] -> last_nonempty R = nonempty (default [] (last l1))) ->
  let prev := default [] (last l1) in
  let next := default [] (head rest) in
  FixMarkdownV2.fence_blanks_step lines
    (R ++ pending (fence_after s prev line), s) (length l1, line)
  = ((R ++ pending (fence_rule s prev line) ++ [tag_line s line])
     ++ pending (fence_after (fence_upd s line) line next), fence_upd s line).
Proof.
  intros -> HR prev next. unfold FixMarkdownV2.fence_blanks_step, tag_line.
  rewrite prev_of_app, next_of_app. fold prev next. rewrite !is_fence_v2.
  assert (Hlast : nonblank prev = true -> last_nonempty R = true).
  { intros Hp. destruct l1 as [|x l1 _] using rev_ind; [done|].
    rewrite HR by (by destruct l1). by apply nonblank_nonempty. }
  assert (H0 : nonblank prev = true -> (0 <? length l1) = true).
  { intros Hp. apply Nat.ltb_lt. destruct l1; [done|simpl; lia]. }
  assert (Hn : nonblank next = true ->
            (length l1 <? length (l1 ++ line :: rest) - 1) = true).
  { intros Hp. apply Nat.ltb_lt. rewrite length_app.
    destruct rest; [done|simpl; lia]. }
  assert (Hf : is_fence line = true -> nonblank line = true)
    by apply is_fence_nonblank.
  unfold fence_rule, fence_after, fence_upd.
  destruct (bool_decide (strip line = fence));
  destruct (nonblank prev); [rewrite H0 by done; specialize (Hlast eq_refl)| |
                             rewrite H0 by done; specialize (Hlast eq_refl)|];
    (destruct (nonblank next); [rewrite Hn by done|]);
    destruct (is_fence line); try rewrite Hf by done;
    destruct s, (is_fence prev), (nonblank line);
    cbn [andb orb negb pending]; rewrite ?andb_false_r, ?if_same;
    cbn [andb orb negb pending];
    rewrite ?last_nonempty_snoc, ?app_nil_r, ?Hlast, <- ?app_assoc;
    cbn [nonempty]; rewrite <- ?app_assoc; try done.
Qed.

Lemma tag_pending s b ls :
  tag_opening_fences s (pending b ++ ls) = pending b ++ tag_opening_fences s ls.
Proof. destruct b; [|done]. simpl. by rewrite tag_line_blank, fence_upd_blank. Qed.

Lemma fence_blanks_loop (lines rest : list str) :
  forall (l1 R : list str) (s : bool),
  lines = l1 ++ rest ->
  (l1 <> [] -> last_nonempty R = nonempty (default [] (last l1))) ->
  let prev := default [] (last l1) in
  (foldl (FixMarkdownV2.fence_blanks_step lines)
     (R ++ pending (fence_after s prev (default [] (head rest))), s)
     (enumerate_from (length l1) rest)).1
  = R ++ tag_opening_fences s (gap_pass fence_rule fence_upd s prev rest).
Proof.
  induction rest as [|line rest IH]; intros l1 R s Hlines HR; cbv zeta.
  - simpl. by rewrite fence_after_blank_r.
  - cbn [enumerate_from foldl gap_pass].
    change (default [] (head (line :: rest))) with line.
    pose proof (fence_blanks_step_spec lines l1 line rest R s Hlines HR) as Hs.
    cbv zeta in Hs. rewrite Hs. clear Hs.
    specialize (IH (l1 ++ [line])
      (R ++ pending (fence_rule s (default [] (last l1)) line) ++ [tag_line s line])
      (fence_upd s line)).
    cbv zeta in IH. rewrite length_app, Nat.add_1_r, last_snoc in IH.
    change (default [] (Some line)) with line in IH.
    rewrite IH.
    + fold (pending (fence_rule s (default [] (last l1)) line)).
      rewrite tag_pending. cbn [tag_opening_fences]. by rewrite <- !app_assoc.
    + by rewrite <- app_assoc.
    + intros _. rewrite !app_assoc, last_nonempty_snoc. apply tag_line_nonempty.
Qed.

Lemma fence_blank_lines_tagged (lines : list str) :
  fence_blank_lines lines
  = tag_opening_fences false (gap_pass fence_rule fence_upd false [] lines).
Proof.
  unfold fence_blank_lines.
  pose proof (fence_blanks_loop lines lines [] [] false eq_refl) as H.
  cbn [length last default app] in H. apply H. done.
Qed.

Lemma tag_line_no_nl s l : nl ∉ l -> nl ∉ tag_line s l.
Proof. intros Hl. unfold tag_line. destruct (_ && _); [compute_done|done]. Qed.

Lemma tag_opening_fences_ok s ls : lines_ok ls -> lines_ok (tag_opening_fences s ls).
Proof.
  intros [Hne Hall]. split; [by destruct ls|]. clear Hne. revert s.
  induction Hall as [|l ls Hl _ IH]; intros s; simpl; constructor; [|done].
  by apply tag_line_no_nl.
Qed.

Lemma fence_lines_ok ls : lines_ok ls -> lines_ok (fence_lines ls).
Proof. intros H. eapply blank_inserted_ok; [apply fence_lines_inserts|done]. Qed.

Lemma fix_code_fence_blanks_lines (content : str) :
  split_lines (FixMarkdownV2.fix_code_fence_blanks content)
  = tag_opening_fences false (fence_lines (split_lines content)).
Proof.
  unfold FixMarkdownV2.fix_code_fence_blanks. cbv zeta.
  fold (fence_blank_lines (split_lines content)).
  rewrite fence_blank_lines_tagged, <- fence_lines_gap_pass.
  apply split_join_lines, tag_opening_fences_ok, fence_lines_ok, split_lines_ok.
Qed.

(** X13: the fence pass of fix-markdown-v2.py writes the lines the fence
    pass of fix-markdown.py writes, with the language [text] added to every
    bare fence that opens a block. *)
Theorem fence_pass_v2_tags_fence_pass (content : str) :
  split_lines (FixMarkdownV2.fix_code_fence_blanks content)
  = tag_opening_fences false
      (split_lines (fix_blank_lines_around_fences content)).
Proof.
  rewrite fix_code_fence_blanks_lines. f_equal.
  unfold fix_blank_lines_around_fences. cbv zeta.
  fold (fence_lines (split_lines content)).
  symmetry. apply split_join_lines, fence_lines_ok, split_lines_ok.
Qed.

End FenceBlanks.

(** *** A second pass *)

Section FenceBlanksIdem.
Import FixMarkdown.

Lemma is_fence_tag s l : is_fence (tag_line s l) = is_fence l.
Proof.
  unfold tag_line. change (FixMarkdownV2.is_fence l) with (is_fence l).
  destruct (is_fence l) eqn:Hf; [|done].
  destruct (_ && _); [reflexivity|done].
Qed.

Lemma nonblank_tag s l : nonblank (tag_line s l) = nonblank l.
Proof.
  unfold tag_line. change (FixMarkdownV2.is_fence l) with (is_fence l).
  destruct (is_fence l) eqn:Hf; [|done]. apply is_fence_nonblank in Hf.
  destruct (_ && _); [by rewrite Hf|done].
Qed.

Lemma strip_tag s l : strip (tag_line s l) = fence -> is_fence l && negb s = false.
Proof.
  unfold tag_line. change (FixMarkdownV2.is_fence l) with (is_fence l).
  destruct (is_fence l) eqn:Hf; [|done]. destruct s; [done|]. cbn [negb andb].
  destruct (bool_decide (strip l = fence)) eqn:Hb; [done|].
  by apply bool_decide_eq_false in Hb.
Qed.

Lemma tag_line_idem s l : tag_line s (tag_line s l) = tag_line s l.
Proof.
  unfold tag_line at 1.
  change (FixMarkdownV2.is_fence (tag_line s l)) with (is_fence (tag_line s l)).
  rewrite is_fence_tag.
  destruct (bool_decide (strip (tag_line s l) = fence)) eqn:Hb;
    [|by rewrite andb_false_r].
  apply bool_decide_eq_true, strip_tag in Hb. by rewrite Hb.
Qed.

Lemma fence_upd_tag s s' l : fence_upd s (tag_line s' l) = fence_upd s l.
Proof. unfold fence_upd. by rewrite is_fence_tag. Qed.

Lemma fence_rule_tag s s1 s2 a b :
  fence_rule s (tag_line s1 a) (tag_line s2 b) = fence_rule s a b.
Proof. unfold fence_rule, fence_after. by rewrite !is_fence_tag, !nonblank_tag. Qed.

Lemma tag_opening_fences_idem s ls :
  tag_opening_fences s (tag_opening_fences s ls) = tag_opening_fences s ls.
Proof.
  revert s. induction ls as [|l ls IH]; intros s; [done|]. simpl.
  by rewrite tag_line_idem, fence_upd_tag, IH.
Qed.

Lemma gap_stable_tag s s0 prev ls :
  gap_stable fence_rule fence_upd s (tag_line s0 prev) (tag_opening_fences s ls)
  = gap_stable fence_rule fence_upd s prev ls.
Proof.
  revert s s0 prev. induction ls as [|l ls IH]; intros s s0 prev; [done|].
  simpl. by rewrite fence_rule_tag, fence_upd_tag, IH.
Qed.

Lemma fence_lines_tagged_fixed ls :
  fence_lines (tag_opening_fences false (fence_lines ls))
  = tag_opening_fences false (fence_lines ls).
Proof.
  rewrite (fence_lines_gap_pass (tag_opening_fences _ _)).
  apply gap_stable_fixed.
  rewrite <- (tag_line_blank false), gap_stable_tag, fence_lines_gap_pass.
  apply gap_pass_stable; [apply fence_rule_tight|apply fence_upd_blank].
Qed.

(** X14: [fix_code_fence_blanks] is idempotent. *)
Theorem fence_pass_v2_idempotent (content : str) :
  FixMarkdownV2.fix_code_fence_blanks (FixMarkdownV2.fix_code_fence_blanks content)
  = FixMarkdownV2.fix_code_fence_blanks content.
Proof.
  assert (H : split_lines (FixMarkdownV2.fix_code_fence_blanks
                             (FixMarkdownV2.fix_code_fence_blanks content))
              = split_lines (FixMarkdownV2.fix_code_fence_blanks content)).
  { rewrite (fix_code_fence_blanks_lines (FixMarkdownV2.fix_code_fence_blanks _)).
    rewrite fix_code_fence_blanks_lines.
    by rewrite fence_lines_tagged_fixed, tag_opening_fences_idem. }
  apply (f_equal join_lines) in H. unfold join_lines, split_lines in H.
  by rewrite !join_split in H.
Qed.

End FenceBlanksIdem.

(** ** The URL pass of fix-markdown-v2.py *)

Section WrapUrls.
Import FixMarkdownV2.

Lemma urls_step_spec (R : list str) (s : bool) (line : str) :
  urls_step (R, s) line = (R ++ [wrap_line s line], fence_upd s line).
Proof.
  unfold urls_step, wrap_line, fence_upd.
  change (FixMarkdown.is_fence line) with (is_fence line).
  destruct (is_fence line); [done|]. destruct s; [done|].
  cbn [orb]. destruct (contains _ line && _); [done|]. cbn [orb].
  by destruct (startswith _ _ && _).
Qed.

Lemma urls_loop (ls R : list str) (s : bool) :
  (foldl urls_step (R, s) ls).1 = R ++ wrap_lines s ls.
Proof.
  revert R s. induction ls as [|l ls IH]; intros R s; cbn [foldl wrap_lines].
  - by rewrite app_nil_r.
  - by rewrite urls_step_spec, IH, <- app_assoc.
Qed.

Lemma url_repl_all (P : ascii -> Prop) (m : match_obj) (whole : str) :
  P "<"%char -> P ">"%char -> caps_all P (groups m) ->
  Forall P (url_repl m whole).
Proof.
  intros H1 H2 Hg. unfold url_repl.
  apply Forall_app. split; [by repeat constructor|].
  apply Forall_app. split; [by apply group_all|by repeat constructor].
Qed.

Lemma wrap_line_no_nl s l : nl ∉ l -> nl ∉ wrap_line s l.
Proof.
  intros Hl. unfold wrap_line. destruct (_ || _); [done|].
  apply not_elem_of_Forall. apply sub_from_all.
  - intros m whole Hg _. by apply url_repl_all.
  - by apply not_elem_of_Forall.
Qed.

Lemma wrap_lines_ok s ls : lines_ok ls -> lines_ok (wrap_lines s ls).
Proof.
  intros [Hne Hall]. split; [by destruct ls|]. clear Hne. revert s.
  induction Hall as [|l ls Hl _ IH]; intros s; simpl; constructor; [|done].
  by apply wrap_line_no_nl.
Qed.

Lemma wrap_bare_urls_careful_lines (content : str) :
  split_lines (wrap_bare_urls_careful content)
  = wrap_lines false (split_lines content).
Proof.
  unfold wrap_bare_urls_careful. rewrite urls_loop. cbn [app].
  apply split_join_lines, wrap_lines_ok, split_lines_ok.
Qed.

Lemma wrap_lines_length s ls : length (wrap_lines s ls) = length ls.
Proof. revert s. induction ls as [|l ls IH]; intros s; simpl; by rewrite ?IH. Qed.

Lemma wrap_lines_lookup s ls i l :
  ls !! i = Some l ->
  wrap_lines s ls !! i = Some (wrap_line (foldl fence_upd s (take i ls)) l).
Proof.
  revert s i. induction ls as [|x ls IH]; intros s [|i]; try done.
  - by intros [= ->].
  - simpl. apply IH.
Qed.

(** X15: [wrap_bare_urls_careful] keeps the number of lines and leaves a
    line unchanged when it is a fence, lies inside a code block, holds a
    Markdown link, or is a list item with [http] in it. *)
Theorem url_pass_keeps_protected_lines (content : str) (i : nat) (line : str) :
  split_lines content !! i = Some line ->
  is_fence line = true \/
  foldl fence_upd false (take i (split_lines content)) = true \/
  (contains "["%char line = true /\ has_substr (txt "](") line = true) \/
  (startswith (txt "- ") (strip line) = true /\
   has_substr (txt "http") line = true) ->
  split_lines (wrap_bare_urls_careful content) !! i = Some line /\
  length (split_lines (wrap_bare_urls_careful content))
  = length (split_lines content).
Proof.
  intros Hi Hp. rewrite wrap_bare_urls_careful_lines, wrap_lines_length.
  split; [|done]. rewrite (wrap_lines_lookup _ _ _ _ Hi). f_equal.
  unfold wrap_line.
  destruct Hp as [->|[->|[[-> ->]|[-> ->]]]]; by rewrite ?orb_true_r.
Qed.

Lemma url_pass_keeps_protected_lines_witness :
  split_lines (wrap_bare_urls_careful (txt "[docs](http://example.com)")) !! 0
  = Some (txt "[docs](http://example.com)").
Proof.
  apply (url_pass_keeps_protected_lines (txt "[docs](http://example.com)") 0
           (txt "[docs](http://example.com)") eq_refl).
  right. right. left. split; reflexivity.
Defined.

End WrapUrls.

(** ** The end of the file after fix-markdown-v2.py *)

Section PipelineV2.
Import FixMarkdownV2.

Lemma join_lines_snoc (A : list str) (a : str) :
  join_lines (A ++ [a]) = concat (map (fun l => l ++ [nl]) A) ++ a.
Proof.
  induction A as [|l A IH]; [done|].
  change (join_lines ((l :: A) ++ [a])) with (join_with nl (l :: A ++ [a])).
  destruct (A ++ [a]) as [|l' ls'] eqn:Hls; [by destruct A|].
  change (join_with nl (l :: l' :: ls')) with (l ++ nl :: join_lines (l' :: ls')).
  rewrite IH. simpl. by rewrite <- !app_assoc.
Qed.

Lemma tag_app s l1 l2 :
  tag_opening_fences s (l1 ++ l2)
  = tag_opening_fences s l1 ++ tag_opening_fences (foldl fence_upd s l1) l2.
Proof. revert s. induction l1 as [|l l1 IH]; intros s; simpl; by rewrite ?IH. Qed.

Lemma wrap_app s l1 l2 :
  wrap_lines s (l1 ++ l2)
  = wrap_lines s l1 ++ wrap_lines (foldl fence_upd s l1) l2.
Proof. revert s. induction l1 as [|l l1 IH]; intros s; simpl; by rewrite ?IH. Qed.

Lemma wrap_line_blank s : wrap_line s [] = [].
Proof. by destruct s. Qed.

Lemma sub_nonempty r repl a :
  (forall m whole, repl m whole <> []) -> a <> [] -> sub r repl a <> [].
Proof.
  intros Hrepl Ha. destruct a as [|c a]; [done|]. unfold sub. simpl.
  destruct (match_at r [] (c :: a)) as [m|]; [|done].
  intros H. apply app_eq_nil in H as [H _]. by apply Hrepl in H.
Qed.

Lemma wrap_line_nonempty s l : l <> [] -> wrap_line s l <> [].
Proof.
  intros Hl. unfold wrap_line. destruct (_ || _); [done|].
  apply sub_nonempty; [|done]. intros m whole. done.
Qed.

Lemma tag_line_nonnil s l : l <> [] -> tag_line s l <> [].
Proof.
  intros Hl. pose proof (tag_line_nonempty s l) as H.
  destruct l; [done|]. by destruct (tag_line s (a :: l)).
Qed.

Lemma fence_lines_final_blank ls : one_final_blank ls -> one_final_blank (fence_lines ls).
Proof.
  intros (A & a & -> & Ha). rewrite fence_lines_gap_pass, gap_pass_app.
  cbn [gap_pass].
  rewrite (rule_blank_r fence_rule fence_rule_tight). cbn [app].
  eexists (_ ++ _), a. split; [by rewrite <- app_assoc|].
  destruct Ha as [Ha| ->]; [by left|right]. cbn [gap_pass foldl last default app].
  destruct a; [|idtac].
  - by rewrite (rule_blank_r fence_rule fence_rule_tight).
  - by rewrite (rule_blank_l fence_rule fence_rule_tight).
Qed.

Lemma tag_final_blank s ls :
  one_final_blank ls -> one_final_blank (tag_opening_fences s ls).
Proof.
  intros (A & a & -> & Ha). rewrite tag_app. cbn [tag_opening_fences].
  rewrite tag_line_blank. eexists _, _. split; [done|].
  destruct Ha as [Ha| ->]; [left; by apply tag_line_nonnil|by right].
Qed.

Lemma wrap_final_blank s ls :
  one_final_blank ls -> one_final_blank (wrap_lines s ls).
Proof.
  intros (A & a & -> & Ha). rewrite wrap_app. cbn [wrap_lines].
  rewrite wrap_line_blank. eexists _, _. split; [done|].
  destruct Ha as [Ha| ->]; [left; by apply wrap_line_nonempty|by right].
Qed.

Lemma stripped_final_blank (content : str) :
  one_final_blank (map rstrip (split_lines (fix_eof content))).
Proof.
  unfold fix_eof, split_lines. rewrite split_snoc_sep.
  pose proof (split_on_nonempty nl (rstrip content)) as Hne.
  pose proof (join_split nl (rstrip content)) as Hjoin.
  destruct (split_on nl (rstrip content)) as [|a A _] using rev_ind; [done|].
  clear Hne. change map with (@fmap list _). rewrite !fmap_app. simpl.
  exists (rstrip <$> A), (rstrip a). split; [by rewrite <- app_assoc|].
  fold (join_lines (A ++ [a])) in Hjoin. rewrite join_lines_snoc in Hjoin.
  destruct a as [|z a _] using rev_ind.
  - right. rewrite app_nil_r in Hjoin.
    destruct A as [|l A _] using rev_ind; [done|]. exfalso.
    change map with (@fmap list _) in Hjoin.
    rewrite fmap_app, concat_app in Hjoin. simpl in Hjoin.
    rewrite app_nil_r, app_assoc in Hjoin.
    assert (Hl : last (rstrip content) = Some nl) by (by rewrite <- Hjoin, last_snoc).
    apply rstrip_with_last in Hl. done.
  - left. rewrite app_assoc in Hjoin.
    assert (Hl : last (rstrip content) = Some z) by (by rewrite <- Hjoin, last_snoc).
    apply rstrip_with_last in Hl.
    unfold rstrip. rewrite rstrip_with_snoc_stop by done. by destruct a.
Qed.

Lemma apply_fixes_v2_lines (content : str) :
  split_lines (apply_fixes content)
  = wrap_lines false (tag_opening_fences false (fence_lines
      (map rstrip (split_lines (fix_eof content))))).
Proof.
  unfold apply_fixes, strip_lines. cbv zeta.
  rewrite wrap_bare_urls_careful_lines, fix_code_fence_blanks_lines.
  by rewrite split_join_lines by apply rstrip_lines_ok, split_lines_ok.
Qed.

(** X17: the content the pipeline of fix-markdown-v2.py produces ends in
    exactly one newline, whatever the input. *)
Theorem pipeline_v2_ends_in_one_newline (content : str) :
  exists body, apply_fixes content = body ++ [nl] /\ last body <> Some nl.
Proof.
  pose proof (apply_fixes_v2_lines content) as Hlines.
  pose proof (split_lines_ok (apply_fixes content)) as [_ Hok].
  pose proof (wrap_final_blank false _ (tag_final_blank false _
    (fence_lines_final_blank _ (stripped_final_blank content)))) as Hshape.
  rewrite <- Hlines in Hshape. destruct Hshape as (A & a & HA & Ha).
  pose proof (join_split nl (apply_fixes content)) as Hjoin.
  fold (split_lines (apply_fixes content)) in Hjoin. rewrite HA in Hjoin, Hok.
  change [a; []] with ([a] ++ [[]]) in Hjoin.
  rewrite app_assoc in Hjoin. fold (join_lines ((A ++ [a]) ++ [[]])) in Hjoin.
  rewrite join_lines_snoc, app_nil_r in Hjoin.
  change map with (@fmap list _) in Hjoin.
  rewrite fmap_app, concat_app in Hjoin. simpl in Hjoin.
  rewrite app_nil_r, app_assoc in Hjoin.
  eexists. split; [symmetry; exact Hjoin|].
  apply Forall_app in Hok as [_ Hok]. apply Forall_cons in Hok as [Hnl _].
  destruct Ha as [Ha| ->].
  - destruct a as [|z a _] using rev_ind; [done|].
    rewrite app_assoc, last_snoc. intros [= ->]. apply Hnl.
    apply elem_of_app. right. by apply list_elem_of_singleton.
  - simpl. destruct a as [|z a _] using rev_ind; [done|].
    rewrite last_snoc. intros [= ->]. apply Hnl.
    apply elem_of_app. right. by apply list_elem_of_singleton.
Qed.

End PipelineV2.

(** ** One URL (fix-markdown-v2.py) *)

Section WrapOneUrl.
Import FixMarkdownV2.

Lemma url_no_start (c : ascii) (t b : str) :
  c <> "h"%char -> match_at url_pattern b (c :: t) = None.
Proof.
  intros Hc. unfold match_at, url_pattern.
  change (run (Cat ?r1 ?r2) ?k ?b ?a ?g) with (run r1 (run r2 k) b a g).
  cbn [run]. change (txt "http") with ("h"%char :: txt "ttp").
  rewrite lit_mismatch by congruence.
  destruct b as [|x b]; [|destruct (in_set _ x)]; try done;
    by destruct (xorb _ _).
Qed.

Lemma url_no_match_nil (b : str) : match_at url_pattern b [] = None.
Proof.
  unfold match_at, url_pattern.
  change (run (Cat ?r1 ?r2) ?k ?b ?a ?g) with (run r1 (run r2 k) b a g).
  cbn [run]. destruct b as [|x b]; [|destruct (in_set _ x)]; try done;
    by destruct (xorb _ _).
Qed.

Lemma url_match (b scheme body post : str) :
  (forall c, head b = Some c ->
     in_set (txt "(<[") c = false /\ isword c = false) ->
  scheme = txt "http" \/ scheme = txt "https" ->
  body <> [] ->
  Forall (fun c => isspace c = false /\ in_set (txt ")<>]") c = false) body ->
  (forall c, head post = Some c -> isspace c = true) ->
  match_at url_pattern b (scheme ++ txt "://" ++ body ++ post)
  = Some (MatchObj [(1, scheme ++ txt "://" ++ body)] post).
Proof.
  intros Hb Hscheme Hne Hbody Hpost. unfold match_at, url_pattern.
  change (run (Cat ?r1 ?r2) ?k ?b ?a ?g) with (run r1 (run r2 k) b a g).
  assert (Hbehind : forall (k : cont match_obj) a g,
    run (NotBehind (in_set (txt "(<["))) k b a g = k b a g).
  { intros k a g. cbn [run]. destruct b as [|x b]; [done|].
    destruct (Hb x eq_refl) as [-> _]. done. }
  rewrite Hbehind.
  change (run (Cat ?r1 ?r2) ?k ?b ?a ?g) with (run r1 (run r2 k) b a g).
  assert (Hword : forall (k : cont match_obj) t g,
    run WordB k b ("h"%char :: t) g = k b ("h"%char :: t) g).
  { intros k t g. cbn [run]. destruct b as [|x b]; [done|].
    destruct (Hb x eq_refl) as [_ ->]. done. }
  assert (Hcls : Forall (fun c => negb (isspace c || in_set (txt ")<>]") c) = true)
                   body).
  { eapply Forall_impl; [exact Hbody|]. intros c [-> ->]. done. }
  destruct body as [|c0 body]; [done|]. apply Forall_cons in Hcls as [Hc0 Hcls].
  assert (Hahead : forall b' g,
    run (NotAhead (in_set (txt ">)]"))) finish b' post g = Some (MatchObj g post)).
  { intros b' g. cbn [run]. destruct post as [|x post]; [done|].
    specialize (Hpost x eq_refl). clear -Hpost.
    destruct (in_set (txt ">)]") x) eqn:Hx; [|done]. exfalso.
    unfold in_set, contains in Hx. simpl in Hx.
    repeat (apply orb_true_iff in Hx as [Hx|Hx];
            [apply Ascii.eqb_eq in Hx as ->; by vm_compute in Hpost|]).
    done. }
  assert (Htail : forall b' a0 g, a0 = txt "://" ++ (c0 :: body) ++ post ->
    run (Cat (Lit (txt "://"))
           (Plus (fun c => negb (isspace c || in_set (txt ")<>]") c))))
      (fun b'' a'' g'' =>
         run (NotAhead (in_set (txt ">)]"))) finish b'' a''
           ((1, take (length (scheme ++ a0) - length a'') (scheme ++ a0)) :: g''))
      b' a0 g
    = Some (MatchObj ((1, scheme ++ txt "://" ++ c0 :: body) :: g) post)).
  { intros b' a0 g ->.
    change (run (Cat ?r1 ?r2) ?k ?b ?a ?g) with (run r1 (run r2 k) b a g).
    change (run (Lit ?s) ?k ?b ?a ?g) with (lit s k b a g).
    rewrite lit_app.
    change (run (Plus ?p) ?k ?b ?a ?g) with (one p (star p k) b a g).
    cbn [app one]. rewrite Hc0.
    apply star_greedy; [done| |].
    - intros x Hx. apply Hpost in Hx. by rewrite Hx.
    - rewrite Hahead.
      rewrite (take_matched_eq _ (scheme ++ txt "://" ++ c0 :: body) post); [done|].
      rewrite <- !app_assoc. simpl. by rewrite <- ?app_assoc. }
  destruct Hscheme as [->| ->].
  - change (txt "http" ++ ?a) with ("h"%char :: "t"%char :: "t"%char :: "p"%char :: a).
    rewrite Hword.
    change (run (Cat ?r1 ?r2) ?k ?b ?a ?g) with (run r1 (run r2 k) b a g).
    change (run (Group 1 ?r) ?k ?b ?a ?g)
      with (run r (fun b' a' g' => k b' a' ((1, take (length a - length a') a) :: g'))
              b a g).
    change (run (Cat ?r1 ?r2) ?k ?b ?a ?g) with (run r1 (run r2 k) b a g).
    change (run (Lit ?s) ?k ?b ?a ?g) with (lit s k b a g).
    change ("h"%char :: "t"%char :: "t"%char :: "p"%char :: ?a) with (txt "http" ++ a).
    rewrite lit_app.
    change (run (Cat ?r1 ?r2) ?k ?b ?a ?g) with (run r1 (run r2 k) b a g).
    change (run (Opt ?r) ?k ?b ?a ?g) with (orelse (run r k b a g) (k b a g)).
    change (run (Lit ?s) ?k ?b ?a ?g) with (lit s k b a g).
    assert (Hnos : forall (k : cont match_obj) b' t g,
      lit (txt "s") k b' (txt "://" ++ t) g = None) by done.
    rewrite Hnos. cbn [orelse]. by rewrite Htail.
  - change (txt "https" ++ ?a)
      with ("h"%char :: "t"%char :: "t"%char :: "p"%char :: "s"%char :: a).
    rewrite Hword.
    change (run (Cat ?r1 ?r2) ?k ?b ?a ?g) with (run r1 (run r2 k) b a g).
    change (run (Group 1 ?r) ?k ?b ?a ?g)
      with (run r (fun b' a' g' => k b' a' ((1, take (length a - length a') a) :: g'))
              b a g).
    change (run (Cat ?r1 ?r2) ?k ?b ?a ?g) with (run r1 (run r2 k) b a g).
    change (run (Lit ?s) ?k ?b ?a ?g) with (lit s k b a g).
    change ("h"%char :: "t"%char :: "t"%char :: "p"%char :: "s"%char :: ?a)
      with (txt "http" ++ txt "s" ++ a).
    rewrite lit_app.
    change (run (Cat ?r1 ?r2) ?k ?b ?a ?g) with (run r1 (run r2 k) b a g).
    change (run (Opt ?r) ?k ?b ?a ?g) with (orelse (run r k b a g) (k b a g)).
    change (run (Lit ?s) ?k ?b ?a ?g) with (lit s k b a g).
    rewrite lit_app.
    change (txt "http" ++ txt "s" ++ ?a) with (txt "https" ++ a).
    by rewrite Htail.
Qed.

Lemma wrap_url_line (pre scheme body post : str) :
  "h"%char ∉ pre -> "h"%char ∉ post ->
  (forall c, last pre = Some c ->
     in_set (txt "(<[") c = false /\ isword c = false) ->
  scheme = txt "http" \/ scheme = txt "https" ->
  body <> [] ->
  Forall (fun c => isspace c = false /\ in_set (txt ")<>]") c = false) body ->
  (forall c, head post = Some c -> isspace c = true) ->
  sub url_pattern url_repl (pre ++ scheme ++ txt "://" ++ body ++ post)
  = pre ++ txt "<" ++ scheme ++ txt "://" ++ body ++ txt ">" ++ post.
Proof.
  intros Hpre Hpost Hlast Hscheme Hne Hbody Hhead.
  assert (Hcopy : forall s, "h"%char ∉ s ->
    Forall (fun c => forall b' t, match_at url_pattern b' (c :: t) = None) s).
  { intros s Hs. apply Forall_forall. intros c Hc b' t. apply url_no_start.
    intros ->. done. }
  unfold sub. rewrite sub_from_copy by auto. f_equal.
  rewrite app_nil_r.
  assert (Hm : match_at url_pattern (reverse pre)
                 ((scheme ++ txt "://" ++ body) ++ post)
               = Some (MatchObj [(1, scheme ++ txt "://" ++ body)] post)).
  { rewrite <- !app_assoc. apply url_match; try done.
    intros c Hc. apply Hlast. by rewrite <- head_reverse. }
  replace (scheme ++ txt "://" ++ body ++ post)
    with ((scheme ++ txt "://" ++ body) ++ post) by (by rewrite <- !app_assoc).
  assert (Hurl : scheme ++ txt "://" ++ body <> [])
    by (destruct Hscheme as [->| ->]; done).
  rewrite (sub_from_match _ _ _ _ _ _ Hurl Hm eq_refl).
  unfold url_repl, group. cbn [groups lookup_group Nat.eqb].
  rewrite <- !app_assoc. do 4 f_equal.
  rewrite <- (app_nil_r post) at 1. rewrite sub_from_copy by auto.
  simpl. by rewrite url_no_match_nil, !app_nil_r.
Qed.

(** X16: on a line outside code blocks, without a Markdown link and not a
    list item, [wrap_bare_urls_careful] puts an [http] or [https] URL that
    ends at whitespace or at the end of the line, and does not follow a word
    character or an opening bracket, into angle brackets and keeps the text
    around it. *)
Theorem bare_url_wrapped (content : str) (i : nat)
    (line pre scheme body post : str) :
  split_lines content !! i = Some line ->
  line = pre ++ scheme ++ txt "://" ++ body ++ post ->
  foldl fence_upd false (take i (split_lines content)) = false ->
  is_fence line = false ->
  contains "["%char line && has_substr (txt "](") line = false ->
  startswith (txt "- ") (strip line) = false ->
  "h"%char ∉ pre -> "h"%char ∉ post ->
  (forall c, last pre = Some c ->
     in_set (txt "(<[") c = false /\ isword c = false) ->
  scheme = txt "http" \/ scheme = txt "https" ->
  body <> [] ->
  Forall (fun c => isspace c = false /\ in_set (txt ")<>]") c = false) body ->
  (forall c, head post = Some c -> isspace c = true) ->
  split_lines (wrap_bare_urls_careful content) !! i
  = Some (pre ++ txt "<" ++ scheme ++ txt "://" ++ body ++ txt ">" ++ post).
Proof.
  intros Hi Hline Hcode Hfence Hlink Hitem Hpre Hpost Hlast Hscheme Hne Hbody Hhead.
  rewrite wrap_bare_urls_careful_lines, (wrap_lines_lookup _ _ _ _ Hi). f_equal.
  unfold wrap_line. rewrite Hcode, Hfence, Hlink, Hitem. cbn [orb andb].
  rewrite Hline. by apply wrap_url_line.
Qed.

Lemma bare_url_wrapped_witness :
  split_lines (wrap_bare_urls_careful (txt "see https://example.com for more")) !! 0
  = Some (txt "see <https://example.com> for more").
Proof.
  apply (bare_url_wrapped (txt "see https://example.com for more") 0
           (txt "see https://example.com for more")
           (txt "see ") (txt "https") (txt "example.com") (txt " for more"));
    try reflexivity.
  - compute_done.
  - compute_done.
  - intros c [= <-]. split; reflexivity.
  - by right.
  - discriminate.
  - repeat (constructor; [split; reflexivity|]). constructor.
  - intros c [= <-]. reflexivity.
Defined.

End WrapOneUrl.

(** ** Long lines (fix-markdown-v2.py) *)

Section LongLines.
Import FixMarkdownV2.

Lemma long_lines_loop (max_length : nat) (ls : list str) :
  Forall (fun l => length l <= max_length \/ has_substr (txt ". ") l = false) ls ->
  forall (R : list str) (s : bool),
  (foldl (long_lines_step max_length) (R, s) ls).1 = R ++ ls.
Proof.
  induction 1 as [|l ls Hl _ IH]; intros R s; cbn [foldl].
  - by rewrite app_nil_r.
  - assert (Hstep : exists s', long_lines_step max_length (R, s) l = (R ++ [l], s')).
    { unfold long_lines_step.
      destruct (FixMarkdownV2.is_fence l); [by eexists|].
      destruct s; [by eexists|].
      destruct (_ || _); [by eexists|].
      assert ((max_length <? length l) && has_substr (txt ". ") l = false) as ->.
      { destruct Hl as [Hl| ->]; [|by rewrite andb_false_r].
        apply Nat.ltb_ge in Hl. by rewrite Hl. }
      by eexists. }
    destruct Hstep as [s' ->]. by rewrite IH, <- app_assoc.
Qed.

(** X18: [fix_long_lines] returns the content unchanged when every line
    is at most [max_length] characters long or holds no sentence end. *)
Theorem short_lines_left_alone (content : str) (max_length : nat) :
  Forall (fun l => length l <= max_length \/ has_substr (txt ". ") l = false)
    (split_lines content) ->
  fix_long_lines content max_length = content.
Proof.
  intros H. unfold fix_long_lines. rewrite long_lines_loop by done.
  apply join_split.
Qed.

Lemma short_lines_left_alone_witness :
  fix_long_lines (txt "One. Two." ++ nl :: txt "three") 120
  = txt "One. Two." ++ nl :: txt "three".
Proof.
  apply (short_lines_left_alone (txt "One. Two." ++ nl :: txt "three") 120).
  repeat constructor; simpl; lia.
Defined.

End LongLines.

(** ** URLs behind an opening bracket *)

Section GuardedUrls.

Lemma lit_no_prefix {R} (s : str) (k : cont R) b a g :
  startswith s a = false -> lit s k b a g = None.
Proof.
  revert b a. induction s as [|c s IH]; intros b a; [done|].
  destruct a as [|c' a]; [done|].
  change (startswith (c :: s) (c' :: a)) with (Ascii.eqb c c' && startswith s a).
  simpl. destruct (Ascii.eqb c c'); [apply IH|done].
Qed.


Lemma url_like_check : url_like (in_set (txt "(<")) CheckMarkdown.url_pattern.
Proof.
  intros b a H. unfold match_at, CheckMarkdown.url_pattern.
  change (run (Cat ?r1 ?r2) ?k ?b ?a ?g) with (run r1 (run r2 k) b a g).
  cbn [run]. destruct H as [H|H].
  - destruct H as (c & t & -> & H). by rewrite H.
  - rewrite (lit_no_prefix _ _ _ _ _ H). destruct b as [|c b]; [done|].
    by destruct (in_set _ c).
Qed.

Lemma url_like_v1 : url_like (in_set (txt "([<")) FixMarkdown.bare_url_pattern.
Proof.
  intros b a H. unfold match_at, FixMarkdown.bare_url_pattern.
  change (run (Cat ?r1 ?r2) ?k ?b ?a ?g) with (run r1 (run r2 k) b a g).
  cbn [run]. destruct H as [H|H].
  - destruct H as (c & t & -> & H). by rewrite H.
  - rewrite (lit_no_prefix _ _ _ _ _ H). destruct b as [|c b]; [done|].
    by destruct (in_set _ c).
Qed.

Lemma guarded_no_match p r b a :
  url_like p r -> urls_guarded p (head b) a = true -> match_at r b a = None.
Proof.
  intros Hr Hg. apply Hr. destruct a as [|c a]; [by right|].
  cbn [urls_guarded] in Hg. apply andb_true_iff in Hg as [Hg _].
  apply orb_true_iff in Hg as [Hg|Hg].
  - right. by apply negb_true_iff in Hg.
  - left. destruct b as [|x b]; [done|]. by exists x, b.
Qed.

Lemma guarded_findall p r a :
  url_like p r ->
  forall b, urls_guarded p (head b) a = true -> findall_from r 0 b a = [].
Proof.
  intros Hr. induction a as [|c a IH]; intros b Hg.
  - simpl. by rewrite (guarded_no_match p r b []).
  - cbn [findall_from]. rewrite (guarded_no_match p r b (c :: a)) by done.
    apply IH. cbn [urls_guarded] in Hg. by apply andb_true_iff in Hg as [_ Hg].
Qed.

Lemma guarded_sub p r repl a :
  url_like p r ->
  forall b, urls_guarded p (head b) a = true -> sub_from r repl 0 b a = a.
Proof.
  intros Hr. induction a as [|c a IH]; intros b Hg.
  - simpl. by rewrite (guarded_no_match p r b []).
  - cbn [sub_from]. rewrite (guarded_no_match p r b (c :: a)) by done.
    f_equal. apply IH. cbn [urls_guarded] in Hg.
    by apply andb_true_iff in Hg as [_ Hg].
Qed.


Import CheckMarkdown.

(** X26: no bare URL is reported for a line in which every [http] stands
    directly behind an opening parenthesis or angle bracket. *)
Theorem url_behind_bracket_not_reported (content : str) (j : nat) (line : str) :
  readlines content !! j = Some line ->
  urls_guarded (in_set (txt "(<")) None line = true ->
  forall u, MD034 (S j) u ∉ check_file content.
Proof.
  intros Hj Hg u Hin. apply elem_of_check_file in Hin; [|done..].
  destruct Hin as (j' & l & Hl & Hx). apply elem_of_check_step in Hx.
  repeat (destruct Hx as [Hx|Hx]);
    try (destruct Hx as [? _]; congruence).
  destruct Hx as (url & [= <- _] & _ & Hurl). simplify_eq.
  unfold findall in Hurl.
  rewrite (guarded_findall _ _ _ url_like_check) in Hurl by done.
  by apply elem_of_nil in Hurl.
Qed.

Lemma url_behind_bracket_not_reported_witness :
  MD034 1 (txt "http://example.com")
  ∉ check_file (document ["[docs](http://example.com)"]).
Proof.
  apply (url_behind_bracket_not_reported
           (document ["[docs](http://example.com)"]) 0
           (txt "[docs](http://example.com)" ++ [nl]) eq_refl eq_refl).
Defined.

(** X12: [wrap_bare_urls] returns the content unchanged when every [http]
    in it stands directly behind an opening parenthesis, square bracket or
    angle bracket, as the target of a Markdown link does. *)
Theorem url_behind_bracket_not_wrapped (content : str) :
  urls_guarded (in_set (txt "([<")) None content = true ->
  FixMarkdown.wrap_bare_urls content = content.
Proof. intros Hg. by apply (guarded_sub _ _ _ _ url_like_v1). Qed.

Lemma url_behind_bracket_not_wrapped_witness :
  FixMarkdown.wrap_bare_urls (txt "[docs](http://example.com)")
  = txt "[docs](http://example.com)".
Proof.
  apply (url_behind_bracket_not_wrapped (txt "[docs](http://example.com)")).
  reflexivity.
Defined.

End GuardedUrls.
